(** * simpleEncoder: the frame-submission / packet-drain pipeline

    A shallow embedding of [simpleEncoder/main.cpp]: the frame source
    ([aom_img_read]), the per-submission drain ([encode_frame]) and the
    driver ([main]) with its keyframe schedule, frame cap and flush loop.

    The encoder library (libaom) is an external collaborator: it appears
    as the interface [AomLib], and the driver is parametric in it.  The C
    standard library's streams are modelled by [FILE] (input, with the
    history of its [fread] calls) and [OFILE] (output, with the bytes
    written so far and the room the device has left). *)

From Stdlib Require Import ZArith List String Bool Lia.
From Stdlib Require Import Init.Byte.
Import ListNotations.
Local Open Scope string_scope.
Local Open Scope list_scope.
Local Open Scope Z_scope.

(* [length] is the length of a list throughout. *)
Abbreviation length := Datatypes.length (only parsing).

(** ** C integers *)

(** [int] is 32 bits wide; arithmetic on it is done in [Z] and brought
    back into range by [int_wrap] (two's complement wrap-around). *)
Definition INT_MAX : Z := 2147483647.

Definition int_wrap (z : Z) : Z := (z + 2147483648) mod 4294967296 - 2147483648.

(** The conversion [(size_t)w] of an [int], with a 64-bit [size_t]. *)
Definition size_t_of_int (w : Z) : nat := Z.to_nat (w mod 18446744073709551616).

Definition EXIT_SUCCESS : Z := 0.
Definition EXIT_FAILURE : Z := 1.

(** "aom_codec functions return an enumerated error status, with the
    value `0` indicating success" (main.cpp, Error Handling). *)
Definition aom_codec_err_t := Z.
Definition AOM_CODEC_OK : aom_codec_err_t := 0.

Definition AV1_FOURCC : Z := 0x31305641.

(** ** Data model *)

(** The fields of libaom's [aom_image_t] that the program and the plane
    geometry depend on.  [planes] holds, for each plane, the memory that
    starts at [img->planes[plane]]. *)
Record aom_image_t := mk_image {
  fmt : Z;
  d_w : Z;
  d_h : Z;
  x_chroma_shift : Z;
  y_chroma_shift : Z;
  planes : list (list byte);
  stride : list Z
}.

(** [aom_codec_cx_pkt_t] is a tagged union: the [kind] selects the member
    of [data].  Only [data.frame] is used by the program ([buf] with
    [sz = length buf], and [flags]). *)
Inductive aom_codec_cx_pkt_t :=
| AOM_CODEC_CX_FRAME_PKT (buf : list byte) (flags : Z)
| AOM_CODEC_OTHER_PKT (kind : Z).

(** The fields of [aom_codec_enc_cfg_t] that [main] assigns. *)
Record aom_codec_enc_cfg_t := mk_cfg {
  g_usage : Z;
  g_w : Z;
  g_h : Z;
  g_timebase_num : Z;
  g_timebase_den : Z;
  rc_target_bitrate : Z;
  g_error_resilient : Z
}.

(** ** Streams *)

(** An input stream: the bytes not yet consumed and, for every [fread]
    made on it so far, the number of bytes asked for and delivered. *)
Record FILE := mk_FILE {
  unread : list byte;
  freads : list (nat * nat)
}.

(** [fread(buf, 1, n, file)]: delivers the next [n] bytes, fewer when the
    stream ends first ([unread] is what the stream can still deliver, be
    it cut short by the end of the file or by a read error). *)
Definition fread (n : nat) (file : FILE) : list byte * FILE :=
  let got := firstn n (unread file) in
  (got, mk_FILE (skipn n (unread file))
                (freads file ++ [(n, length got)])).

(** An output stream: the bytes written and the number of bytes the device
    still accepts ([None]: no limit). *)
Record OFILE := mk_OFILE {
  written : list byte;
  room : option nat
}.

(** [fwrite(buf, 1, sz, outfile)]: returns the number of bytes written. *)
Definition fwrite (data : list byte) (out : OFILE) : nat * OFILE :=
  match room out with
  | None => (length data, mk_OFILE (written out ++ data) None)
  | Some r =>
      let n := Nat.min r (length data) in
      (n, mk_OFILE (written out ++ firstn n data) (Some (r - n)%nat))
  end.

(** Memory of a plane: [store off data mem] overwrites [mem] from offset
    [off] on with [data].  Writing past the end of the allocation is
    undefined in C; here the bytes that do not fit are dropped. *)
Definition store (off : Z) (data mem : list byte) : list byte :=
  if off <? 0 then mem
  else
    let o := Z.to_nat off in
    firstn (length mem) (firstn o mem ++ data ++ skipn (o + length data) mem).

Fixpoint set_nth {A} (n : nat) (x : A) (l : list A) : list A :=
  match n, l with
  | _, [] => []
  | O, _ :: t => x :: t
  | S k, h :: t => h :: set_nth k x t
  end.

(** ** The encoder library as an interface *)

Class AomLib := {
  aom_codec_ctx_t : Type;
  aom_codec_iface_t : Type;
  (* constants of the public headers *)
  AOM_IMG_FMT_I420 : Z;
  AOM_IMG_FMT_HIGHBITDEPTH : Z;
  AOM_EFLAG_FORCE_KF : Z;
  AOM_FRAME_IS_KEY : Z;
  AOME_SET_CPUUSED : Z;
  AOME_SET_CQ_LEVEL : Z;
  (* images *)
  aom_img_alloc : Z -> Z -> Z -> Z -> option aom_image_t;
  aom_img_plane_width : aom_image_t -> Z -> Z;
  aom_img_plane_height : aom_image_t -> Z -> Z;
  (* the codec *)
  aom_codec_av1_cx : aom_codec_iface_t;
  aom_codec_iface_name : aom_codec_iface_t -> string;
  aom_codec_enc_config_default :
    aom_codec_iface_t -> Z -> aom_codec_err_t * aom_codec_enc_cfg_t;
  (* stands for what [main]'s local [codec] holds before
     [aom_codec_enc_init] has written it: indeterminate in C, hence a
     parameter, and nothing below is stated about what is read from it *)
  codec_uninit : aom_codec_ctx_t;
  aom_codec_enc_init :
    aom_codec_iface_t -> aom_codec_enc_cfg_t -> Z ->
    aom_codec_err_t * aom_codec_ctx_t;
  aom_codec_control : aom_codec_ctx_t -> Z -> Z -> aom_codec_ctx_t;
  aom_codec_encode :
    aom_codec_ctx_t -> option aom_image_t -> Z -> Z -> Z ->
    aom_codec_err_t * aom_codec_ctx_t;
  (* the finite sequence of packets that successive calls of
     [aom_codec_get_cx_data] with one iterator return before NULL *)
  cx_data : aom_codec_ctx_t -> list aom_codec_cx_pkt_t;
  aom_codec_destroy : aom_codec_ctx_t -> aom_codec_err_t;
  aom_codec_error : aom_codec_ctx_t -> string;
  aom_codec_error_detail : aom_codec_ctx_t -> option string
}.

(** ** The keyframe schedule (main, lines 366-368) *)

(** The condition of the [if]: [%] is C's remainder, [Z.rem]. *)
Definition force_keyframe (frame_count keyframe_interval : Z) : bool :=
  (keyframe_interval >? 0) && (Z.rem frame_count keyframe_interval =? 0).

Definition keyframe_flags `{AomLib} (frame_count keyframe_interval : Z) : Z :=
  let flags := 0 in
  if force_keyframe frame_count keyframe_interval
  then Z.lor flags AOM_EFLAG_FORCE_KF
  else flags.

(** ** The frame source (aom_img_read, lines 206-224) *)

Section FrameSource.
Context `{AomLib}.

(** The inner loop over the rows [y .. h-1] of one plane; [rows] is the
    number of rows left and [off] the offset of [buf] in the plane's
    memory.  Returns whether all rows were read. *)
Fixpoint read_rows (rows : nat) (w stride_ off : Z) (mem : list byte)
    (file : FILE) : bool * list byte * FILE :=
  match rows with
  | O => (true, mem, file)
  | S rows' =>
      let '(got, file') := fread (size_t_of_int w) file in
      let mem' := store off got mem in
      if Nat.eqb (length got) (size_t_of_int w)
      then read_rows rows' w stride_ (off + stride_) mem' file'
      else (false, mem', file')
  end.

Definition read_plane (img : aom_image_t) (plane : nat) (file : FILE)
    : bool * aom_image_t * FILE :=
  let buf := nth plane (planes img) [] in
  let stride_ := nth plane (stride img) 0 in
  let w := int_wrap (aom_img_plane_width img (Z.of_nat plane) *
                     (if Z.land (fmt img) AOM_IMG_FMT_HIGHBITDEPTH =? 0
                      then 1 else 2)) in
  let h := aom_img_plane_height img (Z.of_nat plane) in
  let '(ok, mem', file') := read_rows (Z.to_nat h) w stride_ 0 buf file in
  (ok, mk_image (fmt img) (d_w img) (d_h img) (x_chroma_shift img)
                (y_chroma_shift img) (set_nth plane mem' (planes img))
                (stride img),
   file').

(** The outer loop over the planes [plane .. 2]. *)
Fixpoint read_planes (todo : nat) (plane : nat) (img : aom_image_t)
    (file : FILE) : Z * aom_image_t * FILE :=
  match todo with
  | O => (1, img, file)
  | S todo' =>
      let '(ok, img', file') := read_plane img plane file in
      if ok then read_planes todo' (S plane) img' file'
      else (0, img', file')
  end.

Definition aom_img_read (img : aom_image_t) (file : FILE)
    : Z * aom_image_t * FILE :=
  read_planes 3 0 img file.

End FrameSource.

(** ** The world the program runs in *)

Inductive parg := PInt (z : Z) | PStr (s : string).

Inductive stream_id := Infile | Outfile.

(** What the program does to the outside, in order: output on [stdout] and
    [stderr], and the calls into libaom and the file system.  The bytes
    moved by [fread] and [fwrite] are recorded in the streams. *)
Inductive event :=
| EvPrintf (format : string) (args : list parg)
| EvStderr (format : string) (args : list parg)
| EvFflush
| EvImgAlloc (format w h align : Z) (ok : bool)
| EvImgFree
| EvFopen (path mode : string) (ok : bool)
| EvFclose (f : stream_id)
| EvIfaceName
| EvConfigDefault (usage : Z) (res : aom_codec_err_t)
| EvEncInit (cfg : aom_codec_enc_cfg_t) (flags : Z) (res : aom_codec_err_t)
| EvControl (ctrl_id value : Z)
| EvEncode (img : option aom_image_t) (pts duration flags : Z)
           (res : aom_codec_err_t)
| EvGetCxData (pkt : option aom_codec_cx_pkt_t)
| EvErrorDetail
| EvError
| EvDestroy (res : aom_codec_err_t).

Record world := mk_world {
  trace : list event;
  infile : FILE;
  outfile : OFILE
}.

Definition init_world : world :=
  mk_world [] (mk_FILE [] []) (mk_OFILE [] (Some 0%nat)).

(** The file system as [fopen] sees it: the contents of a file opened for
    reading, the room of a file opened for writing, [None] when the open
    fails. *)
Record env := mk_env {
  fs_read : string -> option (list byte);
  fs_write : string -> option (option nat)
}.

(** A run returns, leaves through [exit(status)], or is cut off by the
    fuel that bounds the two [while] loops of [main]. *)
Inductive result (A : Type) :=
| Ret (a : A) (w : world)
| Exit (status : Z) (w : world)
| OutOfFuel.
Arguments Ret {A} a w.
Arguments Exit {A} status w.
Arguments OutOfFuel {A}.

Definition M (A : Type) := world -> result A.

Definition ret {A} (a : A) : M A := fun w => Ret a w.

Definition bind {A B} (c : M A) (k : A -> M B) : M B :=
  fun w => match c w with
           | Ret a w' => k a w'
           | Exit st w' => Exit st w'
           | OutOfFuel => OutOfFuel
           end.

Declare Scope m_scope.
Delimit Scope m_scope with M.
Notation "x <- c ;; k" := (bind c (fun x => k))
  (at level 61, c at next level, right associativity) : m_scope.
Notation "' p <- c ;; k" := (bind c (fun x => match x with p => k end))
  (at level 61, p pattern, c at next level, right associativity) : m_scope.
Notation "c ;; k" := (bind c (fun _ => k))
  (at level 61, right associativity) : m_scope.
Local Open Scope m_scope.

Definition emit (e : event) : M unit :=
  fun w => Ret tt (mk_world (trace w ++ [e]) (infile w) (outfile w)).

Definition exit_ {A} (status : Z) : M A := fun w => Exit status w.

Definition out_of_fuel {A} : M A := fun _ => OutOfFuel.

Definition world_of {A} (r : result A) : option world :=
  match r with
  | Ret _ w => Some w
  | Exit _ w => Some w
  | OutOfFuel => None
  end.

(** ** Diagnostics (lines 138-176) *)

Definition usage_fmt : string :=
  "Usage: %s <codec> <width> <height> <infile> <outfile> <keyframe-interval> <error-resilient> <frames to encode>\nSee comments in simple_encoder.c for more information.\n".

Definition usage_exit {A} (exec_name : string) : M A :=
  emit (EvStderr usage_fmt [PStr exec_name]) ;;
  exit_ EXIT_FAILURE.

(** [LOG_ERROR(NULL)] prints no label. *)
Definition die {A} (exec_name : string) (format : string) (args : list parg)
    : M A :=
  emit (EvStderr format args) ;;
  emit (EvStderr "\n" []) ;;
  usage_exit exec_name.

Definition die_codec `{AomLib} {A} (ctx : aom_codec_ctx_t) (s : string) : M A :=
  emit EvErrorDetail ;;
  let detail := aom_codec_error_detail ctx in
  emit EvError ;;
  emit (EvPrintf "%s: %s\n" [PStr s; PStr (aom_codec_error ctx)]) ;;
  match detail with
  | Some d => emit (EvPrintf "    %s\n" [PStr d])
  | None => ret tt
  end ;;
  exit_ EXIT_FAILURE.

(** ** The encoder table (lines 178-203) *)

Record AvxInterface `{AomLib} := mk_AvxInterface {
  name : string;
  fourcc : Z;
  codec_interface : unit -> aom_codec_iface_t
}.

Definition aom_encoders `{AomLib} : list AvxInterface :=
  [ mk_AvxInterface _ "av1" AV1_FOURCC (fun _ => aom_codec_av1_cx) ].

Definition get_aom_encoder_count `{AomLib} : nat := length aom_encoders.

Definition get_aom_encoder_by_index `{AomLib} (i : nat) : option AvxInterface :=
  nth_error aom_encoders i.

(** The loop [for (i = 0; i < count; ++i)], from [i] on with [todo]
    entries left; [strcmp(..) == 0] is [String.eqb]. *)
Fixpoint encoder_search `{AomLib} (todo i : nat) (name_ : string)
    : option AvxInterface :=
  match todo with
  | O => None
  | S todo' =>
      match get_aom_encoder_by_index i with
      | Some encoder =>
          if String.eqb (name encoder) name_ then Some encoder
          else encoder_search todo' (S i) name_
      | None => None
      end
  end.

Definition get_aom_encoder_by_name `{AomLib} (name_ : string)
    : option AvxInterface :=
  encoder_search get_aom_encoder_count 0 name_.

(** ** Submitting one frame and draining its packets (lines 227-251) *)

Section Driver.
Context `{AomLib}.

Definition do_fwrite (data : list byte) : M nat :=
  fun w =>
    let '(n, out) := fwrite data (outfile w) in
    Ret n (mk_world (trace w) (infile w) out).

(** The [while] loop over the packets that [aom_codec_get_cx_data] still
    returns; the call that returns NULL ends it. *)
Fixpoint drain_packets (codec : aom_codec_ctx_t)
    (pkts : list aom_codec_cx_pkt_t) (got_pkts : Z) : M Z :=
  match pkts with
  | [] => emit (EvGetCxData None) ;; ret got_pkts
  | pkt :: rest =>
      emit (EvGetCxData (Some pkt)) ;;
      let got_pkts := 1 in
      match pkt with
      | AOM_CODEC_CX_FRAME_PKT buf flags =>
          let keyframe := negb (Z.land flags AOM_FRAME_IS_KEY =? 0) in
          n <- do_fwrite buf ;;
          (if Nat.eqb n (length buf) then ret tt
           else die_codec codec "Failed to write compressed frame") ;;
          emit (EvPrintf (if keyframe then "K" else ".") []) ;;
          emit EvFflush
      | AOM_CODEC_OTHER_PKT _ => ret tt
      end ;;
      drain_packets codec rest got_pkts
  end.

Definition encode_frame (codec : aom_codec_ctx_t) (img : option aom_image_t)
    (frame_index flags : Z) : M (Z * aom_codec_ctx_t) :=
  let got_pkts := 0 in
  let '(res, codec) := aom_codec_encode codec img frame_index 1 flags in
  emit (EvEncode img frame_index 1 flags res) ;;
  (if res =? AOM_CODEC_OK then ret tt
   else die_codec codec "Failed to encode frame") ;;
  got_pkts <- drain_packets codec (cx_data codec) got_pkts ;;
  ret (got_pkts, codec).

(** ** The driver (main, lines 254-388) *)

(** The values [main] works from.  The program at hand fixes them in its
    text ([hard_coded] below); the lines it has commented out take them
    from [argv].  The numeric fields are the results of [strtol] and
    [strtoul]. *)
Record main_args := mk_args {
  exec_name : string;
  codec_arg : string;
  frame_width : Z;
  frame_height : Z;
  infile_arg : string;
  outfile_arg : string;
  keyframe_interval : Z;
  error_resilient : Z;
  max_frames : Z
}.

Definition hard_coded (argv0 : string) : main_args :=
  mk_args argv0 "av1" 416 240 "99_BasketballPass_416x240_50.yuv" "test.obu"
          30 0 50.

Definition do_fopen_rb (E : env) (path : string) : M bool :=
  fun w =>
    match fs_read E path with
    | Some data =>
        Ret true (mk_world (trace w ++ [EvFopen path "rb" true])
                           (mk_FILE data []) (outfile w))
    | None =>
        Ret false (mk_world (trace w ++ [EvFopen path "rb" false])
                            (infile w) (outfile w))
    end.

Definition do_fopen_wb (E : env) (path : string) : M bool :=
  fun w =>
    match fs_write E path with
    | Some r =>
        Ret true (mk_world (trace w ++ [EvFopen path "wb" true])
                           (infile w) (mk_OFILE [] r))
    | None =>
        Ret false (mk_world (trace w ++ [EvFopen path "wb" false])
                            (infile w) (outfile w))
    end.

Definition do_img_read (raw : aom_image_t) : M (Z * aom_image_t) :=
  fun w =>
    let '(r, raw', file') := aom_img_read raw (infile w) in
    Ret (r, raw') (mk_world (trace w) file' (outfile w)).

(** The variables of [main] that its loops change. *)
Record loop_state := mk_loop {
  codec : aom_codec_ctx_t;
  raw : aom_image_t;
  frame_count : Z;
  frames_encoded : Z
}.

(** One pass through the [while] of lines 365-373, from the evaluation of
    its condition on; the boolean tells whether the loop goes round
    again. *)
Definition encode_iteration (a : main_args) (s : loop_state)
    : M (bool * loop_state) :=
  '(r, raw') <- do_img_read (raw s) ;;
  if r =? 0 then ret (false, mk_loop (codec s) raw' (frame_count s)
                                     (frames_encoded s))
  else
    let flags := keyframe_flags (frame_count s) (keyframe_interval a) in
    '(_, codec') <- encode_frame (codec s) (Some raw') (frame_count s) flags ;;
    let frame_count' := int_wrap (frame_count s + 1) in
    emit (EvPrintf "encoded_frame: %d\n" [PInt (frames_encoded s)]) ;;
    let frames_encoded' := int_wrap (frames_encoded s + 1) in
    let s' := mk_loop codec' raw' frame_count' frames_encoded' in
    if (max_frames a >? 0) && (frames_encoded' >=? max_frames a)
    then ret (false, s')
    else ret (true, s').

Fixpoint encode_loop (fuel : nat) (a : main_args) (s : loop_state)
    : M loop_state :=
  match fuel with
  | O => out_of_fuel
  | S fuel' =>
      '(again, s') <- encode_iteration a s ;;
      if again then encode_loop fuel' a s' else ret s'
  end.

(** [while (encode_frame(&codec, NULL, -1, 0, outfile)) continue;] *)
Fixpoint flush_loop (fuel : nat) (codec : aom_codec_ctx_t)
    : M aom_codec_ctx_t :=
  match fuel with
  | O => out_of_fuel
  | S fuel' =>
      '(got_pkts, codec') <- encode_frame codec None (-1) 0 ;;
      if got_pkts =? 0 then ret codec' else flush_loop fuel' codec'
  end.

(** Lines 304-361: everything before the first frame is read. *)
Definition setup (E : env) (a : main_args) : M loop_state :=
  let frame_count := 0 in
  let frames_encoded := 0 in
  match get_aom_encoder_by_name (codec_arg a) with
  | None => die (exec_name a) "Unsupported codec." []
  | Some encoder =>
      (if (frame_width a <=? 0) || (frame_height a <=? 0) ||
          negb (Z.rem (frame_width a) 2 =? 0) ||
          negb (Z.rem (frame_height a) 2 =? 0)
       then die (exec_name a) "Invalid frame size: %dx%d"
                [PInt (frame_width a); PInt (frame_height a)]
       else ret tt) ;;
      let alloc :=
        aom_img_alloc AOM_IMG_FMT_I420 (frame_width a) (frame_height a) 1 in
      emit (EvImgAlloc AOM_IMG_FMT_I420 (frame_width a) (frame_height a) 1
                       (match alloc with Some _ => true | None => false end)) ;;
      match alloc with
      | None => die (exec_name a) "Failed to allocate image." []
      | Some raw =>
          (if keyframe_interval a <? 0
           then die (exec_name a) "Invalid keyframe interval value." []
           else ret tt) ;;
          emit EvIfaceName ;;
          emit (EvPrintf "Using %s\n"
                  [PStr (aom_codec_iface_name (codec_interface encoder tt))]) ;;
          let '(res, cfg) :=
            aom_codec_enc_config_default (codec_interface encoder tt) 0 in
          emit (EvConfigDefault 0 res) ;;
          (if res =? 0 then ret tt
           else die_codec codec_uninit "Failed to get default codec config.") ;;
          let cfg := mk_cfg 8 (frame_width a) (frame_height a) 1 30 200
                            (error_resilient a) in
          opened <- do_fopen_rb E (infile_arg a) ;;
          (if opened then ret tt
           else die (exec_name a) "Failed to open %s for reading."
                    [PStr (infile_arg a)]) ;;
          opened <- do_fopen_wb E (outfile_arg a) ;;
          (if opened then ret tt
           else die (exec_name a) "Failed to open %s for reading."
                    [PStr (outfile_arg a)]) ;;
          let '(res, codec) :=
            aom_codec_enc_init (codec_interface encoder tt) cfg 0 in
          emit (EvEncInit cfg 0 res) ;;
          (if res =? 0 then ret tt
           else die_codec codec "Failed to initialize encoder") ;;
          emit (EvControl AOME_SET_CPUUSED 8) ;;
          let codec := aom_codec_control codec AOME_SET_CPUUSED 8 in
          emit (EvControl AOME_SET_CQ_LEVEL 45) ;;
          let codec := aom_codec_control codec AOME_SET_CQ_LEVEL 45 in
          ret (mk_loop codec raw frame_count frames_encoded)
      end
  end.

(** Lines 378-387: after the flush loop. *)
Definition teardown (s : loop_state) : M Z :=
  emit (EvPrintf "\n" []) ;;
  emit (EvFclose Infile) ;;
  emit (EvPrintf "Processed %d frames.\n" [PInt (frame_count s)]) ;;
  emit EvImgFree ;;
  let res := aom_codec_destroy (codec s) in
  emit (EvDestroy res) ;;
  (if res =? 0 then ret tt
   else die_codec (codec s) "Failed to destroy codec.") ;;
  emit (EvFclose Outfile) ;;
  emit (EvPrintf "Process completed" []) ;;
  ret EXIT_SUCCESS.

Definition main_body (fuel : nat) (E : env) (a : main_args) : M Z :=
  s <- setup E a ;;
  s <- encode_loop fuel a s ;;
  codec' <- flush_loop fuel (codec s) ;;
  teardown (mk_loop codec' (raw s) (frame_count s) (frames_encoded s)).

Definition main (fuel : nat) (E : env) (argv0 : string) : result Z :=
  main_body fuel E (hard_coded argv0) init_world.

End Driver.

(** ** A test double of the encoder library

    A session with a fixed lookahead: it holds back up to [lookahead]
    frame packets, hands out the oldest one once it holds more, and on a
    flush submission ([img = NULL]) hands out one held packet per call.
    With [stats_pkt] it also yields one informational packet after the
    last held frame packet has gone. *)
Module Fake.

Record params := mk_params {
  lookahead : nat;
  init_res : aom_codec_err_t;
  stats_pkt : bool;
  alloc_ok : bool
}.

Record ctx := mk_ctx {
  queue : list aom_codec_cx_pkt_t;
  ready : list aom_codec_cx_pkt_t;
  stats : bool;
  failed : bool
}.

Definition plane_width (img : aom_image_t) (plane : Z) : Z :=
  if (0 <? plane) && (0 <? x_chroma_shift img)
  then Z.shiftr (d_w img + 1) (x_chroma_shift img)
  else d_w img.

Definition plane_height (img : aom_image_t) (plane : Z) : Z :=
  if (0 <? plane) && (0 <? y_chroma_shift img)
  then Z.shiftr (d_h img + 1) (y_chroma_shift img)
  else d_h img.

Definition zeros (n : Z) : list byte := repeat x00 (Z.to_nat n).

Definition img_alloc (p : params) (format w h align : Z) : option aom_image_t :=
  if alloc_ok p then
    let cw := Z.shiftr (w + 1) 1 in
    let ch := Z.shiftr (h + 1) 1 in
    Some (mk_image format w h 1 1
                   [zeros (w * h); zeros (cw * ch); zeros (cw * ch)]
                   [w; cw; cw])
  else None.

Definition packet_of (img : aom_image_t) (flags : Z) : aom_codec_cx_pkt_t :=
  AOM_CODEC_CX_FRAME_PKT (firstn 2 (nth 0 (planes img) []))
                         (if Z.land flags 1 =? 0 then 0 else 1).

Definition encode (p : params) (c : ctx) (img : option aom_image_t)
    (pts duration flags : Z) : aom_codec_err_t * ctx :=
  match img with
  | Some im =>
      let q := queue c ++ [packet_of im flags] in
      if Nat.leb (length q) (lookahead p)
      then (0, mk_ctx q [] (stats c) (failed c))
      else (0, mk_ctx (tl q) (firstn 1 q) (stats c) (failed c))
  | None =>
      match queue c with
      | pkt :: q => (0, mk_ctx q [pkt] (stats c) (failed c))
      | [] =>
          if stats c
          then (0, mk_ctx [] [AOM_CODEC_OTHER_PKT 1] false (failed c))
          else (0, mk_ctx [] [] false (failed c))
      end
  end.

Definition lib (p : params) : AomLib := {|
  aom_codec_ctx_t := ctx;
  aom_codec_iface_t := unit;
  AOM_IMG_FMT_I420 := 0x102;
  AOM_IMG_FMT_HIGHBITDEPTH := 0x800;
  AOM_EFLAG_FORCE_KF := 1;
  AOM_FRAME_IS_KEY := 1;
  AOME_SET_CPUUSED := 13;
  AOME_SET_CQ_LEVEL := 25;
  aom_img_alloc := img_alloc p;
  aom_img_plane_width := plane_width;
  aom_img_plane_height := plane_height;
  aom_codec_av1_cx := tt;
  aom_codec_iface_name := fun _ => "test double";
  aom_codec_enc_config_default := fun _ usage => (0, mk_cfg usage 0 0 0 0 0 0);
  codec_uninit := mk_ctx [] [] false true;
  aom_codec_enc_init := fun _ _ _ =>
    (init_res p, mk_ctx [] [] (stats_pkt p) (negb (init_res p =? 0)));
  aom_codec_control := fun c _ _ => c;
  aom_codec_encode := encode p;
  cx_data := ready;
  aom_codec_destroy := fun _ => 0;
  aom_codec_error := fun c => if failed c then "Unspecified internal error"
                              else "Success";
  aom_codec_error_detail := fun c => if failed c then Some "no memory"
                                     else None
|}.

(** The number of flush submissions that can still yield a packet. *)
Definition pending (c : ctx) : nat :=
  (length (queue c) + (if stats c then 1 else 0))%nat.

(** Input files of 2x2 frames (6 bytes each). *)
Definition frame_a : list byte := [x01; x02; x03; x04; x05; x06].
Definition frame_b : list byte := [x11; x12; x13; x14; x15; x16].
Definition frame_c : list byte := [x21; x22; x23; x24; x25; x26].

Definition fs (data : list byte) (out_room : option nat) : env :=
  mk_env (fun path => if String.eqb path "in.yuv" then Some data else None)
         (fun path => if String.eqb path "out.obu" then Some out_room
                      else None).

Definition args (ki mf : Z) : main_args :=
  mk_args "simple_encoder" "av1" 2 2 "in.yuv" "out.obu" ki 0 mf.

(** A double with one packet of lookahead and a trailing informational
    packet; one whose initialisation fails. *)
Definition double : params := mk_params 1 0 true true.
Definition broken : params := mk_params 1 1 false true.

Definition three_frames : list byte := frame_a ++ frame_b ++ frame_c.

(** The 2x2 image that [img_alloc] hands out. *)
Definition blank : aom_image_t :=
  mk_image 0x102 2 2 1 1 [zeros 4; zeros 1; zeros 1] [2; 1; 1].

(** A world whose output takes everything. *)
Definition open_world : world :=
  mk_world [] (mk_FILE [] []) (mk_OFILE [] None).

(** A context holding two frame packets. *)
Definition holding_two : ctx :=
  mk_ctx [AOM_CODEC_CX_FRAME_PKT [x0a] 1; AOM_CODEC_CX_FRAME_PKT [x0b] 0]
         [] false false.

Definition run (p : params) (fuel : nat) (E : env) (a : main_args)
    : result Z :=
  @main_body (lib p) fuel E a init_world.

Definition final_world (r : result Z) : world :=
  match world_of r with
  | Some w => w
  | None => init_world
  end.

End Fake.

(** ** A test double that can fail late

    The double above, with a library whose default configuration
    reports [config_res], and a session whose flush submissions report
    [flush_res] and whose [aom_codec_destroy] reports [destroy_res]. *)
Module Faulty.

Definition encode (p : Fake.params) (flush_res : aom_codec_err_t)
    (c : Fake.ctx) (img : option aom_image_t) (pts duration flags : Z)
    : aom_codec_err_t * Fake.ctx :=
  match img with
  | Some _ => Fake.encode p c img pts duration flags
  | None =>
      if flush_res =? 0 then Fake.encode p c img pts duration flags
      else (flush_res,
            Fake.mk_ctx (Fake.queue c) [] (Fake.stats c) true)
  end.

Definition lib (p : Fake.params)
    (config_res flush_res destroy_res : aom_codec_err_t) : AomLib := {|
  aom_codec_ctx_t := Fake.ctx;
  aom_codec_iface_t := unit;
  AOM_IMG_FMT_I420 := 0x102;
  AOM_IMG_FMT_HIGHBITDEPTH := 0x800;
  AOM_EFLAG_FORCE_KF := 1;
  AOM_FRAME_IS_KEY := 1;
  AOME_SET_CPUUSED := 13;
  AOME_SET_CQ_LEVEL := 25;
  aom_img_alloc := Fake.img_alloc p;
  aom_img_plane_width := Fake.plane_width;
  aom_img_plane_height := Fake.plane_height;
  aom_codec_av1_cx := tt;
  aom_codec_iface_name := fun _ => "test double";
  aom_codec_enc_config_default := fun _ usage =>
    (config_res, mk_cfg usage 0 0 0 0 0 0);
  codec_uninit := Fake.mk_ctx [] [] false true;
  aom_codec_enc_init := fun _ _ _ =>
    (Fake.init_res p,
     Fake.mk_ctx [] [] (Fake.stats_pkt p) (negb (Fake.init_res p =? 0)));
  aom_codec_control := fun c _ _ => c;
  aom_codec_encode := encode p flush_res;
  cx_data := Fake.ready;
  aom_codec_destroy := fun _ => destroy_res;
  aom_codec_error := fun c => if Fake.failed c
                              then "Unspecified internal error"
                              else "Success";
  aom_codec_error_detail := fun c => if Fake.failed c then Some "no memory"
                                     else None
|}.

Definition run (config_res flush_res destroy_res : aom_codec_err_t)
    (fuel : nat) (E : env) (a : main_args) : result Z :=
  @main_body (lib Fake.double config_res flush_res destroy_res) fuel E a
             init_world.

End Faulty.

(** ** Observations on a trace *)

(** The real-frame submissions of a trace, in order: presentation time
    stamp and flags of every [aom_codec_encode] call that was given an
    image. *)
Definition real_submits (t : list event) : list (Z * Z) :=
  flat_map (fun e => match e with
                     | EvEncode (Some _) pts _ flags _ => [(pts, flags)]
                     | _ => []
                     end) t.

(** The flush submissions: the calls that were given NULL. *)
Definition flush_submits (t : list event) : list (Z * Z) :=
  flat_map (fun e => match e with
                     | EvEncode None pts _ flags _ => [(pts, flags)]
                     | _ => []
                     end) t.

Definition is_submit (e : event) : bool :=
  match e with EvEncode _ _ _ _ _ => true | _ => false end.

(** Calls of the session's operations (configure, initialize, control,
    submit, drain, destroy); the two error-string accessors that
    [die_codec] uses are not among them. *)
Definition is_session_op (e : event) : bool :=
  match e with
  | EvConfigDefault _ _ | EvEncInit _ _ _ | EvControl _ _
  | EvEncode _ _ _ _ _ | EvGetCxData _ | EvDestroy _ => true
  | _ => false
  end.

(** Acquisitions: the frame buffer, the two files, the codec context. *)
Definition is_allocation (e : event) : bool :=
  match e with
  | EvImgAlloc _ _ _ _ true | EvFopen _ _ true | EvEncInit _ _ _ => true
  | _ => false
  end.

(** The bytes a list of packets contributes to the output: the payload of
    the frame packets, nothing for the other kinds. *)
Definition payload (pkt : aom_codec_cx_pkt_t) : list byte :=
  match pkt with
  | AOM_CODEC_CX_FRAME_PKT buf _ => buf
  | AOM_CODEC_OTHER_PKT _ => []
  end.

Definition payloads (pkts : list aom_codec_cx_pkt_t) : list byte :=
  flat_map payload pkts.

Definition fits (n : nat) (r : option nat) : bool :=
  match r with
  | None => true
  | Some k => Nat.leb n k
  end.

Section Observations.
Context `{AomLib}.

(** What a drain that meets no short write adds to the trace. *)
Definition drain_events (pkts : list aom_codec_cx_pkt_t) : list event :=
  flat_map (fun pkt =>
              EvGetCxData (Some pkt) ::
              match pkt with
              | AOM_CODEC_CX_FRAME_PKT _ flags =>
                  [EvPrintf (if negb (Z.land flags AOM_FRAME_IS_KEY =? 0)
                             then "K" else ".") [];
                   EvFflush]
              | AOM_CODEC_OTHER_PKT _ => []
              end) pkts
  ++ [EvGetCxData None].

Definition room_after (n : nat) (r : option nat) : option nat :=
  match r with
  | None => None
  | Some k => Some (k - n)%nat
  end.

(** The geometry of an image: everything but the contents of its planes. *)
Definition same_geometry (img img' : aom_image_t) : Prop :=
  fmt img' = fmt img /\ d_w img' = d_w img /\ d_h img' = d_h img /\
  x_chroma_shift img' = x_chroma_shift img /\
  y_chroma_shift img' = y_chroma_shift img /\
  stride img' = stride img.

(** The library computes plane sizes from the geometry alone. *)
Definition geometry_stable : Prop :=
  forall img img' p,
    same_geometry img img' ->
    aom_img_plane_width img' p = aom_img_plane_width img p /\
    aom_img_plane_height img' p = aom_img_plane_height img p.

(** Bytes per row ([(size_t)w]) and rows ([h]) of a plane. *)
Definition row_bytes (img : aom_image_t) (plane : nat) : nat :=
  size_t_of_int
    (int_wrap (aom_img_plane_width img (Z.of_nat plane) *
               (if Z.land (fmt img) AOM_IMG_FMT_HIGHBITDEPTH =? 0
                then 1 else 2))).

Definition plane_rows (img : aom_image_t) (plane : nat) : nat :=
  Z.to_nat (aom_img_plane_height img (Z.of_nat plane)).

(** The [fread] calls that fill the planes [plane .. plane+todo-1]: one
    per row, each delivering the whole row. *)
Fixpoint planes_reads (todo plane : nat) (img : aom_image_t)
    : list (nat * nat) :=
  match todo with
  | O => []
  | S todo' =>
      repeat (row_bytes img plane, row_bytes img plane) (plane_rows img plane)
      ++ planes_reads todo' (S plane) img
  end.

Fixpoint planes_bytes (todo plane : nat) (img : aom_image_t) : nat :=
  match todo with
  | O => O
  | S todo' =>
      (plane_rows img plane * row_bytes img plane
       + planes_bytes todo' (S plane) img)%nat
  end.

Definition frame_reads (img : aom_image_t) : list (nat * nat) :=
  planes_reads 3 0 img.

Definition frame_bytes (img : aom_image_t) : nat := planes_bytes 3 0 img.

Definition complete (rd : nat * nat) : Prop := snd rd = fst rd.

(** Row [y] of plane [p], as the encoder will look at it: [row_bytes]
    bytes from offset [y * stride] of the plane's memory. *)
Definition row (img : aom_image_t) (p y : nat) : list byte :=
  firstn (row_bytes img p)
         (skipn (y * Z.to_nat (nth p (stride img) 0)) (nth p (planes img) [])).

(** The layout [aom_img_alloc] has to provide for plane [p]: the rows do
    not overlap and lie within the plane's memory. *)
Definition plane_fits (img : aom_image_t) (p : nat) : Prop :=
  (p < length (planes img))%nat /\
  Z.of_nat (row_bytes img p) <= nth p (stride img) 0 /\
  (plane_rows img p * Z.to_nat (nth p (stride img) 0%Z)
   <= length (nth p (planes img) []))%nat.

(** A session with a bounded lookahead: [held c] bounds the number of
    flush submissions on [c] that can still yield a packet, since every
    flush submission that yields one lowers it. *)
Definition lookahead_bound (held : aom_codec_ctx_t -> nat) : Prop :=
  forall c,
    fst (aom_codec_encode c None (-1) 1 0) = 0 ->
    cx_data (snd (aom_codec_encode c None (-1) 1 0)) <> [] ->
    (held (snd (aom_codec_encode c None (-1) 1 0)) < held c)%nat.

(** The context the flush loop holds after [i] cycles started on [c]: the
    one [i] NULL submissions lead to. *)
Fixpoint flush_ctx (i : nat) (c : aom_codec_ctx_t) : aom_codec_ctx_t :=
  match i with
  | O => c
  | S i' => flush_ctx i' (snd (aom_codec_encode c None (-1) 1 0))
  end.

(** The packets the session hands out in the first [k] flush cycles. *)
Fixpoint flush_pkts (k : nat) (c : aom_codec_ctx_t)
    : list aom_codec_cx_pkt_t :=
  match k with
  | O => []
  | S k' =>
      let c1 := snd (aom_codec_encode c None (-1) 1 0) in
      cx_data c1 ++ flush_pkts k' c1
  end.

(** The events that end a flush: a NULL submission whose drain finds
    nothing. *)
Definition empty_cycle : list event :=
  [EvEncode None (-1) 1 0 0; EvGetCxData None].

(** What [teardown] adds to the trace when the codec is destroyed without
    error. *)
Definition teardown_events (frame_count : Z) : list event :=
  [EvPrintf "\n" []; EvFclose Infile;
   EvPrintf "Processed %d frames.\n" [PInt frame_count];
   EvImgFree; EvDestroy 0; EvFclose Outfile;
   EvPrintf "Process completed" []].

(** The submissions of the frames [0 .. n-1]: index and flags. *)
Definition scheduled_submits (interval : Z) (n : nat) : list (Z * Z) :=
  map (fun k => (int_wrap (Z.of_nat k),
                 keyframe_flags (int_wrap (Z.of_nat k)) interval))
      (seq 0 n).

(** The states in which the condition of the main loop is evaluated:
    [loop_head a s0 w0 s w] when, started in [s0] and [w0], the loop comes
    round to its head in state [s] and world [w]. *)
Inductive loop_head (a : main_args) (s0 : loop_state) (w0 : world)
    : loop_state -> world -> Prop :=
| head_first : loop_head a s0 w0 s0 w0
| head_next s1 w1 s2 w2 :
    loop_head a s0 w0 s1 w1 ->
    encode_iteration a s1 w1 = Ret (true, s2) w2 ->
    loop_head a s0 w0 s2 w2.

(** Configuration errors. *)
Definition unknown_codec (a : main_args) : Prop :=
  get_aom_encoder_by_name (codec_arg a) = None.

Definition invalid_geometry (a : main_args) : Prop :=
  frame_width a <= 0 \/ frame_height a <= 0 \/
  Z.rem (frame_width a) 2 <> 0 \/ Z.rem (frame_height a) 2 <> 0.

Definition invalid_interval (a : main_args) : Prop := keyframe_interval a < 0.

Definition configuration_error (a : main_args) : Prop :=
  unknown_codec a \/ invalid_geometry a \/ invalid_interval a.

(** The last words of [die]: the message, a newline, the usage text. *)
Definition usage_report (a : main_args) (msg : string) (args : list parg)
    : list event :=
  [EvStderr msg args; EvStderr "\n" [];
   EvStderr usage_fmt [PStr (exec_name a)]].

Definition no_allocation (t : list event) : Prop :=
  Forall (fun e => is_allocation e = false) t.

(** A configuration error that is caught before anything is acquired: the run
    exits with a failure status after a usage report, its trace free of
    allocations. *)
Definition caught_before_allocation (fuel : nat) (E : env) (a : main_args)
    : Prop :=
  exists w t msg args,
    main_body fuel E a init_world = Exit EXIT_FAILURE w /\
    trace w = t ++ usage_report a msg args /\
    no_allocation (trace w).

(** What [setup] has done when it calls [aom_codec_enc_init]. *)
Definition setup_prefix (a : main_args) : list event :=
  [EvImgAlloc AOM_IMG_FMT_I420 (frame_width a) (frame_height a) 1 true;
   EvIfaceName;
   EvPrintf "Using %s\n" [PStr (aom_codec_iface_name aom_codec_av1_cx)];
   EvConfigDefault 0 0;
   EvFopen (infile_arg a) "rb" true;
   EvFopen (outfile_arg a) "wb" true].

Definition main_cfg (a : main_args) : aom_codec_enc_cfg_t :=
  mk_cfg 8 (frame_width a) (frame_height a) 1 30 200 (error_resilient a).

(** What [die_codec] adds to the trace. *)
Definition die_codec_events (c : aom_codec_ctx_t) (s : string) : list event :=
  [EvErrorDetail; EvError;
   EvPrintf "%s: %s\n" [PStr s; PStr (aom_codec_error c)]] ++
  match aom_codec_error_detail c with
  | Some d => [EvPrintf "    %s\n" [PStr d]]
  | None => []
  end.

(** A session that reports no error on any submission, and a library
    whose [aom_codec_destroy] succeeds. *)
Definition never_fails : Prop :=
  (forall c img pts duration flags,
     fst (aom_codec_encode c img pts duration flags) = 0) /\
  (forall c, aom_codec_destroy c = 0).

End Observations.

(** The images a trace has submitted to the encoder, in order. *)
Definition submitted_images (t : list event) : list aom_image_t :=
  flat_map (fun e => match e with
                     | EvEncode (Some img) _ _ _ _ => [img]
                     | _ => []
                     end) t.

Section FrameObservations.
Context `{AomLib}.

(** [img] holds frame [k] of [data]: it has the geometry of [raw0], and
    every row of each of its planes holds the bytes that [data] has at
    that row's place in the frame. *)
Definition holds_frame (raw0 : aom_image_t) (data : list byte) (k : nat)
    (img : aom_image_t) : Prop :=
  same_geometry raw0 img /\
  forall q y, (q < 3)%nat -> (y < plane_rows raw0 q)%nat ->
    row img q y =
    firstn (row_bytes raw0 q)
           (skipn (k * frame_bytes raw0 + planes_bytes q 0 raw0
                   + y * row_bytes raw0 q) data).

End FrameObservations.

(** Relations between the world before and the world after a run. *)

(** Whatever way [c] ends, the worlds before and after are related. *)
Definition preserves (P : world -> world -> Prop) {A} (c : M A) : Prop :=
  forall w w', world_of (c w) = Some w' -> P w w'.

(** [adds Q w w']: the trace of [w'] is that of [w] followed by events
    that are all in [Q]. *)
Definition adds (Q : event -> Prop) (w w' : world) : Prop :=
  exists t, trace w' = trace w ++ t /\ Forall Q t.

(** [returns R c]: whenever [c] returns, its result and the world then
    satisfy [R]. *)
Definition returns {A} (R : A -> world -> Prop) (c : M A) : Prop :=
  forall w a w', c w = Ret a w' -> R a w'.

(** An event other than a submission to the encoder. *)
Definition quiet (e : event) : Prop := is_submit e = false.

(** [finishes c]: [c] needs no fuel; it returns or exits. *)
Definition finishes {A} (c : M A) : Prop := forall w, c w <> OutOfFuel.


(** ** The life cycle of the session and of the resources

    A checker for the order in which a trace acquires, uses and releases
    the frame buffer, the two files and the codec session. *)

Inductive session_state :=
| NoSession                      (* [aom_codec_enc_init] not called yet *)
| Ready                          (* initialised, nothing to drain *)
| DrainingFrame                  (* a frame was submitted, packets pending *)
| DrainingFlush (got : bool)     (* NULL was submitted; [got]: a packet came *)
| Flushing                       (* a flush cycle yielded packets *)
| Flushed                        (* a flush cycle yielded none *)
| Destroyed                      (* [aom_codec_destroy] has succeeded *)
| Aborting.                      (* a call has failed: diagnostics only *)

Record life := mk_life {
  img_held : bool;
  in_open : bool;
  out_open : bool;
  session : session_state
}.

Definition with_session (q : life) (s : session_state) : life :=
  mk_life (img_held q) (in_open q) (out_open q) s.

(** [die_codec] may ask for the error strings once a call has failed, or
    during the drain of a submission with the output open (when a write
    came short). *)
Definition may_report (q : life) : bool :=
  match session q with
  | Aborting => true
  | DrainingFrame | DrainingFlush true => out_open q
  | _ => false
  end.

Definition life_step (q : life) (e : event) : option life :=
  match e with
  | EvPrintf _ _ | EvStderr _ _ | EvFflush | EvIfaceName => Some q
  | EvErrorDetail =>
      if may_report q then Some (with_session q Aborting) else None
  | EvError =>
      match session q with Aborting => Some q | _ => None end
  | EvImgAlloc _ _ _ _ ok =>
      match session q, img_held q with
      | NoSession, false =>
          Some (mk_life ok (in_open q) (out_open q)
                        (if ok then NoSession else Aborting))
      | _, _ => None
      end
  | EvImgFree =>
      match img_held q, session q with
      | true, Flushed => Some (mk_life false (in_open q) (out_open q) Flushed)
      | _, _ => None
      end
  | EvFopen _ mode ok =>
      match session q with
      | NoSession =>
          let s' := if ok then NoSession else Aborting in
          if String.eqb mode "rb" then
            if in_open q then None
            else Some (mk_life (img_held q) ok (out_open q) s')
          else if String.eqb mode "wb" then
            if out_open q then None
            else Some (mk_life (img_held q) (in_open q) ok s')
          else None
      | _ => None
      end
  | EvFclose Infile =>
      match in_open q, session q with
      | true, Flushed => Some (mk_life (img_held q) false (out_open q) Flushed)
      | _, _ => None
      end
  | EvFclose Outfile =>
      match out_open q, session q with
      | true, Destroyed =>
          Some (mk_life (img_held q) (in_open q) false Destroyed)
      | _, _ => None
      end
  | EvConfigDefault _ res =>
      match session q with
      | NoSession => Some (if res =? 0 then q else with_session q Aborting)
      | _ => None
      end
  | EvEncInit _ _ res =>
      match session q, img_held q && in_open q && out_open q with
      | NoSession, true =>
          Some (with_session q (if res =? 0 then Ready else Aborting))
      | _, _ => None
      end
  | EvControl _ _ =>
      match session q with Ready => Some q | _ => None end
  | EvEncode (Some _) _ _ _ res =>
      match session q, img_held q && in_open q with
      | Ready, true =>
          Some (with_session q (if res =? 0 then DrainingFrame
                                else Aborting))
      | _, _ => None
      end
  | EvEncode None _ _ _ res =>
      match session q with
      | Ready | Flushing =>
          Some (with_session q (if res =? 0 then DrainingFlush false
                                else Aborting))
      | _ => None
      end
  | EvGetCxData (Some _) =>
      if out_open q then
        match session q with
        | DrainingFrame => Some q
        | DrainingFlush _ => Some (with_session q (DrainingFlush true))
        | _ => None
        end
      else None
  | EvGetCxData None =>
      match session q with
      | DrainingFrame => Some (with_session q Ready)
      | DrainingFlush true => Some (with_session q Flushing)
      | DrainingFlush false => Some (with_session q Flushed)
      | _ => None
      end
  | EvDestroy res =>
      match session q, img_held q with
      | Flushed, false =>
          Some (with_session q (if res =? 0 then Destroyed else Aborting))
      | _, _ => None
      end
  end.

Fixpoint life_run (q : life) (t : list event) : option life :=
  match t with
  | [] => Some q
  | e :: t' =>
      match life_step q e with
      | Some q' => life_run q' t'
      | None => None
      end
  end.

Definition life_start : life := mk_life false false false NoSession.
(** Everything acquired, the session initialised and idle. *)
Definition encoding : life := mk_life true true true Ready.
Definition life_end : life := mk_life false false false Destroyed.

(** The packets the session has handed out: those of the
    [aom_codec_get_cx_data] calls that returned one, in order. *)
Definition drained (t : list event) : list aom_codec_cx_pkt_t :=
  flat_map (fun e => match e with
                     | EvGetCxData (Some pkt) => [pkt]
                     | _ => []
                     end) t.

(** The state of the session once a drain that started in state [s] has
    gone through [pkts] and met NULL. *)
Definition drain_after (s : session_state) (pkts : list aom_codec_cx_pkt_t)
    : session_state :=
  match s with
  | DrainingFrame => Ready
  | DrainingFlush got =>
      if got || match pkts with [] => false | _ => true end
      then Flushing else Flushed
  | _ => s
  end.

(** Calls that report a failure: an acquisition that yields nothing, a
    session operation that returns an error code. *)
Definition failure (e : event) : bool :=
  match e with
  | EvImgAlloc _ _ _ _ ok | EvFopen _ _ ok => negb ok
  | EvConfigDefault _ res | EvEncInit _ _ res | EvEncode _ _ _ _ res
  | EvDestroy res => negb (res =? 0)
  | _ => false
  end.

(** The states in which no further frame can be submitted: a flush has
    begun, or the session has ended one way or the other. *)
Definition past_frames (s : session_state) : bool :=
  match s with
  | NoSession | Ready | DrainingFrame => false
  | _ => true
  end.

(** Opening the output file; creating or using the encoder session. *)
Definition opens_output (e : event) : bool :=
  match e with
  | EvFopen _ mode _ => String.eqb mode "wb"
  | _ => false
  end.

Definition uses_session (e : event) : bool :=
  match e with
  | EvEncInit _ _ _ | EvControl _ _ | EvEncode _ _ _ _ _ | EvGetCxData _
  | EvDestroy _ => true
  | _ => false
  end.

(** Events that the life cycle does not order: prints, and the name of
    the interface. *)
Definition passive (e : event) : bool :=
  match e with
  | EvPrintf _ _ | EvStderr _ _ | EvFflush | EvIfaceName => true
  | _ => false
  end.

(** Events that neither touch a resource nor the session. *)
Definition silent (e : event) : bool :=
  match e with
  | EvPrintf _ _ | EvStderr _ _ | EvFflush | EvIfaceName
  | EvErrorDetail | EvError => true
  | _ => false
  end.

(** [hoare P c Q X]: from a world in [P], [c] returns in [Q] or exits in
    [X]. *)
Definition hoare {A} (P : world -> Prop) (c : M A)
    (Q : A -> world -> Prop) (X : Z -> world -> Prop) : Prop :=
  forall w, P w ->
    match c w with
    | Ret a w' => Q a w'
    | Exit st w' => X st w'
    | OutOfFuel => True
    end.

(** The world between two steps of a run: its trace is in order and has
    led to [q], and the output holds the payloads of the packets drained,
    nothing else. *)
Definition steady (q : life) (w : world) : Prop :=
  life_run life_start (trace w) = Some q /\
  written (outfile w) = payloads (drained (trace w)) /\
  (session q = NoSession -> out_open q = false -> written (outfile w) = []).

(** The trace is in order as far as it goes. *)
Definition alive (w : world) : Prop :=
  exists q, life_run life_start (trace w) = Some q.

(** The output holds a prefix of the payloads of the packets drained. *)
Definition held_back (w : world) : Prop :=
  exists rest, payloads (drained (trace w)) = written (outfile w) ++ rest.

Section Diagnostics.
Context `{AomLib}.

(** The trace ends in a diagnostic: the usage report of [die] or the
    error strings of [die_codec]. *)
Definition reported (exec : string) (t : list event) : Prop :=
  (exists t0 msg args,
     t = t0 ++ [EvStderr msg args; EvStderr "\n" [];
                EvStderr usage_fmt [PStr exec]]) \/
  (exists t0 c s, t = t0 ++ die_codec_events c s).

(** The world a run leaves through [exit]. *)
Definition stopped (exec : string) (st : Z) (w : world) : Prop :=
  st = EXIT_FAILURE /\ alive w /\ held_back w /\ reported exec (trace w).

End Diagnostics.

(** * Properties *)

(** ** Arithmetic of [int] *)

Lemma int_wrap_small z : - 2147483648 <= z <= INT_MAX -> int_wrap z = z.
Proof.
  unfold int_wrap, INT_MAX. intros Hz.
  rewrite Z.mod_small by lia. lia.
Qed.

Lemma int_wrap_add_l a b : int_wrap (int_wrap a + b) = int_wrap (a + b).
Proof.
  unfold int_wrap.
  replace ((a + 2147483648) mod 4294967296 - 2147483648 + b + 2147483648)
    with ((a + 2147483648) mod 4294967296 + b) by lia.
  rewrite Zplus_mod_idemp_l. f_equal. f_equal. lia.
Qed.

Lemma rem_zero_iff_mod_zero n i : 0 < i -> (Z.rem n i = 0 <-> n mod i = 0).
Proof.
  intros Hi. rewrite Z.rem_divide by lia. rewrite Z.mod_divide by lia.
  reflexivity.
Qed.

(** ** Runs and what they leave behind *)

Lemma world_of_bind {A B} (c : M A) (k : A -> M B) w w' :
  world_of (bind c k w) = Some w' ->
  (exists a w1, c w = Ret a w1 /\ world_of (k a w1) = Some w') \/
  (exists st, c w = Exit st w').
Proof.
  unfold bind. destruct (c w) as [a w1|st w1|] eqn:E; simpl; intros Hw.
  - left. eauto.
  - right. inversion Hw; subst. eauto.
  - discriminate.
Qed.

Section Preserved.
Variable P : world -> world -> Prop.
Hypothesis P_refl : forall w, P w w.
Hypothesis P_trans : forall w1 w2 w3, P w1 w2 -> P w2 w3 -> P w1 w3.

Lemma preserves_ret {A} (a : A) : preserves P (ret a).
Proof. intros w w' Hw. inversion Hw; subst. apply P_refl. Qed.

Lemma preserves_exit {A} st : preserves P (@exit_ A st).
Proof. intros w w' Hw. inversion Hw; subst. apply P_refl. Qed.

Lemma preserves_bind {A B} (c : M A) (k : A -> M B) :
  preserves P c -> (forall a, preserves P (k a)) -> preserves P (bind c k).
Proof.
  intros Hc Hk w w' Hw.
  destruct (world_of_bind _ _ _ _ Hw) as [(a & w1 & E & Hw1)|(st & E)].
  - apply P_trans with w1.
    + apply Hc. rewrite E. reflexivity.
    + apply (Hk a). exact Hw1.
  - apply Hc. rewrite E. reflexivity.
Qed.

End Preserved.

Lemma adds_refl Q w : adds Q w w.
Proof. exists []. rewrite app_nil_r. auto. Qed.

Lemma adds_trans Q w1 w2 w3 : adds Q w1 w2 -> adds Q w2 w3 -> adds Q w1 w3.
Proof.
  intros (t1 & E1 & F1) (t2 & E2 & F2). exists (t1 ++ t2). split.
  - rewrite E2, E1, app_assoc. reflexivity.
  - apply Forall_app. auto.
Qed.

Lemma emit_adds (Q : event -> Prop) e : Q e -> preserves (adds Q) (emit e).
Proof.
  intros He w w' Hw. inversion Hw; subst. exists [e]. simpl. auto.
Qed.

Lemma real_submits_app t1 t2 :
  real_submits (t1 ++ t2) = real_submits t1 ++ real_submits t2.
Proof. apply flat_map_app. Qed.

Lemma flush_submits_app t1 t2 :
  flush_submits (t1 ++ t2) = flush_submits t1 ++ flush_submits t2.
Proof. apply flat_map_app. Qed.

Lemma drained_app t1 t2 : drained (t1 ++ t2) = drained t1 ++ drained t2.
Proof. apply flat_map_app. Qed.

Lemma payloads_app p1 p2 : payloads (p1 ++ p2) = payloads p1 ++ payloads p2.
Proof. apply flat_map_app. Qed.

Lemma no_submit_real t :
  Forall (fun e => is_submit e = false) t -> real_submits t = [].
Proof.
  induction 1 as [|e t He _ IH]; simpl; auto.
  rewrite IH. destruct e; simpl in *; try reflexivity; discriminate.
Qed.

Lemma no_submit_flush t :
  Forall (fun e => is_submit e = false) t -> flush_submits t = [].
Proof.
  induction 1 as [|e t He _ IH]; simpl; auto.
  rewrite IH. destruct e; simpl in *; try reflexivity; discriminate.
Qed.

(** ** Plane memory *)

Lemma store_in_range off data mem :
  0 <= off ->
  (Z.to_nat off + length data <= length mem)%nat ->
  store off data mem =
  firstn (Z.to_nat off) mem ++ data
    ++ skipn (Z.to_nat off + length data) mem.
Proof.
  intros Ho Hl. unfold store.
  destruct (off <? 0) eqn:E; [apply Z.ltb_lt in E; lia|].
  apply firstn_all2.
  rewrite !length_app, length_firstn, length_skipn. lia.
Qed.

Lemma store_length off data mem :
  0 <= off ->
  (Z.to_nat off + length data <= length mem)%nat ->
  length (store off data mem) = length mem.
Proof.
  intros Ho Hl. rewrite store_in_range by assumption.
  rewrite !length_app, length_firstn, length_skipn. lia.
Qed.

Lemma store_prefix off data mem :
  0 <= off ->
  (Z.to_nat off + length data <= length mem)%nat ->
  firstn (Z.to_nat off) (store off data mem) = firstn (Z.to_nat off) mem.
Proof.
  intros Ho Hl. rewrite store_in_range by assumption.
  rewrite firstn_app, length_firstn, firstn_firstn.
  replace (Z.to_nat off - Nat.min (Z.to_nat off) (length mem))%nat
    with 0%nat by lia.
  rewrite Nat.min_id, firstn_O, app_nil_r. reflexivity.
Qed.

Lemma store_row off data mem :
  0 <= off ->
  (Z.to_nat off + length data <= length mem)%nat ->
  firstn (length data) (skipn (Z.to_nat off) (store off data mem)) = data.
Proof.
  intros Ho Hl. rewrite store_in_range by assumption.
  rewrite skipn_app, length_firstn.
  rewrite skipn_all2 by (rewrite length_firstn; lia).
  replace (Z.to_nat off - Nat.min (Z.to_nat off) (length mem))%nat
    with 0%nat by lia.
  cbn [skipn app]. rewrite firstn_app, Nat.sub_diag, firstn_O, app_nil_r.
  apply firstn_all.
Qed.

Lemma firstn_within {A} n o k (l : list A) :
  (n <= k)%nat ->
  firstn n (skipn o (firstn (o + k) l)) = firstn n (skipn o l).
Proof.
  intros Hn. rewrite skipn_firstn_comm, firstn_firstn.
  replace (Nat.min n (o + k - o)) with n by lia. reflexivity.
Qed.

Lemma firstn_shorter {A} a b (l l' : list A) :
  (a <= b)%nat -> firstn b l = firstn b l' -> firstn a l = firstn a l'.
Proof.
  intros Hab E.
  replace a with (Nat.min a b) by lia.
  rewrite <- !firstn_firstn, E. reflexivity.
Qed.

Lemma nth_set_nth_same {A} n (x d : A) l :
  (n < length l)%nat -> nth n (set_nth n x l) d = x.
Proof.
  revert l. induction n as [|n IH]; intros [|h t] Hl; cbn in *; try lia; auto.
  apply IH. lia.
Qed.

Lemma nth_set_nth_other {A} n m (x d : A) l :
  n <> m -> nth m (set_nth n x l) d = nth m l d.
Proof.
  revert m l. induction n as [|n IH]; intros [|m] [|h t] Hne; cbn; auto;
    try congruence.
Qed.

Lemma length_set_nth {A} n (x : A) l : length (set_nth n x l) = length l.
Proof.
  revert l. induction n as [|n IH]; intros [|h t]; cbn; auto.
Qed.

(** ** The packet sink *)

Section Sink.
Context `{AomLib}.

Lemma die_codec_eq {A} (c : aom_codec_ctx_t) s w :
  @die_codec _ A c s w =
  Exit EXIT_FAILURE
       (mk_world (trace w ++ die_codec_events c s) (infile w) (outfile w)).
Proof.
  unfold die_codec, die_codec_events, bind, emit, exit_, ret.
  destruct (aom_codec_error_detail c); cbn [trace infile outfile];
    rewrite <- !app_assoc; reflexivity.
Qed.

Lemma die_codec_run {A} (c : aom_codec_ctx_t) s w :
  exists w', @die_codec _ A c s w = Exit EXIT_FAILURE w' /\
             infile w' = infile w /\ outfile w' = outfile w /\
             trace w' = trace w ++ die_codec_events c s.
Proof. rewrite die_codec_eq. eexists. repeat split. Qed.

Ltac run_step :=
  unfold bind, emit, ret, exit_, do_fwrite, fwrite;
  cbn [trace infile outfile written room fst snd].

Lemma drain_packets_fits codec pkts : forall g w,
  fits (length (payloads pkts)) (room (outfile w)) = true ->
  exists w',
    drain_packets codec pkts g w =
      Ret (match pkts with [] => g | _ => 1 end) w' /\
    written (outfile w') = written (outfile w) ++ payloads pkts /\
    room (outfile w') = room_after (length (payloads pkts)) (room (outfile w)) /\
    infile w' = infile w /\
    trace w' = trace w ++ drain_events pkts.
Proof.
  induction pkts as [|pkt rest IH]; intros g w Hfit.
  - cbn [drain_packets]. run_step. eexists. split; [reflexivity|].
    cbn [trace infile outfile written room payloads flat_map length].
    rewrite app_nil_r. repeat split; auto.
    destruct (room (outfile w)); simpl; auto. f_equal. lia.
  - assert (Hone : forall w1 (extra : list event) (pl : list byte),
              fits (length (payloads rest)) (room (outfile w1)) = true ->
              written (outfile w1) = written (outfile w) ++ pl ->
              room (outfile w1) = room_after (length pl) (room (outfile w)) ->
              infile w1 = infile w ->
              trace w1 = trace w ++ extra ->
              exists w',
                drain_packets codec rest 1 w1 = Ret 1 w' /\
                written (outfile w') =
                  written (outfile w) ++ pl ++ payloads rest /\
                room (outfile w') =
                  room_after (length (pl ++ payloads rest)) (room (outfile w)) /\
                infile w' = infile w /\
                trace w' = trace w ++ extra ++ drain_events rest).
    { intros w1 extra pl Hf Hw Hr Hi Ht.
      destruct (IH 1 w1 Hf) as (w' & E & Hw' & Hr' & Hi' & Ht').
      exists w'. rewrite E, Hw', Hr', Hi', Ht', Hw, Hr, Hi, Ht.
      rewrite <- !app_assoc, length_app.
      split; [destruct rest; reflexivity|]. repeat split; auto.
      destruct (room (outfile w)); simpl; auto. f_equal. lia. }
    unfold payloads in Hfit. cbn [flat_map] in Hfit.
    fold (payloads rest) in Hfit. rewrite length_app in Hfit.
    destruct pkt as [buf flags|kind].
    + cbn [drain_packets]. run_step. cbn [payload] in Hfit.
      destruct (room (outfile w)) as [r|] eqn:Er; cbn [fits] in Hfit;
        cbn [trace infile outfile written room fst snd].
      * apply Nat.leb_le in Hfit.
        rewrite Nat.min_r by lia. rewrite Nat.eqb_refl, firstn_all.
        cbn [trace infile outfile written room fst snd].
        match goal with |- context [drain_packets codec rest 1 ?w1] =>
          destruct (Hone w1
            [EvGetCxData (Some (AOM_CODEC_CX_FRAME_PKT buf flags));
             EvPrintf (if negb (Z.land flags AOM_FRAME_IS_KEY =? 0)
                       then "K" else ".") [];
             EvFflush] buf) as (w' & E & R)
        end; cbn [trace infile outfile written room]; auto.
        { apply Nat.leb_le. lia. }
        { rewrite <- !app_assoc. reflexivity. }
        exists w'. split; [exact E|]. exact R.
      * rewrite Nat.eqb_refl.
        cbn [trace infile outfile written room fst snd].
        match goal with |- context [drain_packets codec rest 1 ?w1] =>
          destruct (Hone w1
            [EvGetCxData (Some (AOM_CODEC_CX_FRAME_PKT buf flags));
             EvPrintf (if negb (Z.land flags AOM_FRAME_IS_KEY =? 0)
                       then "K" else ".") [];
             EvFflush] buf) as (w' & E & R)
        end; cbn [trace infile outfile written room]; auto.
        { rewrite <- !app_assoc. reflexivity. }
        exists w'. split; [exact E|]. exact R.
    + cbn [drain_packets]. run_step. cbn [payload] in Hfit.
      match goal with |- context [drain_packets codec rest 1 ?w1] =>
        destruct (Hone w1 [EvGetCxData (Some (AOM_CODEC_OTHER_PKT kind))]
                       (@nil byte)) as (w' & E & R)
      end; cbn [trace infile outfile written room]; auto.
      { rewrite app_nil_r. reflexivity. }
      { destruct (room (outfile w)); simpl; auto. f_equal. lia. }
      exists w'. split; [exact E|]. exact R.
Qed.

Lemma drain_packets_short codec pkts : forall g w r,
  room (outfile w) = Some r ->
  (r < length (payloads pkts))%nat ->
  exists w',
    drain_packets codec pkts g w = Exit EXIT_FAILURE w' /\
    written (outfile w') = written (outfile w) ++ firstn r (payloads pkts) /\
    infile w' = infile w.
Proof.
  induction pkts as [|pkt rest IH]; intros g w r Er Hlt.
  - simpl in Hlt. lia.
  - unfold payloads in Hlt. cbn [flat_map] in Hlt.
    fold (payloads rest) in Hlt. rewrite length_app in Hlt.
    unfold payloads. cbn [flat_map]. fold (payloads rest).
    destruct pkt as [buf flags|kind]; cbn [payload] in *.
    + cbn [drain_packets]. run_step. rewrite Er.
      cbn [trace infile outfile written room fst snd].
      destruct (Nat.eqb (Nat.min r (length buf)) (length buf)) eqn:E.
      * apply Nat.eqb_eq in E.
        assert (Hle : (length buf <= r)%nat) by lia.
        rewrite Nat.min_r by lia. rewrite firstn_all.
        cbn [trace infile outfile written room fst snd].
        match goal with |- context [drain_packets codec rest 1 ?w1] =>
          destruct (IH 1 w1 (r - length buf)%nat) as (w' & Ex & Hw & Hi)
        end; cbn [trace infile outfile written room]; auto; [lia|].
        cbn [trace infile outfile written room] in Hw, Hi.
        exists w'. split; [exact Ex|]. rewrite Hw, Hi. split; auto.
        rewrite firstn_app, (firstn_all2 (n:=r) buf) by lia.
        rewrite <- app_assoc. reflexivity.
      * apply Nat.eqb_neq in E.
        assert (Hlt' : (r < length buf)%nat) by lia.
        rewrite Nat.min_l by lia.
        match goal with |- context [die_codec codec ?s ?w1] =>
          destruct (@die_codec_run unit codec s w1) as (w' & Ex & Hi & Ho & Ht)
        end.
        rewrite Ex. exists w'. split; [reflexivity|].
        rewrite Ho, Hi. cbn [trace infile outfile written room]. split; auto.
        rewrite firstn_app. replace (r - length buf)%nat with 0%nat by lia.
        rewrite firstn_O, app_nil_r. reflexivity.
    + cbn [drain_packets]. run_step.
      match goal with |- context [drain_packets codec rest 1 ?w1] =>
        destruct (IH 1 w1 r) as (w' & Ex & Hw & Hi)
      end; cbn [trace infile outfile written room]; auto.
      cbn [trace infile outfile written room] in Hw, Hi.
        exists w'. split; [exact Ex|]. rewrite Hw, Hi. auto.
Qed.

Lemma fits_false n r0 :
  fits n r0 = false -> exists r, r0 = Some r /\ (r < n)%nat.
Proof.
  destruct r0 as [r|]; simpl; intros Hf; [|discriminate].
  apply Nat.leb_gt in Hf. eauto.
Qed.

(** C4 (packet sink). Draining a list of packets appends to the output
    exactly the payloads of its frame packets, byte for byte and in the
    order the packets are drained; packets of the other kinds add nothing.
    When the device takes all of it the drain returns; when a frame packet
    cannot be written in full the program exits with a failure status,
    the output holding what the device took. *)
Theorem packet_sink_writes_frame_payloads codec pkts g w :
  payloads pkts = flat_map payload pkts /\
  (forall kind, payload (AOM_CODEC_OTHER_PKT kind) = []) /\
  (forall buf flags, payload (AOM_CODEC_CX_FRAME_PKT buf flags) = buf) /\
  match room (outfile w) with
  | None =>
      exists g' w', drain_packets codec pkts g w = Ret g' w' /\
        written (outfile w') = written (outfile w) ++ payloads pkts
  | Some r =>
      if Nat.leb (length (payloads pkts)) r
      then exists g' w', drain_packets codec pkts g w = Ret g' w' /\
             written (outfile w') = written (outfile w) ++ payloads pkts
      else exists w', drain_packets codec pkts g w = Exit EXIT_FAILURE w' /\
             EXIT_FAILURE <> 0 /\
             written (outfile w') =
               written (outfile w) ++ firstn r (payloads pkts)
  end.
Proof.
  split; [reflexivity|]. split; [reflexivity|]. split; [reflexivity|].
  destruct (room (outfile w)) as [r|] eqn:Er.
  - destruct (Nat.leb (length (payloads pkts)) r) eqn:E.
    + destruct (drain_packets_fits codec pkts g w) as (w' & Ex & Hw & _).
      { rewrite Er. exact E. }
      eauto.
    + apply Nat.leb_gt in E.
      destruct (drain_packets_short codec pkts g w r Er E) as (w' & Ex & Hw & _).
      exists w'. repeat split; auto. discriminate.
  - destruct (drain_packets_fits codec pkts g w) as (w' & Ex & Hw & _).
    { rewrite Er. reflexivity. }
    eauto.
Qed.

End Sink.

(** ** The frame source *)

Section FrameSourceFacts.
Context `{AomLib}.

Lemma same_geometry_refl img : same_geometry img img.
Proof. unfold same_geometry. tauto. Qed.

Lemma same_geometry_trans a b c :
  same_geometry a b -> same_geometry b c -> same_geometry a c.
Proof. unfold same_geometry. intuition congruence. Qed.

Lemma row_bytes_stable img img' p :
  geometry_stable -> same_geometry img img' ->
  row_bytes img' p = row_bytes img p.
Proof.
  intros G S. unfold row_bytes.
  destruct (G img img' (Z.of_nat p) S) as [-> _].
  destruct S as (-> & _). reflexivity.
Qed.

Lemma plane_rows_stable img img' p :
  geometry_stable -> same_geometry img img' ->
  plane_rows img' p = plane_rows img p.
Proof.
  intros G S. unfold plane_rows.
  destruct (G img img' (Z.of_nat p) S) as [_ ->]. reflexivity.
Qed.

Lemma planes_reads_stable img img' todo : forall p,
  geometry_stable -> same_geometry img img' ->
  planes_reads todo p img' = planes_reads todo p img.
Proof.
  induction todo as [|todo IH]; intros p G S; simpl; auto.
  rewrite (row_bytes_stable _ _ _ G S), (plane_rows_stable _ _ _ G S), IH;
    auto.
Qed.

Lemma planes_bytes_stable img img' todo : forall p,
  geometry_stable -> same_geometry img img' ->
  planes_bytes todo p img' = planes_bytes todo p img.
Proof.
  induction todo as [|todo IH]; intros p G S; simpl; auto.
  rewrite (row_bytes_stable _ _ _ G S), (plane_rows_stable _ _ _ G S), IH;
    auto.
Qed.

Lemma Forall_complete_repeat n k : Forall complete (repeat (n, n) k).
Proof. apply Forall_forall. intros x Hx. apply repeat_spec in Hx. subst. reflexivity. Qed.

(** The rows of one plane. *)
Lemma read_rows_spec rows w st : forall off mem file,
  let n := size_t_of_int w in
  match read_rows rows w st off mem file with
  | (true, _, file') =>
      (rows * n <= length (unread file))%nat /\
      unread file' = skipn (rows * n) (unread file) /\
      freads file' = freads file ++ repeat (n, n) rows
  | (false, _, file') =>
      (length (unread file) < rows * n)%nat /\
      exists j got, (j < rows)%nat /\ (got < n)%nat /\
        freads file' = freads file ++ repeat (n, n) j ++ [(n, got)]
  end.
Proof.
  induction rows as [|rows IH]; intros off mem file n.
  - simpl. rewrite app_nil_r. repeat split; auto. lia.
  - cbn [read_rows]. unfold fread. fold n.
    destruct (Nat.eqb (length (firstn n (unread file))) n) eqn:E.
    + apply Nat.eqb_eq in E.
      set (f1 := mk_FILE (skipn n (unread file))
                   (freads file ++ [(n, length (firstn n (unread file)))])).
      set (m1 := store off (firstn n (unread file)) mem).
      specialize (IH (off + st) m1 f1). fold n in IH.
      destruct (read_rows rows w st (off + st) m1 f1) as [[[|] mem'] file'];
        subst f1; cbn [unread freads] in IH;
        rewrite length_skipn in IH; rewrite E in IH;
        rewrite length_firstn in E.
      * destruct IH as (Hl & Hu & Hf). split; [lia|]. split.
        { rewrite Hu, skipn_skipn. f_equal. lia. }
        { rewrite Hf, <- app_assoc. reflexivity. }
      * destruct IH as (Hl & j & got & Hj & Hg & Hf). split; [lia|].
        exists (S j), got. split; [lia|]. split; [exact Hg|].
        rewrite Hf, <- app_assoc. reflexivity.
    + apply Nat.eqb_neq in E. rewrite length_firstn in E.
      split; [lia|]. exists 0%nat, (length (firstn n (unread file))).
      rewrite length_firstn. split; [lia|]. split; [lia|]. reflexivity.
Qed.

(** The memory of a plane after its rows have been read. *)
Lemma read_rows_mem rows w st : forall off mem file mem' file',
  0 <= off ->
  Z.of_nat (size_t_of_int w) <= st ->
  (Z.to_nat off + rows * Z.to_nat st <= length mem)%nat ->
  read_rows rows w st off mem file = (true, mem', file') ->
  length mem' = length mem /\
  firstn (Z.to_nat off) mem' = firstn (Z.to_nat off) mem /\
  forall y, (y < rows)%nat ->
    firstn (size_t_of_int w) (skipn (Z.to_nat off + y * Z.to_nat st) mem') =
    firstn (size_t_of_int w) (skipn (y * size_t_of_int w) (unread file)).
Proof.
  set (n := size_t_of_int w).
  induction rows as [|rows IH]; intros off mem file mem' file' Ho Hst Hl Ex.
  - cbn in Ex. inversion Ex; subst. repeat split; auto. intros y Hy. lia.
  - cbn [read_rows] in Ex. unfold fread in Ex. fold n in Ex.
    destruct (Nat.eqb (length (firstn n (unread file))) n) eqn:E;
      [|discriminate].
    apply Nat.eqb_eq in E.
    set (got := firstn n (unread file)) in *.
    assert (Hin : (Z.to_nat off + length got <= length mem)%nat) by lia.
    assert (Ho' : Z.to_nat (off + st) = (Z.to_nat off + Z.to_nat st)%nat)
      by lia.
    assert (Ho2 : 0 <= off + st) by lia.
    assert (Hl2 : (Z.to_nat (off + st) + rows * Z.to_nat st
                   <= length (store off got mem))%nat).
    { rewrite store_length by assumption. lia. }
    destruct (IH _ _ _ _ _ Ho2 Hst Hl2 Ex) as (Hlen & Hpre & Hrows).
    rewrite store_length in Hlen by assumption.
    split; [exact Hlen|].
    assert (Hpre0 : firstn (Z.to_nat off) mem'
                    = firstn (Z.to_nat off) (store off got mem)).
    { apply (firstn_shorter _ (Z.to_nat (off + st))); [lia|exact Hpre]. }
    split; [rewrite Hpre0; apply store_prefix; assumption|].
    intros [|y] Hy.
    + rewrite Nat.mul_0_l, Nat.add_0_r. cbn [skipn].
      rewrite <- (firstn_within n (Z.to_nat off) (Z.to_nat st) mem') by lia.
      rewrite <- Ho', Hpre, Ho'.
      rewrite (firstn_within n (Z.to_nat off) (Z.to_nat st)) by lia.
      rewrite <- E at 1. rewrite store_row by assumption. reflexivity.
    + specialize (Hrows y (ltac:(lia))). cbn [unread] in Hrows.
      rewrite Ho' in Hrows.
      replace (Z.to_nat off + S y * Z.to_nat st)%nat
        with (Z.to_nat off + Z.to_nat st + y * Z.to_nat st)%nat by lia.
      rewrite Hrows, skipn_skipn. f_equal. f_equal. lia.
Qed.

Lemma read_plane_spec img p file :
  let n := row_bytes img p in
  let rows := plane_rows img p in
  match read_plane img p file with
  | (true, img', file') =>
      same_geometry img img' /\
      (rows * n <= length (unread file))%nat /\
      unread file' = skipn (rows * n) (unread file) /\
      freads file' = freads file ++ repeat (n, n) rows
  | (false, img', file') =>
      same_geometry img img' /\
      (length (unread file) < rows * n)%nat /\
      exists j got, (j < rows)%nat /\ (got < n)%nat /\
        freads file' = freads file ++ repeat (n, n) j ++ [(n, got)]
  end.
Proof.
  intros n rows. unfold read_plane.
  pose proof (read_rows_spec (Z.to_nat (aom_img_plane_height img (Z.of_nat p)))
    (int_wrap (aom_img_plane_width img (Z.of_nat p) *
               (if Z.land (fmt img) AOM_IMG_FMT_HIGHBITDEPTH =? 0
                then 1 else 2)))
    (nth p (stride img) 0) 0 (nth p (planes img) []) file) as R.
  cbv zeta in R. fold (row_bytes img p) in R. fold (plane_rows img p) in R.
  fold n in R. fold rows in R.
  destruct (read_rows _ _ _ _ _ _) as [[[|] mem'] file'].
  - split; [|exact R]. unfold same_geometry. simpl. tauto.
  - split; [|exact R]. unfold same_geometry. simpl. tauto.
Qed.

Lemma repeat_split {A} (x : A) j k :
  (j < k)%nat -> repeat x k = repeat x j ++ x :: repeat x (k - j - 1).
Proof.
  intros Hj. replace k with (j + S (k - j - 1))%nat at 1 by lia.
  rewrite repeat_app. reflexivity.
Qed.

Lemma read_planes_spec todo : forall plane img file,
  geometry_stable ->
  match read_planes todo plane img file with
  | (r, img', file') =>
      same_geometry img img' /\
      ((r = 1 /\
        (planes_bytes todo plane img <= length (unread file))%nat /\
        unread file' = skipn (planes_bytes todo plane img) (unread file) /\
        freads file' = freads file ++ planes_reads todo plane img) \/
       (r = 0 /\
        (length (unread file) < planes_bytes todo plane img)%nat /\
        exists done n got rest,
          freads file' = freads file ++ done ++ [(n, got)] /\
          (got < n)%nat /\ Forall complete done /\
          planes_reads todo plane img = done ++ (n, n) :: rest))
  end.
Proof.
  induction todo as [|todo IH]; intros plane img file G.
  - simpl. split; [apply same_geometry_refl|]. left.
    rewrite app_nil_r. repeat split; auto. lia.
  - cbn [read_planes planes_bytes planes_reads].
    pose proof (read_plane_spec img plane file) as R. cbv zeta in R.
    destruct (read_plane img plane file) as [[[|] img1] file1].
    + destruct R as (S1 & Hl & Hu & Hf).
      specialize (IH (S plane) img1 file1 G).
      destruct (read_planes todo (S plane) img1 file1) as [[r img'] file'].
      destruct IH as (S2 & IH).
      rewrite (planes_bytes_stable _ _ _ _ G S1) in IH.
      rewrite (planes_reads_stable _ _ _ _ G S1) in IH.
      rewrite Hu, Hf, length_skipn in IH.
      split; [eapply same_geometry_trans; eauto|].
      destruct IH as [(Hr & Hl' & Hu' & Hf')|
                      (Hr & Hl' & done & n & got & rest & Hf' & Hg & Hd & Hp)].
      * left. split; [exact Hr|]. split; [lia|]. split.
        { rewrite Hu', skipn_skipn. f_equal. lia. }
        { rewrite Hf', app_assoc. reflexivity. }
      * right. split; [exact Hr|]. split; [lia|].
        exists (repeat (row_bytes img plane, row_bytes img plane)
                       (plane_rows img plane) ++ done), n, got, rest.
        split; [rewrite Hf', <- !app_assoc; reflexivity|].
        split; [exact Hg|]. split.
        { apply Forall_app. split; [apply Forall_complete_repeat|exact Hd]. }
        { rewrite Hp, <- app_assoc. reflexivity. }
    + destruct R as (S1 & Hl & j & got & Hj & Hg & Hf).
      split; [exact S1|]. right. split; [reflexivity|]. split; [lia|].
      exists (repeat (row_bytes img plane, row_bytes img plane) j),
             (row_bytes img plane), got,
             (repeat (row_bytes img plane, row_bytes img plane)
                     (plane_rows img plane - j - 1)
              ++ planes_reads todo (S plane) img).
      split; [exact Hf|]. split; [exact Hg|].
      split; [apply Forall_complete_repeat|].
      rewrite (repeat_split _ j (plane_rows img plane)) by exact Hj.
      rewrite <- app_assoc. reflexivity.
Qed.

Lemma row_stable img img' q y :
  geometry_stable -> same_geometry img img' ->
  nth q (planes img') [] = nth q (planes img) [] ->
  row img' q y = row img q y.
Proof.
  intros G S Hn. unfold row.
  rewrite (row_bytes_stable _ _ _ G S), Hn.
  destruct S as (_ & _ & _ & _ & _ & ->). reflexivity.
Qed.

Lemma plane_fits_stable img img' q :
  geometry_stable -> same_geometry img img' ->
  length (planes img') = length (planes img) ->
  nth q (planes img') [] = nth q (planes img) [] ->
  plane_fits img q -> plane_fits img' q.
Proof.
  intros G S Hl Hn (F1 & F2 & F3). unfold plane_fits.
  rewrite (row_bytes_stable _ _ _ G S), (plane_rows_stable _ _ _ G S), Hl, Hn.
  destruct S as (_ & _ & _ & _ & _ & ->). auto.
Qed.

(** One plane, filled. *)
Lemma read_plane_mem img p file img' file' :
  geometry_stable ->
  plane_fits img p ->
  read_plane img p file = (true, img', file') ->
  length (planes img') = length (planes img) /\
  (forall q, q <> p -> nth q (planes img') [] = nth q (planes img) []) /\
  (forall y, (y < plane_rows img p)%nat ->
     row img' p y =
     firstn (row_bytes img p) (skipn (y * row_bytes img p) (unread file))).
Proof.
  intros G (F1 & F2 & F3) Ex.
  pose proof (read_plane_spec img p file) as R. cbv zeta in R.
  rewrite Ex in R. destruct R as (S & _).
  unfold read_plane in Ex.
  destruct (read_rows _ _ _ _ _ _) as [[ok mem'] f'] eqn:Er.
  inversion Ex; subst ok img' f'. clear Ex.
  cbn [planes]. split; [apply length_set_nth|].
  split; [intros q Hq; apply nth_set_nth_other; congruence|].
  intros y Hy.
  apply read_rows_mem in Er; [|lia|exact F2|].
  2:{ cbn [Z.to_nat Nat.add]. exact F3. }
  destruct Er as (_ & _ & Hrows).
  unfold row. rewrite (row_bytes_stable _ _ _ G S).
  cbn [planes stride]. rewrite nth_set_nth_same by exact F1.
  specialize (Hrows y Hy). cbn [Z.to_nat Nat.add] in Hrows. exact Hrows.
Qed.

(** The planes [plane .. plane+todo-1], filled: each row holds the bytes
    the stream had at the row's place in the frame. *)
Lemma read_planes_mem todo : forall plane img file img' file',
  geometry_stable ->
  (forall q, (plane <= q < plane + todo)%nat -> plane_fits img q) ->
  read_planes todo plane img file = (1, img', file') ->
  length (planes img') = length (planes img) /\
  (forall q, (q < plane \/ plane + todo <= q)%nat ->
     nth q (planes img') [] = nth q (planes img) []) /\
  (forall q y, (plane <= q < plane + todo)%nat ->
     (y < plane_rows img q)%nat ->
     row img' q y =
     firstn (row_bytes img q)
            (skipn (planes_bytes (q - plane) plane img + y * row_bytes img q)
                   (unread file))).
Proof.
  induction todo as [|todo IH]; intros plane img file img' file' G Hfit Ex.
  - cbn in Ex. inversion Ex; subst. repeat split; auto. intros q y Hq. lia.
  - cbn [read_planes] in Ex.
    pose proof (read_plane_spec img plane file) as R. cbv zeta in R.
    destruct (read_plane img plane file) as [[[|] img1] file1] eqn:Ep;
      [|discriminate].
    destruct R as (S1 & _ & Hu & _).
    destruct (read_plane_mem img plane file img1 file1 G
                (Hfit plane ltac:(lia)) Ep) as (Hl1 & Ho1 & Hr1).
    assert (Hfit1 : forall q, (S plane <= q < S plane + todo)%nat ->
                              plane_fits img1 q).
    { intros q Hq. apply (plane_fits_stable img img1 q G S1 Hl1).
      - apply Ho1. lia.
      - apply Hfit. lia. }
    pose proof (read_planes_spec todo (S plane) img1 file1 G) as R2.
    rewrite Ex in R2. destruct R2 as (S2 & _).
    destruct (IH _ _ _ _ _ G Hfit1 Ex) as (Hl2 & Ho2 & Hr2).
    split; [congruence|]. split.
    { intros q Hq. rewrite Ho2 by lia. apply Ho1. lia. }
    intros q y Hq Hy.
    destruct (Nat.eq_dec q plane) as [->|Hne].
    + rewrite Nat.sub_diag. cbn [planes_bytes Nat.add].
      rewrite (row_stable img1 img' plane y G S2) by (apply Ho2; lia).
      apply Hr1. exact Hy.
    + rewrite (Hr2 q y) by
        (try rewrite (plane_rows_stable _ _ _ G S1); lia).
      rewrite (row_bytes_stable _ _ _ G S1).
      rewrite (planes_bytes_stable _ _ _ _ G S1).
      rewrite Hu, skipn_skipn. f_equal. f_equal.
      replace (q - plane)%nat with (S (q - S plane)) by lia.
      cbn [planes_bytes]. lia.
Qed.

End FrameSourceFacts.

(** ** One submission *)

Section SubmissionFacts.
Context `{AomLib}.

Lemma quiet_bind {A B} (c : M A) (k : A -> M B) :
  preserves (adds quiet) c -> (forall a, preserves (adds quiet) (k a)) ->
  preserves (adds quiet) (bind c k).
Proof. apply preserves_bind. apply adds_trans. Qed.

Lemma quiet_emit e : is_submit e = false -> preserves (adds quiet) (emit e).
Proof. intros He. apply emit_adds. exact He. Qed.

Lemma quiet_ret {A} (a : A) : preserves (adds quiet) (ret a).
Proof. apply preserves_ret. apply adds_refl. Qed.

Lemma quiet_exit {A} st : preserves (adds quiet) (@exit_ A st).
Proof. apply preserves_exit. apply adds_refl. Qed.

Lemma quiet_die {A} e f args : preserves (adds quiet) (@die A e f args).
Proof.
  unfold die, usage_exit.
  repeat (apply quiet_bind; [|intros _]);
    try (apply quiet_emit; reflexivity); apply quiet_exit.
Qed.

Lemma quiet_die_codec {A} c s : preserves (adds quiet) (@die_codec _ A c s).
Proof.
  unfold die_codec.
  repeat (apply quiet_bind; [|intros _]);
    try (apply quiet_emit; reflexivity); try apply quiet_exit.
  destruct (aom_codec_error_detail c);
    [apply quiet_emit; reflexivity|apply quiet_ret].
Qed.

Lemma quiet_fwrite buf : preserves (adds quiet) (do_fwrite buf).
Proof.
  intros w w' Hw. unfold do_fwrite in Hw.
  destruct (fwrite buf (outfile w)) as [n out]. inversion Hw; subst.
  exists []. simpl. rewrite app_nil_r. auto.
Qed.

Lemma quiet_drain codec pkts : forall g,
  preserves (adds quiet) (drain_packets codec pkts g).
Proof.
  induction pkts as [|pkt rest IH]; intros g; cbn [drain_packets].
  - apply quiet_bind; [apply quiet_emit; reflexivity|intros _; apply quiet_ret].
  - apply quiet_bind; [apply quiet_emit; reflexivity|intros _].
    apply quiet_bind; [|intros _; apply IH].
    destruct pkt as [buf flags|kind]; [|apply quiet_ret].
    apply quiet_bind; [apply quiet_fwrite|intros n].
    apply quiet_bind.
    + destruct (Nat.eqb n (length buf));
        [apply quiet_ret|apply quiet_die_codec].
    + intros _. apply quiet_bind; [|intros _]; apply quiet_emit; reflexivity.
Qed.

Lemma drain_events_quiet pkts : Forall quiet (drain_events pkts).
Proof.
  unfold drain_events. apply Forall_app. split.
  - induction pkts as [|pkt rest IH]; simpl; auto.
    constructor; [reflexivity|].
    apply Forall_app. split; [|exact IH].
    destruct pkt; repeat constructor.
  - repeat constructor.
Qed.

(** [encode_frame] unfolded once. *)
Lemma encode_frame_eq codec img idx flags w :
  encode_frame codec img idx flags w =
  let res := fst (aom_codec_encode codec img idx 1 flags) in
  let c1 := snd (aom_codec_encode codec img idx 1 flags) in
  let w1 := mk_world (trace w ++ [EvEncode img idx 1 flags res])
                     (infile w) (outfile w) in
  if res =? 0
  then match drain_packets c1 (cx_data c1) 0 w1 with
       | Ret g w' => Ret (g, c1) w'
       | Exit st w' => Exit st w'
       | OutOfFuel => OutOfFuel
       end
  else die_codec c1 "Failed to encode frame" w1.
Proof.
  unfold encode_frame.
  destruct (aom_codec_encode codec img idx 1 flags) as [res c1].
  cbn [fst snd]. unfold bind at 1. unfold emit at 1.
  unfold AOM_CODEC_OK. unfold bind at 1.
  destruct (res =? 0).
  - unfold ret at 1. unfold bind, ret.
    destruct (drain_packets c1 (cx_data c1) 0 _); reflexivity.
  - match goal with |- context [die_codec c1 ?s ?w1] =>
      destruct (@die_codec_run _ unit c1 s w1) as (w' & Ex & _);
      destruct (@die_codec_run _ (Z * aom_codec_ctx_t) c1 s w1)
        as (w'' & Ex' & _)
    end.
    rewrite Ex, Ex'. unfold die_codec, bind, emit, exit_ in Ex, Ex'.
    destruct (aom_codec_error_detail c1); simpl in *; congruence.
Qed.

(** Every way a submission can end. *)
Lemma encode_frame_cases codec img idx flags w :
  let res := fst (aom_codec_encode codec img idx 1 flags) in
  let c1 := snd (aom_codec_encode codec img idx 1 flags) in
  let t1 := trace w ++ [EvEncode img idx 1 flags res] in
  (res = 0 /\
   fits (length (payloads (cx_data c1))) (room (outfile w)) = true /\
   exists w',
     encode_frame codec img idx flags w =
       Ret (match cx_data c1 with [] => 0 | _ => 1 end, c1) w' /\
     written (outfile w') = written (outfile w) ++ payloads (cx_data c1) /\
     room (outfile w') =
       room_after (length (payloads (cx_data c1))) (room (outfile w)) /\
     infile w' = infile w /\
     trace w' = t1 ++ drain_events (cx_data c1))
  \/
  ((res <> 0 \/
    fits (length (payloads (cx_data c1))) (room (outfile w)) = false) /\
   exists w' t,
     encode_frame codec img idx flags w = Exit EXIT_FAILURE w' /\
     infile w' = infile w /\
     trace w' = t1 ++ t /\ Forall quiet t).
Proof.
  intros res c1 t1. rewrite encode_frame_eq. cbv zeta.
  fold res. fold c1. fold t1.
  destruct (res =? 0) eqn:Eres.
  - apply Z.eqb_eq in Eres.
    set (w1 := mk_world t1 (infile w) (outfile w)).
    destruct (fits (length (payloads (cx_data c1))) (room (outfile w))) eqn:Ef.
    + left. split; [exact Eres|]. split; [reflexivity|].
      destruct (drain_packets_fits c1 (cx_data c1) 0 w1 Ef)
        as (w' & Ex & Hw & Hr & Hi & Ht).
      exists w'. rewrite Ex. split.
      { destruct (cx_data c1); reflexivity. }
      auto.
    + right. split; [right; reflexivity|].
      destruct (fits_false _ _ Ef) as (r & Er & Hlt).
      destruct (drain_packets_short c1 (cx_data c1) 0 w1 r Er Hlt)
        as (w' & Ex & Hw & Hi).
      destruct (quiet_drain c1 (cx_data c1) 0 w1 w') as (t & Ht & Hq).
      { rewrite Ex. reflexivity. }
      exists w', t. rewrite Ex. auto.
  - apply Z.eqb_neq in Eres. right. split; [left; exact Eres|].
    set (w1 := mk_world t1 (infile w) (outfile w)).
    destruct (@die_codec_run _ (Z * aom_codec_ctx_t) c1
                "Failed to encode frame" w1) as (w' & Ex & Hi & Ho & Ht).
    destruct (@quiet_die_codec (Z * aom_codec_ctx_t) c1
                "Failed to encode frame" w1 w') as (t & Ht' & Hq).
    { rewrite Ex. reflexivity. }
    exists w', t. rewrite Ex. auto.
Qed.

(** The flush loop unfolded once. *)
Lemma flush_loop_eq fuel codec w :
  flush_loop (S fuel) codec w =
  match encode_frame codec None (-1) 0 w with
  | Ret (got_pkts, codec') w' =>
      if got_pkts =? 0 then Ret codec' w' else flush_loop fuel codec' w'
  | Exit st w' => Exit st w'
  | OutOfFuel => OutOfFuel
  end.
Proof.
  cbn [flush_loop]. unfold bind at 1.
  destruct (encode_frame codec None (-1) 0 w) as [[g c'] w'|st w'|];
    try reflexivity.
  destruct (g =? 0); reflexivity.
Qed.

Lemma fits_zero r : fits 0 r = true.
Proof. destruct r; reflexivity. Qed.

Lemma fits_after m n r :
  fits m r = true -> fits n (room_after m r) = fits (m + n) r.
Proof.
  destruct r as [k|]; cbn [fits room_after]; [|reflexivity].
  intros Hm. apply Nat.leb_le in Hm.
  destruct (Nat.leb n (k - m)) eqn:E1; destruct (Nat.leb (m + n) k) eqn:E2;
    try reflexivity.
  - apply Nat.leb_le in E1. apply Nat.leb_gt in E2. lia.
  - apply Nat.leb_gt in E1. apply Nat.leb_le in E2. lia.
Qed.

Lemma drained_drain_events pkts : drained (drain_events pkts) = pkts.
Proof.
  unfold drain_events. rewrite drained_app. cbn [drained flat_map].
  rewrite !app_nil_r.
  induction pkts as [|pkt rest IH]; [reflexivity|].
  cbn [flat_map]. rewrite drained_app.
  change (drained (flat_map _ rest)) with
    (drained (flat_map (fun pkt0 =>
        EvGetCxData (Some pkt0) ::
        match pkt0 with
        | AOM_CODEC_CX_FRAME_PKT _ flags =>
            [EvPrintf (if negb (Z.land flags AOM_FRAME_IS_KEY =? 0)
                       then "K" else ".") [];
             EvFflush]
        | AOM_CODEC_OTHER_PKT _ => []
        end) rest)).
  rewrite IH. destruct pkt; reflexivity.
Qed.

Lemma payloads_other pkts :
  (forall pkt, In pkt pkts -> exists kind, pkt = AOM_CODEC_OTHER_PKT kind) ->
  payloads pkts = [].
Proof.
  induction pkts as [|pkt rest IH]; intros Hother; [reflexivity|].
  unfold payloads. cbn [flat_map]. fold (payloads rest).
  rewrite IH by (intros p Hp; apply Hother; right; exact Hp).
  destruct (Hother pkt (or_introl eq_refl)) as (kind & ->). reflexivity.
Qed.

(** C10 (what the drain result counts). A submission that the session
    accepts and whose payloads the output takes makes [encode_frame]
    return; its result is 1 exactly when the session handed out at least
    one packet for this submission, whatever the kind of the packets: the
    packets drained are all that the session had, and only the frame
    packets among them add to the output.  In the flush loop the result
    decides: on 0 the loop is left, on 1 it goes round again.  A session
    that hands out informational packets only, at least one, makes
    [encode_frame] return 1 whatever room the output has, leaves the output
    as it was, and keeps the flush loop going. *)
Theorem encode_frame_counts_every_packet codec img idx flags w :
  let c1 := snd (aom_codec_encode codec img idx 1 flags) in
  fst (aom_codec_encode codec img idx 1 flags) = 0 ->
  (fits (length (payloads (cx_data c1))) (room (outfile w)) = true ->
   exists got_pkts w',
     encode_frame codec img idx flags w = Ret (got_pkts, c1) w' /\
     (got_pkts = 1 <-> cx_data c1 <> []) /\
     (got_pkts = 0 <-> cx_data c1 = []) /\
     trace w' = trace w ++ EvEncode img idx 1 flags 0
                        :: drain_events (cx_data c1) /\
     drained (trace w') = drained (trace w) ++ cx_data c1 /\
     written (outfile w') = written (outfile w) ++ payloads (cx_data c1) /\
     (img = None -> idx = -1 -> flags = 0 ->
      forall fuel,
        flush_loop (S fuel) codec w =
        if got_pkts =? 0 then Ret c1 w' else flush_loop fuel c1 w')) /\
  ((forall pkt, In pkt (cx_data c1) ->
                exists kind, pkt = AOM_CODEC_OTHER_PKT kind) ->
   cx_data c1 <> [] ->
   exists w',
     encode_frame codec img idx flags w = Ret (1, c1) w' /\
     drained (trace w') = drained (trace w) ++ cx_data c1 /\
     written (outfile w') = written (outfile w) /\
     (img = None -> idx = -1 -> flags = 0 ->
      forall fuel, flush_loop (S fuel) codec w = flush_loop fuel c1 w')).
Proof.
  intros c1 Hres.
  assert (Main : fits (length (payloads (cx_data c1))) (room (outfile w))
                 = true ->
            exists w',
              encode_frame codec img idx flags w =
                Ret (match cx_data c1 with [] => 0 | _ => 1 end, c1) w' /\
              trace w' = trace w ++ EvEncode img idx 1 flags 0
                                 :: drain_events (cx_data c1) /\
              drained (trace w') = drained (trace w) ++ cx_data c1 /\
              written (outfile w') =
                written (outfile w) ++ payloads (cx_data c1)).
  { intros Hfit.
    destruct (encode_frame_cases codec img idx flags w)
      as [(_ & _ & w' & Ex & Hw & _ & _ & Ht)|([Hne|Hnf] & _)].
    - fold c1 in Ex, Hw, Ht. rewrite Hres in Ht.
      exists w'. split; [exact Ex|]. split.
      { rewrite Ht, <- app_assoc. reflexivity. }
      split; [|exact Hw].
      rewrite Ht, !drained_app, drained_drain_events.
      cbn [drained flat_map]. rewrite !app_nil_r. reflexivity.
    - contradiction.
    - fold c1 in Hnf. congruence. }
  split.
  - intros Hfit. destruct (Main Hfit) as (w' & Ex & Ht & Hd & Hw).
    exists (match cx_data c1 with [] => 0 | _ => 1 end), w'.
    split; [exact Ex|].
    split; [destruct (cx_data c1); split; intros; congruence|].
    split; [destruct (cx_data c1); split; intros; congruence|].
    split; [exact Ht|]. split; [exact Hd|]. split; [exact Hw|].
    intros -> -> -> fuel. rewrite flush_loop_eq, Ex. reflexivity.
  - intros Hother Hne.
    pose proof (payloads_other _ Hother) as Hp.
    destruct Main as (w' & Ex & Ht & Hd & Hw).
    { rewrite Hp. apply fits_zero. }
    exists w'. rewrite Hp, app_nil_r in Hw.
    destruct (cx_data c1) as [|pkt rest] eqn:Ecx; [contradiction|].
    split; [exact Ex|]. split; [exact Hd|]. split; [exact Hw|].
    intros -> -> -> fuel. rewrite flush_loop_eq, Ex. reflexivity.
Qed.

End SubmissionFacts.

(** ** The flush loop *)

Section FlushFacts.
Context `{AomLib}.

Lemma flush_loop_fuel : forall n c w,
  flush_loop n c w <> OutOfFuel ->
  forall m, (n <= m)%nat -> flush_loop m c w = flush_loop n c w.
Proof.
  induction n as [|n IH]; intros c w Hr m Hm.
  - exfalso. apply Hr. reflexivity.
  - destruct m as [|m]; [lia|].
    rewrite (flush_loop_eq n) in Hr.
    rewrite (flush_loop_eq n), (flush_loop_eq m).
    destruct (encode_frame c None (-1) 0 w) as [[g c'] w'|st w'|];
      try reflexivity.
    destruct (g =? 0); [reflexivity|]. apply IH; [exact Hr|lia].
Qed.

Lemma flush_loop_spec held :
  lookahead_bound held ->
  forall fuel c w, (held c < fuel)%nat ->
  exists w' k,
    (1 <= k <= held c + 1)%nat /\
    flush_submits (trace w') = flush_submits (trace w) ++ repeat (-1, 0) k /\
    real_submits (trace w') = real_submits (trace w) /\
    infile w' = infile w /\
    ((exists c' t, flush_loop fuel c w = Ret c' w' /\ cx_data c' = [] /\
                   trace w' = t ++ empty_cycle) \/
     flush_loop fuel c w = Exit EXIT_FAILURE w').
Proof.
  intros Hb. induction fuel as [|fuel IH]; intros c w Hlt; [lia|].
  rewrite flush_loop_eq.
  pose proof (Hb c) as Hdec.
  destruct (encode_frame_cases c None (-1) 0 w)
    as [(Hres & Hf & w1 & Ex & Hw & Hr & Hi & Ht)|
        (_ & w1 & t & Ex & Hi & Ht & Hq)]; rewrite Ex.
  - set (c1 := snd (aom_codec_encode c None (-1) 1 0)) in *.
    assert (Hfs : flush_submits (trace w1)
                  = flush_submits (trace w) ++ [(-1, 0)]).
    { rewrite Ht, !flush_submits_app.
      rewrite (no_submit_flush _ (drain_events_quiet _)), app_nil_r.
      reflexivity. }
    assert (Hrs : real_submits (trace w1) = real_submits (trace w)).
    { rewrite Ht, !real_submits_app.
      rewrite (no_submit_real _ (drain_events_quiet _)), !app_nil_r.
      reflexivity. }
    destruct (cx_data c1) as [|pkt rest] eqn:Ecx.
    + exists w1, 1%nat. split; [lia|]. split; [exact Hfs|].
      split; [exact Hrs|]. split; [exact Hi|]. left.
      exists c1, (trace w). split; [reflexivity|]. split; [exact Ecx|].
      rewrite Ht, Hres, <- app_assoc. reflexivity.
    + assert (Hlt1 : (held c1 < held c)%nat).
      { apply Hdec; [exact Hres|discriminate]. }
      destruct (IH c1 w1) as (w' & k & Hk & Hfs' & Hrs' & Hi' & Hend);
        [lia|].
      exists w', (S k). split; [lia|]. split.
      { rewrite Hfs', Hfs, <- app_assoc. reflexivity. }
      split; [congruence|]. split; [congruence|]. exact Hend.
  - exists w1, 1%nat. split; [lia|].
    rewrite Ht, <- app_assoc, flush_submits_app, real_submits_app.
    cbn [app flush_submits real_submits flat_map].
    fold (flush_submits t). fold (real_submits t).
    rewrite (no_submit_flush _ Hq), (no_submit_real _ Hq), !app_nil_r.
    split; [reflexivity|]. split; [reflexivity|]. split; [exact Hi|].
    right. reflexivity.
Qed.

(** The flush loop, cycle by cycle. *)
Lemma flush_loop_cycles held :
  lookahead_bound held ->
  forall fuel c w, (held c < fuel)%nat ->
  exists w' k,
    (1 <= k <= held c + 1)%nat /\
    (forall i, (S i < k)%nat ->
       fst (aom_codec_encode (flush_ctx i c) None (-1) 1 0) = 0 /\
       cx_data (flush_ctx (S i) c) <> []) /\
    fits (length (payloads (flush_pkts (k - 1) c))) (room (outfile w))
      = true /\
    flush_submits (trace w') = flush_submits (trace w) ++ repeat (-1, 0) k /\
    real_submits (trace w') = real_submits (trace w) /\
    if (fst (aom_codec_encode (flush_ctx (k - 1) c) None (-1) 1 0) =? 0) &&
       fits (length (payloads (flush_pkts k c))) (room (outfile w))
    then cx_data (flush_ctx k c) = [] /\
         flush_loop fuel c w = Ret (flush_ctx k c) w' /\
         written (outfile w') =
           written (outfile w) ++ payloads (flush_pkts k c) /\
         exists t, trace w' = t ++ empty_cycle
    else flush_loop fuel c w = Exit EXIT_FAILURE w'.
Proof.
  intros Hb. induction fuel as [|fuel IH]; intros c w Hlt; [lia|].
  rewrite flush_loop_eq.
  pose proof (Hb c) as Hdec.
  destruct (encode_frame_cases c None (-1) 0 w)
    as [(Hres & Hf & w1 & Ex & Hw & Hr & Hi & Ht)|
        (Hwhy & w1 & t & Ex & Hi & Ht & Hq)]; rewrite Ex.
  - set (c1 := snd (aom_codec_encode c None (-1) 1 0)) in *.
    assert (Hfs : flush_submits (trace w1)
                  = flush_submits (trace w) ++ [(-1, 0)]).
    { rewrite Ht, !flush_submits_app.
      rewrite (no_submit_flush _ (drain_events_quiet _)), app_nil_r.
      reflexivity. }
    assert (Hrs : real_submits (trace w1) = real_submits (trace w)).
    { rewrite Ht, !real_submits_app.
      rewrite (no_submit_real _ (drain_events_quiet _)), !app_nil_r.
      reflexivity. }
    destruct (cx_data c1) as [|pkt rest] eqn:Ecx.
    + (* the cycle yields nothing: the loop is left *)
      exists w1, 1%nat. split; [lia|].
      split; [intros i Hi'; lia|].
      split; [apply fits_zero|]. split; [exact Hfs|]. split; [exact Hrs|].
      cbn [Nat.sub flush_ctx flush_pkts]. fold c1.
      rewrite Hres, Ecx. cbn [Z.eqb app payloads flat_map length andb].
      rewrite fits_zero.
      split; [reflexivity|]. split; [reflexivity|].
      split; [rewrite Hw; reflexivity|].
      exists (trace w). rewrite Ht, Hres, <- app_assoc. reflexivity.
    + (* the cycle yields a packet: the loop goes round again *)
      assert (Hlt1 : (held c1 < held c)%nat).
      { apply Hdec; [exact Hres|discriminate]. }
      rewrite <- Ecx in Hf, Hw, Hr.
      destruct (IH c1 w1) as (w' & k & Hk & Hall & Hfit & Hfs' & Hrs' & Hend);
        [lia|].
      destruct k as [|k]; [lia|].
      cbn [Nat.sub] in Hfit, Hend. rewrite Nat.sub_0_r in Hfit, Hend.
      assert (Hroom : forall n,
                fits n (room (outfile w1)) =
                fits (length (payloads (cx_data c1)) + n) (room (outfile w))).
      { intros n. rewrite Hr. apply fits_after. exact Hf. }
      exists w', (S (S k)). split; [lia|]. split.
      { intros [|i] Hi'.
        - cbn [flush_ctx]. fold c1. split; [exact Hres|].
          rewrite Ecx. discriminate.
        - cbn [flush_ctx]. fold c1. apply Hall. lia. }
      split.
      { cbn [Nat.sub flush_pkts]. fold c1.
        rewrite payloads_app, length_app, <- Hroom. exact Hfit. }
      split.
      { rewrite Hfs', Hfs, <- app_assoc. reflexivity. }
      split; [congruence|].
      cbn [Nat.sub flush_ctx]. fold c1.
      change (flush_pkts (S (S k)) c)
        with (cx_data c1 ++ flush_pkts (S k) c1).
      rewrite payloads_app, length_app, <- Hroom.
      cbn [Z.eqb].
      destruct ((fst (aom_codec_encode (flush_ctx k c1) None (-1) 1 0) =? 0) &&
                fits (length (payloads (flush_pkts (S k) c1)))
                     (room (outfile w1))).
      * destruct Hend as (Hcx & Er & Hwr & t & Htr).
        split; [exact Hcx|]. split; [exact Er|]. split; [|eauto].
        rewrite Hwr, Hw, <- app_assoc. reflexivity.
      * exact Hend.
  - (* the submission or a write fails *)
    exists w1, 1%nat. split; [lia|].
    split; [intros i Hi'; lia|].
    split; [apply fits_zero|].
    rewrite Ht, <- app_assoc, flush_submits_app, real_submits_app.
    cbn [app flush_submits real_submits flat_map].
    fold (flush_submits t). fold (real_submits t).
    rewrite (no_submit_flush _ Hq), (no_submit_real _ Hq), !app_nil_r.
    split; [reflexivity|]. split; [reflexivity|].
    cbn [Nat.sub flush_ctx flush_pkts]. rewrite app_nil_r.
    replace ((fst (aom_codec_encode c None (-1) 1 0) =? 0) &&
             fits (length (payloads
                     (cx_data (snd (aom_codec_encode c None (-1) 1 0)))))
                  (room (outfile w))) with false; [reflexivity|].
    symmetry. destruct Hwhy as [Hne|Hnf].
    + apply Z.eqb_neq in Hne. rewrite Hne. reflexivity.
    + rewrite Hnf. apply andb_false_r.
Qed.

(** C3 (flush termination). For a session whose lookahead holds at most
    [L] packets, the flush loop ends within [L + 1] submit-and-drain
    cycles: [L + 1] rounds of fuel are enough, and more fuel changes
    nothing.  It makes [k] NULL submissions and no other, one after the
    other on the context the one before left: each of the first [k - 1]
    is accepted and yields at least one packet, and the loop goes on.  It
    stops at the first cycle that yields no packet: when the last
    submission is accepted and the output takes all the packets' payloads,
    that cycle's drain finds nothing, and the loop returns the context of
    that cycle, the output grown by the payloads of all the packets
    handed out.  Otherwise, and only then (the last submission is refused,
    or its payloads do not fit the output), the run exits with a failure
    status. *)
Theorem flush_terminates_within_lookahead held L c w :
  lookahead_bound held ->
  (held c <= L)%nat ->
  exists w' k,
    (1 <= k <= L + 1)%nat /\
    (forall i, (S i < k)%nat ->
       fst (aom_codec_encode (flush_ctx i c) None (-1) 1 0) = 0 /\
       cx_data (flush_ctx (S i) c) <> []) /\
    fits (length (payloads (flush_pkts (k - 1) c))) (room (outfile w))
      = true /\
    flush_submits (trace w') = flush_submits (trace w) ++ repeat (-1, 0) k /\
    real_submits (trace w') = real_submits (trace w) /\
    (if (fst (aom_codec_encode (flush_ctx (k - 1) c) None (-1) 1 0) =? 0) &&
        fits (length (payloads (flush_pkts k c))) (room (outfile w))
     then cx_data (flush_ctx k c) = [] /\
          flush_loop (S L) c w = Ret (flush_ctx k c) w' /\
          written (outfile w') =
            written (outfile w) ++ payloads (flush_pkts k c) /\
          exists t, trace w' = t ++ empty_cycle
     else flush_loop (S L) c w = Exit EXIT_FAILURE w') /\
    (forall fuel, (S L <= fuel)%nat ->
                  flush_loop fuel c w = flush_loop (S L) c w).
Proof.
  intros Hb Hl.
  destruct (flush_loop_cycles held Hb (S L) c w) as
    (w' & k & Hk & Hall & Hfit & Hfs & Hrs & Hend); [lia|].
  exists w', k. split; [lia|]. split; [exact Hall|]. split; [exact Hfit|].
  split; [exact Hfs|]. split; [exact Hrs|]. split; [exact Hend|].
  intros fuel Hfuel. apply flush_loop_fuel; [|exact Hfuel].
  destruct (_ && _); [destruct Hend as (_ & -> & _)|rewrite Hend];
    discriminate.
Qed.

End FlushFacts.

(** ** The main loop *)

Section LoopFacts.
Context `{AomLib}.

Lemma int_wrap_idem z : int_wrap (int_wrap z) = int_wrap z.
Proof.
  pose proof (int_wrap_add_l z 0) as E. rewrite !Z.add_0_r in E. exact E.
Qed.

(** One pass through the loop, unfolded. *)
Lemma encode_iteration_eq a s w :
  encode_iteration a s w =
  let rd := aom_img_read (raw s) (infile w) in
  let raw' := snd (fst rd) in
  let w0 := mk_world (trace w) (snd rd) (outfile w) in
  if fst (fst rd) =? 0
  then Ret (false, mk_loop (codec s) raw' (frame_count s) (frames_encoded s)) w0
  else
    match encode_frame (codec s) (Some raw') (frame_count s)
            (keyframe_flags (frame_count s) (keyframe_interval a)) w0 with
    | Ret (_, codec') w1 =>
        Ret (negb ((max_frames a >? 0) &&
                   (int_wrap (frames_encoded s + 1) >=? max_frames a)),
             mk_loop codec' raw' (int_wrap (frame_count s + 1))
                     (int_wrap (frames_encoded s + 1)))
            (mk_world (trace w1 ++ [EvPrintf "encoded_frame: %d\n"
                                      [PInt (frames_encoded s)]])
                      (infile w1) (outfile w1))
    | Exit st w1 => Exit st w1
    | OutOfFuel => OutOfFuel
    end.
Proof.
  unfold encode_iteration. unfold bind at 1. unfold do_img_read.
  destruct (aom_img_read (raw s) (infile w)) as [[r raw'] f'].
  cbv zeta. cbn [fst snd].
  destruct (r =? 0); [reflexivity|].
  unfold bind at 1.
  destruct (encode_frame _ _ _ _ _) as [[g c'] w1|st w1|]; try reflexivity.
  unfold bind, emit, ret.
  destruct ((max_frames a >? 0) &&
            (int_wrap (frames_encoded s + 1) >=? max_frames a));
    reflexivity.
Qed.

(** Every way one pass through the loop can end. *)
Lemma encode_iteration_cases a s w :
  let rd := aom_img_read (raw s) (infile w) in
  let r := fst (fst rd) in
  let raw' := snd (fst rd) in
  let flags := keyframe_flags (frame_count s) (keyframe_interval a) in
  let enc := aom_codec_encode (codec s) (Some raw') (frame_count s) 1 flags in
  (r = 0 /\
   encode_iteration a s w =
     Ret (false, mk_loop (codec s) raw' (frame_count s) (frames_encoded s))
         (mk_world (trace w) (snd rd) (outfile w)))
  \/
  (r <> 0 /\
   exists w' t,
     infile w' = snd rd /\
     trace w' = trace w ++
                EvEncode (Some raw') (frame_count s) 1 flags (fst enc) :: t /\
     Forall quiet t /\
     ((encode_iteration a s w = Exit EXIT_FAILURE w' /\
       (fst enc <> 0 \/
        fits (length (payloads (cx_data (snd enc)))) (room (outfile w))
          = false)) \/
      (fst enc = 0 /\
       fits (length (payloads (cx_data (snd enc)))) (room (outfile w)) = true /\
       encode_iteration a s w =
         Ret (negb ((max_frames a >? 0) &&
                    (int_wrap (frames_encoded s + 1) >=? max_frames a)),
              mk_loop (snd enc) raw' (int_wrap (frame_count s + 1))
                      (int_wrap (frames_encoded s + 1))) w' /\
       room (outfile w') =
         room_after (length (payloads (cx_data (snd enc))))
                    (room (outfile w)) /\
       written (outfile w') =
         written (outfile w) ++ payloads (cx_data (snd enc))))).
Proof.
  intros rd r raw' flags enc.
  rewrite encode_iteration_eq. cbv zeta. fold rd. fold r. fold raw'. fold flags.
  destruct (r =? 0) eqn:Er.
  - apply Z.eqb_eq in Er. left. split; [exact Er|reflexivity].
  - apply Z.eqb_neq in Er. right. split; [exact Er|].
    set (w0 := mk_world (trace w) (snd rd) (outfile w)).
    destruct (encode_frame_cases (codec s) (Some raw') (frame_count s) flags w0)
      as [(Hres & Hf & w1 & Ex & Hw & Hr & Hi & Ht)|
          (Hwhy & w1 & t & Ex & Hi & Ht & Hq)]; rewrite Ex.
    + fold enc in Hres, Hf, Ex, Hw, Hr, Ht.
      set (w2 := mk_world (trace w1 ++ [EvPrintf "encoded_frame: %d\n"
                                          [PInt (frames_encoded s)]])
                          (infile w1) (outfile w1)).
      exists w2, (drain_events (cx_data (snd enc)) ++
                  [EvPrintf "encoded_frame: %d\n" [PInt (frames_encoded s)]]).
      split; [exact Hi|]. split.
      { subst w2. cbn [trace]. rewrite Ht. subst w0. cbn [trace].
        rewrite <- !app_assoc. reflexivity. }
      split.
      { apply Forall_app. split; [apply drain_events_quiet|].
        repeat constructor. }
      right. split; [exact Hres|]. split; [exact Hf|].
      split; [reflexivity|]. split; [exact Hr|exact Hw].
    + exists w1, t. split; [exact Hi|]. split.
      { rewrite Ht. subst w0. cbn [trace]. rewrite <- app_assoc. reflexivity. }
      split; [exact Hq|]. left. split; [reflexivity|exact Hwhy].
Qed.

(** The loop unfolded once. *)
Lemma encode_loop_eq fuel a s w :
  encode_loop (S fuel) a s w =
  match encode_iteration a s w with
  | Ret (again, s') w' =>
      if again then encode_loop fuel a s' w' else Ret s' w'
  | Exit st w' => Exit st w'
  | OutOfFuel => OutOfFuel
  end.
Proof.
  cbn [encode_loop]. unfold bind at 1.
  destruct (encode_iteration a s w) as [[again s'] w'|st w'|];
    try reflexivity.
  destruct again; reflexivity.
Qed.

(** The submissions of [n] consecutive frames starting at index [fc]. *)
Lemma submissions_shift ki fc n :
  map (fun k => (int_wrap (int_wrap (fc + 1) + Z.of_nat k),
                 keyframe_flags (int_wrap (int_wrap (fc + 1) + Z.of_nat k)) ki))
      (seq 0 n) =
  map (fun k => (int_wrap (fc + Z.of_nat k),
                 keyframe_flags (int_wrap (fc + Z.of_nat k)) ki))
      (seq 1 n).
Proof.
  rewrite <- seq_shift, map_map. apply map_ext. intros k.
  rewrite int_wrap_add_l.
  replace (fc + 1 + Z.of_nat k) with (fc + Z.of_nat (S k)) by lia.
  reflexivity.
Qed.

(** What the main loop submits, however it ends: consecutive frame
    indices from [frame_count] on, each with the flags the keyframe
    schedule gives that index; and the counters it leaves. *)
Lemma encode_loop_submits a : forall fuel s w w',
  int_wrap (frame_count s) = frame_count s ->
  int_wrap (frames_encoded s) = frames_encoded s ->
  world_of (encode_loop fuel a s w) = Some w' ->
  exists n,
    real_submits (trace w') =
      real_submits (trace w) ++
      map (fun k => (int_wrap (frame_count s + Z.of_nat k),
                     keyframe_flags (int_wrap (frame_count s + Z.of_nat k))
                                    (keyframe_interval a)))
          (seq 0 n) /\
    flush_submits (trace w') = flush_submits (trace w) /\
    forall s', encode_loop fuel a s w = Ret s' w' ->
               frame_count s' = int_wrap (frame_count s + Z.of_nat n) /\
               frames_encoded s' = int_wrap (frames_encoded s + Z.of_nat n).
Proof.
  induction fuel as [|fuel IH]; intros s w w' Hfc Hfe Hw; [discriminate|].
  rewrite encode_loop_eq in *.
  pose proof (encode_iteration_cases a s w) as C. cbv zeta in C.
  set (raw' := snd (fst (aom_img_read (raw s) (infile w)))) in *.
  set (flags := keyframe_flags (frame_count s) (keyframe_interval a)) in *.
  set (enc := aom_codec_encode (codec s) (Some raw') (frame_count s) 1 flags)
    in *.
  assert (Hone : forall w1 t,
            trace w1 = trace w ++
              EvEncode (Some raw') (frame_count s) 1 flags (fst enc) :: t ->
            Forall quiet t ->
            real_submits (trace w1)
              = real_submits (trace w) ++ [(frame_count s, flags)] /\
            flush_submits (trace w1) = flush_submits (trace w)).
  { intros w1 t Ht Hq. rewrite Ht, real_submits_app, flush_submits_app.
    cbn [real_submits flush_submits flat_map app].
    fold (real_submits t). fold (flush_submits t).
    rewrite (no_submit_real _ Hq), (no_submit_flush _ Hq), !app_nil_r.
    auto. }
  destruct C
    as [(Hr & Ex)|(Hr & w1 & t & Hi & Ht & Hq &
                   [(Ex & _)|(Hres & Hf & Ex & _)])];
    rewrite Ex in *.
  - (* no frame: the loop ends *)
    cbn [world_of] in Hw. inversion Hw; subst w'. cbn [trace].
    exists 0%nat. cbn [seq map]. rewrite app_nil_r.
    split; [reflexivity|]. split; [reflexivity|].
    intros s' Hs. inversion Hs; subst s'. cbn [frame_count frames_encoded].
    rewrite !Z.add_0_r. auto.
  - (* the submission was fatal *)
    cbn [world_of] in Hw. inversion Hw; subst w'.
    destruct (Hone w1 t Ht Hq) as (Hrs & Hfs).
    exists 1%nat. cbn [seq map]. rewrite Z.add_0_r, Hfc.
    split; [exact Hrs|]. split; [exact Hfs|]. intros s' Hs. discriminate.
  - destruct (Hone w1 t Ht Hq) as (Hrs & Hfs).
    destruct (negb ((max_frames a >? 0) &&
                    (int_wrap (frames_encoded s + 1) >=? max_frames a))).
    + (* round again *)
      set (s1 := mk_loop (snd enc) raw' (int_wrap (frame_count s + 1))
                         (int_wrap (frames_encoded s + 1))) in *.
      destruct (IH s1 w1 w') as (n & Hrs' & Hfs' & Hcnt).
      { apply int_wrap_idem. }
      { apply int_wrap_idem. }
      { exact Hw. }
      exists (S n). split.
      { rewrite Hrs', Hrs, <- app_assoc. f_equal.
        subst s1. cbn [frame_count]. rewrite submissions_shift.
        cbn [seq map app]. rewrite Z.add_0_r, Hfc. reflexivity. }
      split; [congruence|].
      intros s' Hs. destruct (Hcnt s' Hs) as (E1 & E2). rewrite E1, E2.
      subst s1. cbn [frame_count frames_encoded].
      rewrite !int_wrap_add_l. split; f_equal; lia.
    + (* the frame cap was reached *)
      cbn [world_of] in Hw. inversion Hw; subst w'.
      exists 1%nat. cbn [seq map]. rewrite Z.add_0_r, Hfc.
      split; [exact Hrs|]. split; [exact Hfs|].
      intros s' Hs. inversion Hs; subst s'. cbn [frame_count frames_encoded].
      auto.
Qed.

(** Under a frame cap the loop submits no more frames than are left to
    the cap. *)
Lemma encode_loop_at_most a :
  0 < max_frames a <= INT_MAX ->
  forall fuel s w w',
    0 <= frames_encoded s < max_frames a ->
    world_of (encode_loop fuel a s w) = Some w' ->
    (length (real_submits (trace w')) <=
     length (real_submits (trace w))
     + Z.to_nat (max_frames a - frames_encoded s))%nat.
Proof.
  intros Hmf.
  induction fuel as [|fuel IH]; intros s w w' Hfe Hw; [discriminate|].
  rewrite encode_loop_eq in Hw.
  pose proof (encode_iteration_cases a s w) as C. cbv zeta in C.
  set (raw' := snd (fst (aom_img_read (raw s) (infile w)))) in *.
  set (flags := keyframe_flags (frame_count s) (keyframe_interval a)) in *.
  set (enc := aom_codec_encode (codec s) (Some raw') (frame_count s) 1 flags)
    in *.
  assert (Hone : forall w1 t,
            trace w1 = trace w ++
              EvEncode (Some raw') (frame_count s) 1 flags (fst enc) :: t ->
            Forall quiet t ->
            length (real_submits (trace w1))
              = S (length (real_submits (trace w)))).
  { intros w1 t Ht Hq. rewrite Ht, real_submits_app.
    match goal with |- context [real_submits (?e :: t)] =>
      change (e :: t) with ([e] ++ t) end.
    rewrite real_submits_app, (no_submit_real _ Hq), app_nil_r, length_app.
    cbn. lia. }
  destruct C
    as [(Hr & Ex)|(Hr & w1 & t & Hi & Ht & Hq &
                   [(Ex & _)|(Hres & Hf & Ex & _)])];
    rewrite Ex in Hw.
  - cbn [world_of] in Hw. inversion Hw; subst w'. cbn [trace]. lia.
  - cbn [world_of] in Hw. inversion Hw; subst w'.
    rewrite (Hone w1 t Ht Hq). lia.
  - assert (Hw2 : int_wrap (frames_encoded s + 1) = frames_encoded s + 1).
    { apply int_wrap_small. unfold INT_MAX in *. lia. }
    rewrite Hw2 in Hw.
    assert (Hpos : (max_frames a >? 0) = true) by (apply Z.gtb_lt; lia).
    rewrite Hpos in Hw. cbn [andb] in Hw.
    destruct (frames_encoded s + 1 >=? max_frames a) eqn:Hge;
      cbn [negb] in Hw.
    + cbn [world_of] in Hw. inversion Hw; subst w'.
      rewrite (Hone w1 t Ht Hq). lia.
    + rewrite Z.geb_leb in Hge. apply Z.leb_gt in Hge.
      apply IH in Hw; [|cbn [frames_encoded]; lia].
      cbn [frames_encoded] in Hw. rewrite (Hone w1 t Ht Hq) in Hw. lia.
Qed.

(** C2 (frame source). Under the library's guarantee that plane sizes depend
    on the geometry only, [aom_img_read] returns 1 exactly when the stream
    still holds a whole frame.  Then every row of every plane was
    delivered in full: the [fread] calls made are exactly the frame's
    rows, each complete, the stream has advanced by one frame, and (in a
    buffer laid out as [aom_img_alloc] must lay it out) every row of the
    image holds the bytes the stream had at that row's place.  Otherwise
    it returns 0 at the first short [fread], which is the last call it
    makes, after rows that were all complete; and the main loop, on that
    0, ends without submitting anything: the partly refreshed buffer
    never reaches the encoder as a frame. *)
Theorem aom_img_read_all_or_nothing img file :
  geometry_stable ->
  match aom_img_read img file with
  | (r, img', file') =>
      same_geometry img img' /\
      (r = 1 <-> (frame_bytes img <= length (unread file))%nat) /\
      ((r = 1 /\
        unread file' = skipn (frame_bytes img) (unread file) /\
        freads file' = freads file ++ frame_reads img /\
        Forall complete (frame_reads img) /\
        ((forall q, (q < 3)%nat -> plane_fits img q) ->
         forall q y, (q < 3)%nat -> (y < plane_rows img q)%nat ->
           row img' q y =
           firstn (row_bytes img q)
                  (skipn (planes_bytes q 0 img + y * row_bytes img q)
                         (unread file)))) \/
       (r = 0 /\
        (exists done n got rest,
           freads file' = freads file ++ done ++ [(n, got)] /\
           (got < n)%nat /\ Forall complete done /\
           frame_reads img = done ++ (n, n) :: rest) /\
        forall a s w,
          raw s = img -> infile w = file ->
          encode_iteration a s w =
            Ret (false, mk_loop (codec s) img' (frame_count s)
                                (frames_encoded s))
                (mk_world (trace w) file' (outfile w))))
  end.
Proof.
  intros G.
  pose proof (read_planes_spec 3 0 img file G) as R.
  pose proof (read_planes_mem 3 0 img file) as Rm.
  unfold aom_img_read, frame_bytes, frame_reads.
  destruct (read_planes 3 0 img file) as [[r img'] file'] eqn:Erd.
  destruct R as (S & [(Hr & Hl & Hu & Hf)|(Hr & Hl & E)]).
  - split; [exact S|]. split; [tauto|]. left.
    split; [exact Hr|]. split; [exact Hu|]. split; [exact Hf|]. split.
    + cbn [planes_reads]. rewrite app_nil_r.
      repeat (apply Forall_app; split); apply Forall_complete_repeat.
    + intros Hfit q y Hq Hy. subst r.
      destruct (Rm img' file' G) as (_ & _ & Hrows); [|reflexivity|].
      { intros q' Hq'. apply Hfit. lia. }
      rewrite (Hrows q y) by lia. rewrite Nat.sub_0_r. reflexivity.
  - split; [exact S|]. split.
    + split; intros; [congruence|lia].
    + right. split; [exact Hr|]. split; [exact E|].
      intros a s w Hraw Hin. rewrite encode_iteration_eq. cbv zeta.
      rewrite Hraw, Hin. unfold aom_img_read. rewrite Erd.
      cbn [fst snd]. rewrite Hr. reflexivity.
Qed.


End LoopFacts.

(** ** Setup, teardown and whole runs *)

Section RunFacts.
Context `{AomLib}.

Lemma returns_bind {A B} (R : B -> world -> Prop) (c : M A) (k : A -> M B) :
  (forall a, returns R (k a)) -> returns R (bind c k).
Proof.
  intros Hk w b w' Hr. unfold bind in Hr.
  destruct (c w) as [a w1|st w1|] eqn:E; try discriminate.
  apply (Hk a w1). exact Hr.
Qed.

Lemma returns_exit {A} (R : A -> world -> Prop) st : returns R (exit_ st).
Proof. intros w a w' Hr. discriminate. Qed.

Lemma returns_die {A} (R : A -> world -> Prop) e f args :
  returns R (die e f args).
Proof.
  unfold die, usage_exit. repeat (apply returns_bind; intros _).
  apply returns_exit.
Qed.

Lemma get_aom_encoder_by_name_av1 name_ :
  get_aom_encoder_by_name name_ =
  if String.eqb "av1" name_
  then Some (mk_AvxInterface _ "av1" AV1_FOURCC (fun _ => aom_codec_av1_cx))
  else None.
Proof.
  unfold get_aom_encoder_by_name, get_aom_encoder_count, aom_encoders.
  cbn [length encoder_search get_aom_encoder_by_index nth_error aom_encoders
       name].
  destruct (String.eqb "av1" name_); reflexivity.
Qed.

Lemma quiet_fopen_rb E path : preserves (adds quiet) (do_fopen_rb E path).
Proof.
  intros w w' Hw. unfold do_fopen_rb in Hw.
  destruct (fs_read E path); inversion Hw; subst; cbn [trace];
    eexists; (split; [reflexivity|]); repeat constructor.
Qed.

Lemma quiet_fopen_wb E path : preserves (adds quiet) (do_fopen_wb E path).
Proof.
  intros w w' Hw. unfold do_fopen_wb in Hw.
  destruct (fs_write E path); inversion Hw; subst; cbn [trace];
    eexists; (split; [reflexivity|]); repeat constructor.
Qed.

Ltac quiet_steps :=
  repeat first
    [ apply quiet_ret | apply quiet_exit | apply quiet_die
    | apply quiet_die_codec | apply quiet_fopen_rb | apply quiet_fopen_wb
    | apply quiet_emit; reflexivity
    | apply quiet_bind; [|intros ?]
    | match goal with
      | |- preserves _ (if ?b then _ else _) => destruct b
      | |- preserves _ (match ?x with Some _ => _ | None => _ end) =>
          destruct x
      | |- preserves _ (let '(_, _) := ?x in _) => destruct x
      end ].

Lemma setup_quiet E a : preserves (adds quiet) (setup E a).
Proof. unfold setup. quiet_steps. Qed.

Lemma setup_returns E a :
  returns (fun s _ => frame_count s = 0 /\ frames_encoded s = 0) (setup E a).
Proof.
  unfold setup.
  destruct (get_aom_encoder_by_name (codec_arg a)); [|apply returns_die].
  apply returns_bind; intros _. apply returns_bind; intros _.
  destruct (aom_img_alloc _ _ _ _); [|apply returns_die].
  repeat (apply returns_bind; intros _).
  destruct (aom_codec_enc_config_default _ _).
  repeat (apply returns_bind; intros ?).
  destruct (aom_codec_enc_init _ _ _).
  repeat (apply returns_bind; intros ?).
  intros w s w' Hr. inversion Hr; subst. auto.
Qed.

Lemma teardown_cases s w :
  (aom_codec_destroy (codec s) = 0 /\
   teardown s w =
     Ret EXIT_SUCCESS
         (mk_world (trace w ++ teardown_events (frame_count s))
                   (infile w) (outfile w))) \/
  (aom_codec_destroy (codec s) <> 0 /\
   exists w', teardown s w = Exit EXIT_FAILURE w' /\ adds quiet w w').
Proof.
  destruct (aom_codec_destroy (codec s) =? 0) eqn:E.
  - apply Z.eqb_eq in E. left. split; [exact E|].
    unfold teardown. rewrite E. unfold bind, emit, ret.
    cbn [Z.eqb trace infile outfile]. rewrite <- !app_assoc. reflexivity.
  - right. split; [apply Z.eqb_neq; exact E|].
    assert (Q : preserves (adds quiet) (teardown s)).
    { unfold teardown. quiet_steps. }
    destruct (teardown s w) as [st w'|st w'|] eqn:Et.
    + exfalso. unfold teardown in Et. rewrite E in Et.
      unfold bind, emit, ret in Et. cbn [trace infile outfile] in Et.
      match type of Et with context [die_codec ?c ?m ?w1] =>
        destruct (@die_codec_run _ unit c m w1) as (w2 & Ex & _);
        rewrite Ex in Et
      end. discriminate.
    + exists w'. assert (st = EXIT_FAILURE) as ->.
      { unfold teardown in Et. rewrite E in Et.
        unfold bind, emit, ret in Et. cbn [trace infile outfile] in Et.
        match type of Et with context [die_codec ?c ?m ?w1] =>
          destruct (@die_codec_run _ unit c m w1) as (w2 & Ex & _);
          rewrite Ex in Et
        end. congruence. }
      split; [reflexivity|]. apply Q. rewrite Et. reflexivity.
    + exfalso. unfold teardown in Et. rewrite E in Et.
      unfold bind, emit, ret in Et. cbn [trace infile outfile] in Et.
      match type of Et with context [die_codec ?c ?m ?w1] =>
        destruct (@die_codec_run _ unit c m w1) as (w2 & Ex & _);
        rewrite Ex in Et
      end. discriminate.
Qed.

Lemma flush_loop_submits : forall fuel c w w',
  world_of (flush_loop fuel c w) = Some w' ->
  exists k,
    flush_submits (trace w') = flush_submits (trace w) ++ repeat (-1, 0) k /\
    real_submits (trace w') = real_submits (trace w).
Proof.
  induction fuel as [|fuel IH]; intros c w w' Hw; [discriminate|].
  rewrite flush_loop_eq in Hw.
  destruct (encode_frame_cases c None (-1) 0 w)
    as [(Hres & Hf & w1 & Ex & _ & _ & _ & Ht)|
        (_ & w1 & t & Ex & _ & Ht & Hq)]; rewrite Ex in Hw.
  - assert (Hfs : flush_submits (trace w1)
                  = flush_submits (trace w) ++ [(-1, 0)]).
    { rewrite Ht, !flush_submits_app.
      rewrite (no_submit_flush _ (drain_events_quiet _)), app_nil_r.
      reflexivity. }
    assert (Hrs : real_submits (trace w1) = real_submits (trace w)).
    { rewrite Ht, !real_submits_app.
      rewrite (no_submit_real _ (drain_events_quiet _)), !app_nil_r.
      reflexivity. }
    destruct (cx_data _).
    + cbn [Z.eqb world_of] in Hw. inversion Hw; subst w'.
      exists 1%nat. auto.
    + cbn [Z.eqb] in Hw. destruct (IH _ _ _ Hw) as (k & Hk & Hr).
      exists (S k). rewrite Hk, Hr, Hfs, Hrs, <- app_assoc. auto.
  - cbn [world_of] in Hw. inversion Hw; subst w'. exists 1%nat.
    rewrite Ht, <- app_assoc, flush_submits_app, real_submits_app.
    cbn [app flush_submits real_submits flat_map].
    fold (flush_submits t). fold (real_submits t).
    rewrite (no_submit_flush _ Hq), (no_submit_real _ Hq), !app_nil_r.
    auto.
Qed.

Lemma quiet_submits w w' :
  adds quiet w w' ->
  real_submits (trace w') = real_submits (trace w) /\
  flush_submits (trace w') = flush_submits (trace w).
Proof.
  intros (t & -> & Hq). rewrite real_submits_app, flush_submits_app.
  rewrite (no_submit_real _ Hq), (no_submit_flush _ Hq), !app_nil_r. auto.
Qed.

(** The submissions of a whole run, however it ends, and its last words
    when it returns. *)
Lemma main_body_run fuel E a w w' :
  world_of (main_body fuel E a w) = Some w' ->
  exists n k,
    real_submits (trace w') =
      real_submits (trace w) ++ scheduled_submits (keyframe_interval a) n /\
    flush_submits (trace w') = flush_submits (trace w) ++ repeat (-1, 0) k /\
    forall st, main_body fuel E a w = Ret st w' ->
               st = EXIT_SUCCESS /\
               exists t, trace w' =
                         t ++ teardown_events (int_wrap (Z.of_nat n)).
Proof.
  unfold main_body. intros Hw.
  destruct (world_of_bind _ _ _ _ Hw) as [(s0 & w0 & E0 & Hw0)|(st & E0)].
  2:{ (* setup left through exit *)
      exists 0%nat, 0%nat. cbn [scheduled_submits seq map repeat].
      rewrite !app_nil_r.
      destruct (quiet_submits w w') as (R & F).
      { apply (setup_quiet E a). rewrite E0. reflexivity. }
      split; [exact R|]. split; [exact F|].
      intros st' Hr. unfold bind in Hr. rewrite E0 in Hr. discriminate. }
  destruct (setup_returns E a _ _ _ E0) as (Hfc & Hfe).
  destruct (quiet_submits w w0) as (R0 & F0).
  { apply (setup_quiet E a). rewrite E0. reflexivity. }
  unfold bind at 1. rewrite E0.
  destruct (world_of_bind _ _ _ _ Hw0) as [(s1 & w1 & E1 & Hw1)|(st & E1)].
  2:{ (* the main loop left through exit *)
      destruct (encode_loop_submits a fuel s0 w0 w') as (n & Rn & Fn & _).
      { rewrite Hfc. reflexivity. }
      { rewrite Hfe. reflexivity. }
      { rewrite E1. reflexivity. }
      exists n, 0%nat. cbn [repeat]. rewrite app_nil_r.
      rewrite Rn, Fn, R0, F0, Hfc. split; [reflexivity|]. split; [reflexivity|].
      intros st' Hr. unfold bind in Hr. rewrite E1 in Hr. discriminate. }
  destruct (encode_loop_submits a fuel s0 w0 w1) as (n & Rn & Fn & Hcnt).
  { rewrite Hfc. reflexivity. }
  { rewrite Hfe. reflexivity. }
  { rewrite E1. reflexivity. }
  destruct (Hcnt s1 E1) as (Hfc1 & _). rewrite Hfc in Hfc1, Rn.
  cbn [Z.add] in Hfc1.
  unfold bind at 1. rewrite E1.
  destruct (world_of_bind _ _ _ _ Hw1) as [(c2 & w2 & E2 & Hw2)|(st & E2)].
  2:{ (* the flush loop left through exit *)
      destruct (flush_loop_submits fuel (codec s1) w1 w') as (k & Fk & Rk).
      { rewrite E2. reflexivity. }
      exists n, k. rewrite Rk, Fk, Rn, Fn, R0, F0.
      split; [reflexivity|]. split; [reflexivity|].
      intros st' Hr. unfold bind in Hr. rewrite E2 in Hr. discriminate. }
  destruct (flush_loop_submits fuel (codec s1) w1 w2) as (k & Fk & Rk).
  { rewrite E2. reflexivity. }
  exists n, k. unfold bind at 1. rewrite E2.
  set (s2 := mk_loop c2 (raw s1) (frame_count s1) (frames_encoded s1)) in *.
  destruct (teardown_cases s2 w2) as [(_ & Et)|(_ & w3 & Et & Q)];
    rewrite Et in Hw2 |- *; cbn [world_of] in Hw2; inversion Hw2; subst w'.
  - cbn [trace]. rewrite real_submits_app, flush_submits_app.
    cbn [teardown_events real_submits flush_submits flat_map app].
    rewrite !app_nil_r, Rk, Fk, Rn, Fn, R0, F0.
    split; [reflexivity|]. split; [reflexivity|].
    intros st' Hr. inversion Hr; subst st'. split; [reflexivity|].
    exists (trace w2). subst s2. cbn [frame_count]. rewrite Hfc1. reflexivity.
  - destruct (quiet_submits _ _ Q) as (R3 & F3).
    rewrite R3, F3, Rk, Fk, Rn, Fn, R0, F0.
    split; [reflexivity|]. split; [reflexivity|].
    intros st' Hr. discriminate.
Qed.

Lemma die_run {A} a msg args w :
  @die A (exec_name a) msg args w =
  Exit EXIT_FAILURE
       (mk_world (trace w ++ usage_report a msg args) (infile w) (outfile w)).
Proof.
  unfold die, usage_exit, bind, emit, exit_, usage_report.
  cbn [trace infile outfile]. rewrite <- !app_assoc. reflexivity.
Qed.

Lemma geometry_check a :
  ((frame_width a <=? 0) || (frame_height a <=? 0) ||
   negb (Z.rem (frame_width a) 2 =? 0) ||
   negb (Z.rem (frame_height a) 2 =? 0)) = true <-> invalid_geometry a.
Proof.
  unfold invalid_geometry.
  rewrite !orb_true_iff, !negb_true_iff, !Z.leb_le, !Z.eqb_neq. tauto.
Qed.

(** The way of [setup] to the call of [aom_codec_enc_init], and from
    there. *)
Lemma setup_reaches_init E a w raw0 data r :
  codec_arg a = "av1" ->
  ~ invalid_geometry a ->
  aom_img_alloc AOM_IMG_FMT_I420 (frame_width a) (frame_height a) 1
    = Some raw0 ->
  0 <= keyframe_interval a ->
  fst (aom_codec_enc_config_default aom_codec_av1_cx 0) = 0 ->
  fs_read E (infile_arg a) = Some data ->
  fs_write E (outfile_arg a) = Some r ->
  let init := aom_codec_enc_init aom_codec_av1_cx (main_cfg a) 0 in
  let w1 := mk_world (trace w ++ setup_prefix a ++
                      [EvEncInit (main_cfg a) 0 (fst init)])
                     (mk_FILE data []) (mk_OFILE [] r) in
  setup E a w =
  if fst init =? 0
  then Ret (mk_loop (aom_codec_control
                       (aom_codec_control (snd init) AOME_SET_CPUUSED 8)
                       AOME_SET_CQ_LEVEL 45)
                    raw0 0 0)
           (mk_world (trace w1 ++ [EvControl AOME_SET_CPUUSED 8;
                                   EvControl AOME_SET_CQ_LEVEL 45])
                     (infile w1) (outfile w1))
  else Exit EXIT_FAILURE
            (mk_world (trace w1 ++ die_codec_events (snd init)
                                     "Failed to initialize encoder")
                      (infile w1) (outfile w1)).
Proof.
  intros Hc Hg Ha Hk Hcfg Hin Hout init w1.
  unfold setup. rewrite get_aom_encoder_by_name_av1, Hc. cbn [String.eqb
    Ascii.eqb Bool.eqb andb codec_interface].
  match goal with |- context [if ?b then die _ _ _ else _] =>
    destruct b eqn:Eg end.
  { exfalso. apply Hg. apply geometry_check. exact Eg. }
  rewrite Ha.
  assert (Hk' : (keyframe_interval a <? 0) = false) by (apply Z.ltb_ge; lia).
  rewrite Hk'.
  destruct (aom_codec_enc_config_default aom_codec_av1_cx 0) as [res0 cfg0].
  cbn [fst] in Hcfg. subst res0.
  fold (main_cfg a). fold init.
  unfold bind, emit, ret, do_fopen_rb, do_fopen_wb.
  cbn [trace infile outfile Z.eqb]. rewrite Hin.
  cbn [trace infile outfile]. rewrite Hout.
  cbn [trace infile outfile].
  subst w1. destruct init as [res c]. cbn [fst snd trace infile outfile].
  unfold setup_prefix.
  destruct (res =? 0); cbn [trace infile outfile].
  - rewrite <- !app_assoc. reflexivity.
  - rewrite die_codec_eq. cbn [trace infile outfile].
    rewrite <- !app_assoc. reflexivity.
Qed.

(** A run with a frame cap submits at most that many real frames. *)
Lemma main_body_at_most fuel E a w' :
  0 < max_frames a <= INT_MAX ->
  world_of (main_body fuel E a init_world) = Some w' ->
  Z.of_nat (length (real_submits (trace w'))) <= max_frames a.
Proof.
  intros Hmf Hw. unfold main_body in Hw.
  destruct (world_of_bind _ _ _ _ Hw) as [(s0 & w0 & E0 & Hw0)|(st & E0)].
  2:{ destruct (quiet_submits init_world w') as (R & _).
      { apply (setup_quiet E a). rewrite E0. reflexivity. }
      rewrite R. cbn. lia. }
  destruct (setup_returns E a _ _ _ E0) as (_ & Hfe).
  destruct (quiet_submits init_world w0) as (R0 & _).
  { apply (setup_quiet E a). rewrite E0. reflexivity. }
  cbn [init_world trace real_submits flat_map] in R0.
  assert (Hloop : forall w1, world_of (encode_loop fuel a s0 w0) = Some w1 ->
                  Z.of_nat (length (real_submits (trace w1))) <= max_frames a).
  { intros w1 H1. apply (encode_loop_at_most a Hmf) in H1; [|lia].
    rewrite R0, Hfe in H1. cbn [length] in H1. lia. }
  destruct (world_of_bind _ _ _ _ Hw0) as [(s1 & w1 & E1 & Hw1)|(st & E1)].
  2:{ apply Hloop. rewrite E1. reflexivity. }
  specialize (Hloop w1 ltac:(rewrite E1; reflexivity)).
  destruct (world_of_bind _ _ _ _ Hw1) as [(c2 & w2 & E2 & Hw2)|(st & E2)].
  2:{ destruct (flush_loop_submits fuel (codec s1) w1 w') as (k & _ & Rk).
      { rewrite E2. reflexivity. }
      rewrite Rk. exact Hloop. }
  destruct (flush_loop_submits fuel (codec s1) w1 w2) as (k & _ & Rk).
  { rewrite E2. reflexivity. }
  set (s2 := mk_loop c2 (raw s1) (frame_count s1) (frames_encoded s1)) in *.
  destruct (teardown_cases s2 w2) as [(_ & Et)|(_ & w3 & Et & Q)];
    rewrite Et in Hw2; cbn [world_of] in Hw2; inversion Hw2; subst w'.
  - cbn [trace]. rewrite real_submits_app.
    cbn [teardown_events real_submits flat_map app].
    rewrite app_nil_r, Rk. exact Hloop.
  - destruct (quiet_submits _ _ Q) as (R3 & _). rewrite R3, Rk. exact Hloop.
Qed.

End RunFacts.

(** ** The schedule, the time stamps and the counters of a run *)

Section ScheduleFacts.
Context `{AomLib}.

Lemma scheduled_submits_nth interval n k pts flags :
  nth_error (scheduled_submits interval n) k = Some (pts, flags) ->
  (k < n)%nat /\ pts = int_wrap (Z.of_nat k) /\
  flags = keyframe_flags pts interval.
Proof.
  unfold scheduled_submits. rewrite nth_error_map, nth_error_seq.
  destruct (Nat.ltb k n) eqn:E; cbn [option_map]; [|discriminate].
  apply Nat.ltb_lt in E. intros Hs. inversion Hs; subst. auto.
Qed.

Lemma scheduled_submits_length interval n :
  length (scheduled_submits interval n) = n.
Proof. unfold scheduled_submits. rewrite length_map, length_seq. reflexivity. Qed.

Lemma iteration_keeps_lockstep a s w again s' w' :
  encode_iteration a s w = Ret (again, s') w' ->
  frame_count s = frames_encoded s ->
  frame_count s' = frames_encoded s'.
Proof.
  intros Ex Heq.
  destruct (encode_iteration_cases a s w)
    as [(_ & Ex')|(_ & w1 & t & _ & _ & _ & [(Ex' & _)|(_ & _ & Ex' & _)])];
    rewrite Ex' in Ex; inversion Ex; subst; cbn [frame_count frames_encoded];
    congruence.
Qed.

Lemma loop_head_lockstep a s0 w0 s w :
  loop_head a s0 w0 s w ->
  frame_count s0 = frames_encoded s0 ->
  frame_count s = frames_encoded s.
Proof.
  induction 1 as [|s1 w1 s2 w2 _ IH Ex]; intros Heq; [exact Heq|].
  eapply iteration_keeps_lockstep; eauto.
Qed.

Lemma loop_head_prepend a s w s1 w1 s2 w2 :
  encode_iteration a s w = Ret (true, s1) w1 ->
  loop_head a s1 w1 s2 w2 ->
  loop_head a s w s2 w2.
Proof.
  intros Ex Hh. induction Hh as [|s2 w2 s3 w3 _ IH Ex'].
  - eapply head_next; [apply head_first|exact Ex].
  - eapply head_next; [exact IH|exact Ex'].
Qed.

(** The loop returns from a state it reached at its head. *)
Lemma encode_loop_exit_head a : forall fuel s w s' w',
  encode_loop fuel a s w = Ret s' w' ->
  exists s1 w1, loop_head a s w s1 w1 /\
                encode_iteration a s1 w1 = Ret (false, s') w'.
Proof.
  induction fuel as [|fuel IH]; intros s w s' w' Ex; [discriminate|].
  rewrite encode_loop_eq in Ex.
  destruct (encode_iteration a s w) as [[again s1] w1|st w1|] eqn:Ei;
    try discriminate.
  destruct again.
  - destruct (IH _ _ _ _ Ex) as (s2 & w2 & Hh & E2).
    exists s2, w2. split; [|exact E2].
    eapply loop_head_prepend; eauto.
  - inversion Ex; subst. exists s, w. split; [apply head_first|exact Ei].
Qed.

(** C1 (keyframe schedule). Whether a keyframe is forced depends on the
    frame index and the interval only: it is forced exactly when the
    interval is positive and divides the index (C's remainder and the
    mathematical modulus agree on that), so with a positive interval frame
    0 is forced and with interval 0 no frame is.  In every run, each real
    frame is submitted with the flags this schedule gives its index: the
    force-keyframe flag or no flag at all. *)
Theorem keyframe_forced_iff_interval_divides_index fuel E a w' n interval :
  world_of (main_body fuel E a init_world) = Some w' ->
  (force_keyframe n interval = true <-> 0 < interval /\ Z.rem n interval = 0) /\
  (force_keyframe n interval = true <-> 0 < interval /\ n mod interval = 0) /\
  force_keyframe 0 interval = (0 <? interval) /\
  force_keyframe n 0 = false /\
  keyframe_flags n interval =
    (if force_keyframe n interval then AOM_EFLAG_FORCE_KF else 0) /\
  Forall (fun sub => snd sub = keyframe_flags (fst sub) (keyframe_interval a))
         (real_submits (trace w')).
Proof.
  intros Hw.
  assert (Hrem : force_keyframe n interval = true <->
                 0 < interval /\ Z.rem n interval = 0).
  { unfold force_keyframe. rewrite andb_true_iff, Z.gtb_lt, Z.eqb_eq.
    reflexivity. }
  split; [exact Hrem|]. split.
  { rewrite Hrem. split; intros (Hi & Hz); (split; [exact Hi|]);
      apply (rem_zero_iff_mod_zero n interval Hi); exact Hz. }
  split.
  { destruct interval; reflexivity. }
  split; [reflexivity|]. split.
  { unfold keyframe_flags. destruct (force_keyframe n interval); reflexivity. }
  destruct (main_body_run fuel E a init_world w' Hw) as (m & k & R & _).
  cbn [init_world trace real_submits flat_map app] in R. rewrite R.
  apply Forall_forall. intros [pts flags] Hin.
  apply In_nth_error in Hin. destruct Hin as (j & Hj).
  apply scheduled_submits_nth in Hj. cbn [fst snd]. tauto.
Qed.

(** C8 (time stamps). In every run, however it ends, the k-th real frame
    submitted (counting from 0) carries the frame index k as its
    presentation time stamp, and every real frame submitted before it a
    smaller one: the time stamps of the real submissions increase
    strictly.  The index is an [int]: this is for k up to [INT_MAX], which
    a run with a frame cap (as the program has it) never exceeds; in
    general the time stamp is k wrapped to 32 bits. *)
Theorem real_submissions_carry_their_index fuel E a w' k pts flags :
  world_of (main_body fuel E a init_world) = Some w' ->
  nth_error (real_submits (trace w')) k = Some (pts, flags) ->
  pts = int_wrap (Z.of_nat k) /\
  (Z.of_nat k <= INT_MAX ->
   pts = Z.of_nat k /\
   forall j pts' flags',
     (j < k)%nat ->
     nth_error (real_submits (trace w')) j = Some (pts', flags') ->
     pts' = Z.of_nat j /\ pts' < pts) /\
  (0 < max_frames a <= INT_MAX -> Z.of_nat k < max_frames a <= INT_MAX).
Proof.
  intros Hw Hk.
  assert (Hcap : 0 < max_frames a <= INT_MAX ->
                 Z.of_nat k < max_frames a <= INT_MAX).
  { intros Hmf. pose proof (main_body_at_most fuel E a w' Hmf Hw) as Hle.
    assert (Hlt : (k < length (real_submits (trace w')))%nat).
    { apply nth_error_Some. rewrite Hk. discriminate. }
    lia. }
  destruct (main_body_run fuel E a init_world w' Hw) as (m & fl & R & _).
  cbn [init_world trace real_submits flat_map app] in R. rewrite R in *.
  apply scheduled_submits_nth in Hk. destruct Hk as (_ & Hp & _).
  split; [exact Hp|]. split; [|exact Hcap]. intros Hmax.
  assert (Hpk : pts = Z.of_nat k).
  { rewrite Hp. apply int_wrap_small. unfold INT_MAX in *. lia. }
  split; [exact Hpk|].
  intros j pts' flags' Hj Hnj.
  apply scheduled_submits_nth in Hnj. destruct Hnj as (_ & Hp' & _).
  assert (Hpj : pts' = Z.of_nat j).
  { rewrite Hp'. apply int_wrap_small. unfold INT_MAX in *. lia. }
  split; [exact Hpj|lia].
Qed.

(** C9 (the two counters). From the state [setup] leaves, [frame_count]
    and [frames_encoded] are equal every time the main loop comes round to
    its head and when it is left; and a run that returns has printed
    "Processed N frames." with N the number of real frames it submitted
    (as an [int]: exactly that number up to [INT_MAX], which a run with
    a frame cap never exceeds). *)
Theorem frame_counters_stay_in_lockstep fuel E a s0 w0 :
  setup E a init_world = Ret s0 w0 ->
  (forall s w, loop_head a s0 w0 s w -> frame_count s = frames_encoded s) /\
  (forall s w, encode_loop fuel a s0 w0 = Ret s w ->
               frame_count s = frames_encoded s /\
               exists s1 w1, loop_head a s0 w0 s1 w1 /\
                             encode_iteration a s1 w1 = Ret (false, s) w) /\
  (forall st w',
     main_body fuel E a init_world = Ret st w' ->
     let submitted := Z.of_nat (length (real_submits (trace w'))) in
     (exists t, trace w' = t ++ teardown_events (int_wrap submitted)) /\
     (submitted <= INT_MAX ->
      In (EvPrintf "Processed %d frames.\n" [PInt submitted]) (trace w')) /\
     (0 < max_frames a <= INT_MAX -> submitted <= max_frames a <= INT_MAX)).
Proof.
  intros E0.
  destruct (setup_returns E a _ _ _ E0) as (Hfc & Hfe).
  assert (H0 : frame_count s0 = frames_encoded s0) by congruence.
  split; [intros s w Hh; eapply loop_head_lockstep; eauto|].
  split.
  - intros s w Ex.
    destruct (encode_loop_exit_head a fuel s0 w0 s w Ex) as (s1 & w1 & Hh & Ei).
    split; [|eauto].
    eapply iteration_keeps_lockstep; [exact Ei|].
    eapply loop_head_lockstep; eauto.
  - intros st w' Hr submitted.
    destruct (main_body_run fuel E a init_world w') as (n & k & R & _ & Hret).
    { rewrite Hr. reflexivity. }
    cbn [init_world trace real_submits flat_map app] in R.
    destruct (Hret st Hr) as (_ & t & Ht).
    assert (Hn : submitted = Z.of_nat n).
    { subst submitted. rewrite R, scheduled_submits_length. reflexivity. }
    assert (Hcap : 0 < max_frames a <= INT_MAX ->
                   submitted <= max_frames a <= INT_MAX).
    { intros Hmf. split; [|lia]. subst submitted.
      apply (main_body_at_most fuel E a w' Hmf). rewrite Hr. reflexivity. }
    rewrite Hn in *. split; [eauto|]. split; [|exact Hcap].
    intros Hmax. rewrite Ht. apply in_or_app. right.
    rewrite int_wrap_small by (unfold INT_MAX in *; lia).
    cbn [teardown_events]. right. right. left. reflexivity.
Qed.

End ScheduleFacts.

(** ** Failures before the first frame *)

Section SetupFailures.
Context `{AomLib}.

(** [main] fixes its arguments in its text, at values that pass every
    check of [setup]: as it stands, the program meets no configuration
    error. *)
Lemma hard_coded_is_well_configured argv0 :
  ~ configuration_error (hard_coded argv0).
Proof.
  intros [Hc|[Hg|Hi]].
  - unfold unknown_codec in Hc. rewrite get_aom_encoder_by_name_av1 in Hc.
    discriminate Hc.
  - destruct Hg as [Hg|[Hg|[Hg|Hg]]]; cbv in Hg; congruence.
  - cbv in Hi. discriminate Hi.
Qed.


(** C7 (initialisation failure). When everything up to the call of
    [aom_codec_enc_init] goes well and that call reports an error, the run
    exits with a non-zero status; it has made no [fread] on the input, has
    written nothing to the (freshly opened) output, and after the failed
    call it has only asked the context for its error strings and printed
    them: no operation of the session follows. *)
Theorem init_failure_aborts_before_first_frame fuel E a raw0 data r :
  codec_arg a = "av1" ->
  ~ invalid_geometry a ->
  aom_img_alloc AOM_IMG_FMT_I420 (frame_width a) (frame_height a) 1
    = Some raw0 ->
  0 <= keyframe_interval a ->
  fst (aom_codec_enc_config_default aom_codec_av1_cx 0) = 0 ->
  fs_read E (infile_arg a) = Some data ->
  fs_write E (outfile_arg a) = Some r ->
  fst (aom_codec_enc_init aom_codec_av1_cx (main_cfg a) 0) <> 0 ->
  let res := fst (aom_codec_enc_init aom_codec_av1_cx (main_cfg a) 0) in
  let c := snd (aom_codec_enc_init aom_codec_av1_cx (main_cfg a) 0) in
  let after := die_codec_events c "Failed to initialize encoder" in
  exists w,
    main_body fuel E a init_world = Exit EXIT_FAILURE w /\
    EXIT_FAILURE <> 0 /\
    trace w = setup_prefix a ++ EvEncInit (main_cfg a) 0 res :: after /\
    Forall (fun e => is_session_op e = false) after /\
    In (EvPrintf "%s: %s\n" [PStr "Failed to initialize encoder";
                             PStr (aom_codec_error c)]) after /\
    (forall d, aom_codec_error_detail c = Some d ->
               In (EvPrintf "    %s\n" [PStr d]) after) /\
    real_submits (trace w) = [] /\ flush_submits (trace w) = [] /\
    infile w = mk_FILE data [] /\
    freads (infile w) = [] /\
    written (outfile w) = [].
Proof.
  intros Hc Hg Ha Hk Hcfg Hin Hout Hinit res c after.
  unfold main_body. unfold bind at 1.
  rewrite (setup_reaches_init E a init_world raw0 data r Hc Hg Ha Hk Hcfg
             Hin Hout).
  cbv zeta. fold res. fold c.
  destruct (res =? 0) eqn:Er; [apply Z.eqb_eq in Er; contradiction|].
  eexists. split; [reflexivity|]. split; [discriminate|].
  cbn [trace infile outfile init_world app unread freads written].
  split; [rewrite <- app_assoc; reflexivity|].
  assert (Hq : Forall (fun e => is_session_op e = false) after).
  { subst after. unfold die_codec_events.
    destruct (aom_codec_error_detail c); repeat constructor. }
  split; [exact Hq|]. split.
  { subst after. unfold die_codec_events. cbn. auto. }
  split.
  { intros d Hd. subst after. unfold die_codec_events. rewrite Hd. cbn. auto. }
  assert (Hsub : forall e, is_session_op e = false -> is_submit e = false).
  { intros e. destruct e; cbn; congruence. }
  assert (Hq' : Forall quiet after).
  { eapply Forall_impl; [|exact Hq]. exact Hsub. }
  rewrite <- app_assoc, !real_submits_app, !flush_submits_app.
  fold after.
  rewrite (no_submit_real _ Hq'), (no_submit_flush _ Hq').
  repeat split; reflexivity.
Qed.

End SetupFailures.

(** ** Runs that stop at the frame cap *)

Section CappedRuns.
Context `{AomLib}.

Lemma aom_img_read_whole img file :
  geometry_stable ->
  (frame_bytes img <= length (unread file))%nat ->
  exists img',
    aom_img_read img file =
      (1, img', mk_FILE (skipn (frame_bytes img) (unread file))
                        (freads file ++ frame_reads img)) /\
    same_geometry img img'.
Proof.
  intros G Hl. unfold aom_img_read, frame_bytes, frame_reads in *.
  pose proof (read_planes_spec 3 0 img file G) as R.
  destruct (read_planes 3 0 img file) as [[r img'] file'].
  destruct R as (S & [(Hr & _ & Hu & Hf)|(_ & Hlt & _)]); [|lia].
  exists img'. split; [|exact S]. subst r.
  destruct file' as [u f]. cbn [unread freads] in *. subst. reflexivity.
Qed.

Lemma frame_bytes_stable img img' :
  geometry_stable -> same_geometry img img' ->
  frame_bytes img' = frame_bytes img.
Proof. intros G S. apply planes_bytes_stable; assumption. Qed.

Lemma frame_reads_stable img img' :
  geometry_stable -> same_geometry img img' ->
  frame_reads img' = frame_reads img.
Proof. intros G S. apply planes_reads_stable; assumption. Qed.

Lemma encode_loop_fuel a : forall n s w,
  encode_loop n a s w <> OutOfFuel ->
  forall m, (n <= m)%nat -> encode_loop m a s w = encode_loop n a s w.
Proof.
  induction n as [|n IH]; intros s w Hr m Hm.
  - exfalso. apply Hr. reflexivity.
  - destruct m as [|m]; [lia|].
    rewrite (encode_loop_eq n) in Hr.
    rewrite (encode_loop_eq n), (encode_loop_eq m).
    destruct (encode_iteration a s w) as [[again s'] w'|st w'|];
      try reflexivity.
    destruct again; [|reflexivity]. apply IH; [exact Hr|lia].
Qed.

(** With [m] whole frames ahead in the input and [m] frames to go to the
    cap, the loop takes exactly [m] frames and returns. *)
Lemma encode_loop_capped a :
  never_fails -> geometry_stable ->
  forall m s w,
    (1 <= m)%nat ->
    0 <= frame_count s -> frame_count s + Z.of_nat m <= INT_MAX ->
    0 <= frames_encoded s ->
    frames_encoded s + Z.of_nat m = max_frames a ->
    max_frames a <= INT_MAX ->
    room (outfile w) = None ->
    (m * frame_bytes (raw s) <= length (unread (infile w)))%nat ->
    exists s' w',
      encode_loop m a s w = Ret s' w' /\
      frame_count s' = frame_count s + Z.of_nat m /\
      same_geometry (raw s) (raw s') /\
      unread (infile w') =
        skipn (m * frame_bytes (raw s)) (unread (infile w)) /\
      freads (infile w') =
        freads (infile w) ++ List.concat (repeat (frame_reads (raw s)) m) /\
      room (outfile w') = None /\
      real_submits (trace w') =
        real_submits (trace w) ++
        map (fun k => (frame_count s + Z.of_nat k,
                       keyframe_flags (frame_count s + Z.of_nat k)
                                      (keyframe_interval a)))
            (seq 0 m).
Proof.
  intros [Henc Hdes] G.
  induction m as [|m IH]; intros s w Hm Hfc Hfcm Hfe Hfem Hmax Hroom Hdata;
    [lia|].
  rewrite encode_loop_eq.
  destruct (aom_img_read_whole (raw s) (infile w) G) as (raw1 & Erd & Sg);
    [lia|].
  pose proof (encode_iteration_cases a s w) as C. cbv zeta in C.
  rewrite Erd in C. cbn [fst snd] in C.
  set (flags := keyframe_flags (frame_count s) (keyframe_interval a)) in *.
  set (enc := aom_codec_encode (codec s) (Some raw1) (frame_count s) 1 flags)
    in *.
  destruct C as [(Hr & _)|(_ & w1 & t & Hi & Ht & Hq &
                           [(_ & [Hres|Hf])|(_ & _ & Ex & Hr1 & _)])].
  - discriminate.
  - exfalso. apply Hres. apply Henc.
  - rewrite Hroom in Hf. discriminate.
  - rewrite Ex. rewrite Hroom in Hr1. cbn [room_after] in Hr1.
    assert (Hrs : real_submits (trace w1) =
                  real_submits (trace w) ++ [(frame_count s, flags)]).
    { rewrite Ht, real_submits_app.
      match goal with |- context [real_submits (?e :: t)] =>
        change (e :: t) with ([e] ++ t) end.
      rewrite real_submits_app, (no_submit_real _ Hq), app_nil_r.
      reflexivity. }
    assert (Hw1 : int_wrap (frame_count s + 1) = frame_count s + 1).
    { apply int_wrap_small. unfold INT_MAX in *. lia. }
    assert (Hw2 : int_wrap (frames_encoded s + 1) = frames_encoded s + 1).
    { apply int_wrap_small. unfold INT_MAX in *. lia. }
    rewrite Hw1, Hw2.
    assert (Hpos : (max_frames a >? 0) = true) by (apply Z.gtb_lt; lia).
    rewrite Hpos. cbn [andb].
    set (s1 := mk_loop (snd enc) raw1 (frame_count s + 1)
                       (frames_encoded s + 1)).
    destruct m as [|m'].
    + (* the cap is reached *)
      assert (Hge : (frames_encoded s + 1 >=? max_frames a) = true).
      { apply Z.geb_le. lia. }
      rewrite Hge. cbn [negb].
      exists s1, w1. split; [reflexivity|]. subst s1. cbn [frame_count raw].
      split; [lia|]. split; [exact Sg|].
      rewrite Hi. cbn [unread freads repeat List.concat seq map Z.of_nat].
      rewrite app_nil_r, Nat.mul_1_l, Z.add_0_r.
      repeat split; auto.
    + assert (Hge : (frames_encoded s + 1 >=? max_frames a) = false).
      { rewrite Z.geb_leb. apply Z.leb_gt. lia. }
      rewrite Hge. cbn [negb].
      destruct (IH s1 w1) as (s' & w' & Ex' & Hc' & Sg' & Hu' & Hf' & Hr' & Hs');
        subst s1; cbn [frame_count frames_encoded raw] in *;
        try lia; auto.
      { rewrite Hi. cbn [unread].
        rewrite (frame_bytes_stable (raw s) raw1 G Sg), length_skipn. lia. }
      exists s', w'. split; [exact Ex'|]. split; [lia|].
      split; [eapply same_geometry_trans; eauto|].
      rewrite (frame_bytes_stable (raw s) raw1 G Sg) in Hu'.
      rewrite (frame_reads_stable (raw s) raw1 G Sg) in Hf'.
      rewrite Hi in Hu', Hf'. cbn [unread freads] in Hu', Hf'.
      split.
      { rewrite Hu', skipn_skipn. f_equal. lia. }
      split.
      { rewrite Hf', <- app_assoc. reflexivity. }
      split; [exact Hr'|].
      rewrite Hs', Hrs, <- app_assoc. f_equal.
      change (seq 0 (S (S m'))) with (0%nat :: seq 1 (S m')).
      rewrite <- seq_shift, map_cons, map_map.
      change (Z.of_nat 0) with 0. rewrite Z.add_0_r. cbn [app]. f_equal.
      apply map_ext. intros k.
      replace (frame_count s + 1 + Z.of_nat k)
        with (frame_count s + Z.of_nat (S k)) by lia.
      reflexivity.
Qed.

(** With a session that never fails and an output that takes everything,
    the flush loop returns. *)
Lemma flush_loop_ok held :
  never_fails -> lookahead_bound held ->
  forall fuel c w,
    (held c < fuel)%nat -> room (outfile w) = None ->
    exists c' w' k t,
      flush_loop fuel c w = Ret c' w' /\
      (1 <= k)%nat /\
      flush_submits (trace w') = flush_submits (trace w) ++ repeat (-1, 0) k /\
      real_submits (trace w') = real_submits (trace w) /\
      infile w' = infile w /\
      trace w' = t ++ empty_cycle.
Proof.
  intros [Henc Hdes] Hb.
  induction fuel as [|fuel IH]; intros c w Hlt Hroom; [lia|].
  rewrite flush_loop_eq.
  pose proof (Hb c) as Hdec.
  destruct (encode_frame_cases c None (-1) 0 w)
    as [(Hres & Hf & w1 & Ex & Hw & Hr & Hi & Ht)|
        ([Hres|Hf] & _)].
  2:{ exfalso. apply Hres. apply Henc. }
  2:{ rewrite Hroom in Hf. discriminate. }
  rewrite Ex.
  set (c1 := snd (aom_codec_encode c None (-1) 1 0)) in *.
  assert (Hfs : flush_submits (trace w1)
                = flush_submits (trace w) ++ [(-1, 0)]).
  { rewrite Ht, !flush_submits_app.
    rewrite (no_submit_flush _ (drain_events_quiet _)), app_nil_r.
    reflexivity. }
  assert (Hrs : real_submits (trace w1) = real_submits (trace w)).
  { rewrite Ht, !real_submits_app.
    rewrite (no_submit_real _ (drain_events_quiet _)), !app_nil_r.
    reflexivity. }
  rewrite Hroom in Hr. cbn [room_after] in Hr.
  destruct (cx_data c1) as [|pkt rest] eqn:Ecx.
  - exists c1, w1, 1%nat, (trace w). split; [reflexivity|]. split; [lia|].
    split; [exact Hfs|]. split; [exact Hrs|]. split; [exact Hi|].
    rewrite Ht, Hres, <- app_assoc. reflexivity.
  - assert (Hlt1 : (held c1 < held c)%nat).
    { apply Hdec; [exact Hres|discriminate]. }
    destruct (IH c1 w1) as (c' & w' & k & t & Ex' & Hk & Hfs' & Hrs' & Hi' & Ht');
      [lia|exact Hr|].
    exists c', w', (S k), t. split; [exact Ex'|]. split; [lia|]. split.
    { rewrite Hfs', Hfs, <- app_assoc. reflexivity. }
    split; [congruence|]. split; [congruence|]. exact Ht'.
Qed.

(** C5 (frame cap). With a positive frame cap, at least that many whole
    frames in the input, a session that reports no error and has a bounded
    lookahead, and an output that takes everything: the run returns
    [EXIT_SUCCESS] (given enough fuel for its loops).  It has read exactly
    [max_frames] frames, row by row, and the rest of the input is untouched;
    it has submitted the frames 0 .. [max_frames]-1; after them it has
    flushed, at least once and until a NULL submission drained nothing;
    and it has then printed "Processed [max_frames] frames.". *)
Theorem frame_cap_stops_reading_then_flushes held E a raw0 data :
  never_fails -> lookahead_bound held -> geometry_stable ->
  codec_arg a = "av1" ->
  ~ invalid_geometry a ->
  aom_img_alloc AOM_IMG_FMT_I420 (frame_width a) (frame_height a) 1
    = Some raw0 ->
  0 <= keyframe_interval a ->
  fst (aom_codec_enc_config_default aom_codec_av1_cx 0) = 0 ->
  fs_read E (infile_arg a) = Some data ->
  fs_write E (outfile_arg a) = Some None ->
  fst (aom_codec_enc_init aom_codec_av1_cx (main_cfg a) 0) = 0 ->
  0 < max_frames a <= INT_MAX ->
  (Z.to_nat (max_frames a) * frame_bytes raw0 <= length data)%nat ->
  exists fuel0, forall fuel, (fuel0 <= fuel)%nat ->
  exists w' t k,
    main_body fuel E a init_world = Ret EXIT_SUCCESS w' /\
    unread (infile w') =
      skipn (Z.to_nat (max_frames a) * frame_bytes raw0) data /\
    freads (infile w') =
      List.concat (repeat (frame_reads raw0) (Z.to_nat (max_frames a))) /\
    real_submits (trace w') =
      map (fun i => (Z.of_nat i,
                     keyframe_flags (Z.of_nat i) (keyframe_interval a)))
          (seq 0 (Z.to_nat (max_frames a))) /\
    flush_submits (trace w') = repeat (-1, 0) k /\ (1 <= k)%nat /\
    trace w' = t ++ empty_cycle ++ teardown_events (max_frames a).
Proof.
  intros Hnf Hb G Hc Hg Ha Hk Hcfg Hin Hout Hinit Hmf Hdata.
  pose proof (setup_reaches_init E a init_world raw0 data None Hc Hg Ha Hk
                Hcfg Hin Hout) as Es.
  cbv zeta in Es. rewrite Hinit in Es. cbn [Z.eqb] in Es.
  cbn [trace infile outfile init_world app] in Es.
  match type of Es with _ = Ret ?s ?w => set (s0 := s) in *; set (w0 := w) in * end.
  assert (Hq0 : real_submits (trace w0) = [] /\ flush_submits (trace w0) = []).
  { destruct (quiet_submits init_world w0) as (R & F); [|auto].
    apply (setup_quiet E a). rewrite Es. reflexivity. }
  destruct Hq0 as (R0 & F0).
  set (m := Z.to_nat (max_frames a)) in *.
  destruct (encode_loop_capped a Hnf G m s0 w0)
    as (s1 & w1 & E1 & Hc1 & Sg1 & Hu1 & Hf1 & Hr1 & Hs1);
    subst s0 w0; cbn [frame_count frames_encoded raw infile outfile
                      unread freads room] in *;
    try (subst m; unfold INT_MAX in *; lia); auto.
  match type of E1 with encode_loop _ _ ?s ?w = _ =>
    set (s0 := s) in *; set (w0 := w) in * end.
  assert (F1 : flush_submits (trace w1) = flush_submits (trace w0)).
  { destruct (encode_loop_submits a m s0 w0 w1) as (n & _ & F & _);
      try reflexivity; [rewrite E1; reflexivity|exact F]. }
  exists (Nat.max m (S (held (codec s1)))). intros fuel Hfuel.
  destruct (flush_loop_ok held Hnf Hb fuel (codec s1) w1)
    as (c2 & w2 & k & t & E2 & Hk2 & Hfs2 & Hrs2 & Hi2 & Ht2); [lia|exact Hr1|].
  set (s2 := mk_loop c2 (raw s1) (frame_count s1) (frames_encoded s1)).
  destruct (teardown_cases s2 w2) as [(_ & Et)|(Hd & _)].
  2:{ exfalso. apply Hd. apply Hnf. }
  exists (mk_world (trace w2 ++ teardown_events (frame_count s2))
                   (infile w2) (outfile w2)), t, k.
  split.
  { unfold main_body, bind. rewrite Es.
    rewrite (encode_loop_fuel a m s0 w0) by (try rewrite E1; try discriminate; lia).
    rewrite E1, E2. exact Et. }
  cbn [trace infile outfile]. rewrite Hi2, Hu1, Hf1.
  split; [reflexivity|]. split; [reflexivity|].
  rewrite real_submits_app, flush_submits_app.
  cbn [teardown_events real_submits flush_submits flat_map app].
  rewrite !app_nil_r, Hrs2, Hfs2, Hs1, F1, R0, F0.
  cbn [app]. split.
  { apply map_ext. intros i. reflexivity. }
  split; [reflexivity|]. split; [exact Hk2|].
  rewrite Ht2, <- app_assoc. subst s2. cbn [frame_count].
  rewrite Hc1. subst m. rewrite Z2Nat.id by lia. reflexivity.
Qed.

End CappedRuns.

(** ** The test double at work *)

Lemma fake_geometry_stable p : @geometry_stable (Fake.lib p).
Proof.
  intros img img' pl (Hf & Hw & Hh & Hx & Hy & Hs). cbn.
  unfold Fake.plane_width, Fake.plane_height.
  rewrite Hw, Hh, Hx, Hy. split; reflexivity.
Qed.

Lemma fake_lookahead_bound p : @lookahead_bound (Fake.lib p) Fake.pending.
Proof.
  intros c. cbn. unfold Fake.encode, Fake.pending.
  destruct (Fake.queue c) as [|pkt q]; cbn.
  - destruct (Fake.stats c); cbn; intros _ Hne; [lia|contradiction].
  - intros _ _. lia.
Qed.

Lemma fake_never_fails p : @never_fails (Fake.lib p).
Proof.
  split; [|reflexivity].
  intros c img pts duration flags. cbn. unfold Fake.encode.
  destruct img as [im|].
  - destruct (Nat.leb _ _); reflexivity.
  - destruct (Fake.queue c); [destruct (Fake.stats c)|]; reflexivity.
Qed.

Lemma keyframe_forced_iff_interval_divides_index_witness :
  let w' := Fake.final_world
              (Fake.run Fake.double 10 (Fake.fs Fake.three_frames None)
                        (Fake.args 2 0)) in
  (force_keyframe 4 2 = true <-> 0 < 2 /\ Z.rem 4 2 = 0) /\
  (force_keyframe 4 2 = true <-> 0 < 2 /\ 4 mod 2 = 0) /\
  force_keyframe 0 2 = (0 <? 2) /\
  force_keyframe 4 0 = false /\
  @keyframe_flags (Fake.lib Fake.double) 4 2 =
    (if force_keyframe 4 2
     then @AOM_EFLAG_FORCE_KF (Fake.lib Fake.double) else 0) /\
  Forall (fun sub => snd sub = @keyframe_flags (Fake.lib Fake.double)
                                 (fst sub) 2)
         (real_submits (trace w')).
Proof.
  apply (@keyframe_forced_iff_interval_divides_index (Fake.lib Fake.double)
           10%nat (Fake.fs Fake.three_frames None) (Fake.args 2 0)).
  vm_compute. reflexivity.
Defined.

Lemma fake_blank_fits q :
  (q < 3)%nat -> @plane_fits (Fake.lib Fake.double) Fake.blank q.
Proof.
  intros Hq.
  destruct q as [|[|[|q]]]; [| | |lia]; vm_compute; repeat split;
    try discriminate; lia.
Qed.

Lemma aom_img_read_all_or_nothing_witness :
  @geometry_stable (Fake.lib Fake.double) /\
  (forall q, (q < 3)%nat -> @plane_fits (Fake.lib Fake.double) Fake.blank q) /\
  match @aom_img_read (Fake.lib Fake.double) Fake.blank
          (mk_FILE Fake.three_frames []) with
  | (r, img', file') =>
      same_geometry Fake.blank img' /\
      (r = 1 <-> (@frame_bytes (Fake.lib Fake.double) Fake.blank
                  <= length Fake.three_frames)%nat) /\
      ((r = 1 /\
        unread file' = skipn (@frame_bytes (Fake.lib Fake.double) Fake.blank)
                             Fake.three_frames /\
        freads file' = [] ++ @frame_reads (Fake.lib Fake.double) Fake.blank /\
        Forall complete (@frame_reads (Fake.lib Fake.double) Fake.blank) /\
        ((forall q, (q < 3)%nat ->
                    @plane_fits (Fake.lib Fake.double) Fake.blank q) ->
         forall q y,
           (q < 3)%nat ->
           (y < @plane_rows (Fake.lib Fake.double) Fake.blank q)%nat ->
           @row (Fake.lib Fake.double) img' q y =
           firstn (@row_bytes (Fake.lib Fake.double) Fake.blank q)
                  (skipn (@planes_bytes (Fake.lib Fake.double) q 0 Fake.blank
                          + y * @row_bytes (Fake.lib Fake.double) Fake.blank q)
                         Fake.three_frames))) \/
       (r = 0 /\
        (exists done n got rest,
           freads file' = [] ++ done ++ [(n, got)] /\
           (got < n)%nat /\ Forall complete done /\
           @frame_reads (Fake.lib Fake.double) Fake.blank
             = done ++ (n, n) :: rest) /\
        forall a s w,
          raw s = Fake.blank -> infile w = mk_FILE Fake.three_frames [] ->
          @encode_iteration (Fake.lib Fake.double) a s w =
            Ret (false, mk_loop (codec s) img' (frame_count s)
                                (frames_encoded s))
                (mk_world (trace w) file' (outfile w))))
  end.
Proof.
  split; [apply fake_geometry_stable|].
  split; [apply fake_blank_fits|].
  apply (@aom_img_read_all_or_nothing (Fake.lib Fake.double) Fake.blank
           (mk_FILE Fake.three_frames [])).
  apply fake_geometry_stable.
Defined.

Lemma flush_terminates_within_lookahead_witness :
  let L := Fake.lib Fake.double in
  let c := Fake.holding_two in
  let w := Fake.open_world in
  (Fake.pending c <= 2)%nat /\
  exists w',
    @flush_loop L 3 c w = Ret (@flush_ctx L 3 c) w' /\
    flush_submits (trace w') = [(-1, 0); (-1, 0); (-1, 0)] /\
    written (outfile w') = [x0a; x0b] /\
    forall fuel, (3 <= fuel)%nat -> @flush_loop L fuel c w = @flush_loop L 3 c w.
Proof.
  cbv zeta. split; [vm_compute; lia|].
  destruct (@flush_terminates_within_lookahead (Fake.lib Fake.double)
              Fake.pending 2%nat Fake.holding_two Fake.open_world
              (fake_lookahead_bound Fake.double))
    as (w' & k & Hk & _ & _ & Hfs & _ & Hend & Hfuel).
  { vm_compute. lia. }
  exists w'.
  destruct k as [|[|[|[|k]]]]; try lia; vm_compute in Hend;
    destruct Hend as (Hcx & Hret & Hw & _); try discriminate.
  injection Hret as Hw'. subst w'.
  split; [vm_compute; reflexivity|].
  split; [exact Hfs|]. split; [exact Hw|exact Hfuel].
Defined.

Lemma encode_frame_counts_every_packet_witness :
  let L := Fake.lib Fake.double in
  let c := Fake.mk_ctx [] [] true false in
  let w := init_world in
  let c1 := snd (@aom_codec_encode L c None (-1) 1 0) in
  fst (@aom_codec_encode L c None (-1) 1 0) = 0 /\
  @cx_data L c1 = [AOM_CODEC_OTHER_PKT 1] /\
  room (outfile w) = Some 0%nat /\
  exists w',
    @encode_frame L c None (-1) 0 w = Ret (1, c1) w' /\
    drained (trace w') = drained (trace w) ++ [AOM_CODEC_OTHER_PKT 1] /\
    written (outfile w') = written (outfile w) /\
    forall fuel, @flush_loop L (S fuel) c w = @flush_loop L fuel c1 w'.
Proof.
  cbv zeta. split; [reflexivity|]. split; [reflexivity|].
  split; [reflexivity|].
  destruct (@encode_frame_counts_every_packet (Fake.lib Fake.double)
              (Fake.mk_ctx [] [] true false) None (-1) 0 init_world
              eq_refl) as (_ & Hinfo).
  destruct Hinfo as (w' & Ex & Hd & Hw & Hloop).
  - intros pkt [<-|[]]. exists 1. reflexivity.
  - discriminate.
  - exists w'. split; [exact Ex|]. split; [exact Hd|]. split; [exact Hw|].
    apply Hloop; reflexivity.
Defined.

Lemma frame_cap_stops_reading_then_flushes_witness :
  (0 < max_frames (Fake.args 2 2) <= INT_MAX) /\
  (Z.to_nat (max_frames (Fake.args 2 2))
   * @frame_bytes (Fake.lib Fake.double) Fake.blank
   <= length Fake.three_frames)%nat /\
  exists fuel0, forall fuel, (fuel0 <= fuel)%nat ->
  exists w' t k,
    Fake.run Fake.double fuel (Fake.fs Fake.three_frames None) (Fake.args 2 2)
      = Ret EXIT_SUCCESS w' /\
    unread (infile w') =
      skipn (Z.to_nat (max_frames (Fake.args 2 2))
             * @frame_bytes (Fake.lib Fake.double) Fake.blank)
            Fake.three_frames /\
    freads (infile w') =
      List.concat (repeat (@frame_reads (Fake.lib Fake.double) Fake.blank)
                          (Z.to_nat (max_frames (Fake.args 2 2)))) /\
    real_submits (trace w') =
      map (fun i => (Z.of_nat i,
                     @keyframe_flags (Fake.lib Fake.double) (Z.of_nat i)
                       (keyframe_interval (Fake.args 2 2))))
          (seq 0 (Z.to_nat (max_frames (Fake.args 2 2)))) /\
    flush_submits (trace w') = repeat (-1, 0) k /\ (1 <= k)%nat /\
    trace w' = t ++ empty_cycle
                 ++ teardown_events (max_frames (Fake.args 2 2)).
Proof.
  split; [vm_compute; split; [reflexivity|discriminate]|].
  split; [vm_compute; lia|].
  apply (@frame_cap_stops_reading_then_flushes (Fake.lib Fake.double)
           Fake.pending (Fake.fs Fake.three_frames None) (Fake.args 2 2)
           Fake.blank Fake.three_frames).
  - apply fake_never_fails.
  - apply fake_lookahead_bound.
  - apply fake_geometry_stable.
  - reflexivity.
  - vm_compute. intros [Hx|[Hx|[Hx|Hx]]]; apply Hx; reflexivity.
  - reflexivity.
  - vm_compute. discriminate.
  - reflexivity.
  - reflexivity.
  - reflexivity.
  - reflexivity.
  - vm_compute. split; [reflexivity|discriminate].
  - vm_compute. lia.
Defined.

(** On arguments with a negative keyframe interval (and everything else
    in order) the run ends in the usage report, but [aom_img_alloc] has
    been called, and has succeeded, before. *)
Lemma negative_interval_is_caught_after_allocation :
  @configuration_error (Fake.lib Fake.double) (Fake.args (-1) 0) /\
  ~ @caught_before_allocation (Fake.lib Fake.double) 0
      (Fake.fs Fake.three_frames None) (Fake.args (-1) 0).
Proof.
  split.
  - right. right. vm_compute. reflexivity.
  - intros (w & t & msg & args & Hrun & _ & Hno).
    vm_compute in Hrun. inversion Hrun; subst w. clear Hrun.
    unfold no_allocation in Hno. cbn [trace] in Hno.
    inversion Hno as [|e l He _]; subst. discriminate He.
Qed.


Lemma init_failure_aborts_before_first_frame_witness :
  fst (@aom_codec_enc_init (Fake.lib Fake.broken) tt
         (main_cfg (Fake.args 2 0)) 0) <> 0 /\
  let res := fst (@aom_codec_enc_init (Fake.lib Fake.broken) tt
                    (main_cfg (Fake.args 2 0)) 0) in
  let c := snd (@aom_codec_enc_init (Fake.lib Fake.broken) tt
                  (main_cfg (Fake.args 2 0)) 0) in
  let after := @die_codec_events (Fake.lib Fake.broken) c
                 "Failed to initialize encoder" in
  exists w,
    Fake.run Fake.broken 5 (Fake.fs Fake.three_frames None) (Fake.args 2 0)
      = Exit EXIT_FAILURE w /\
    EXIT_FAILURE <> 0 /\
    trace w = @setup_prefix (Fake.lib Fake.broken) (Fake.args 2 0)
              ++ EvEncInit (main_cfg (Fake.args 2 0)) 0 res :: after /\
    Forall (fun e => is_session_op e = false) after /\
    In (EvPrintf "%s: %s\n"
          [PStr "Failed to initialize encoder";
           PStr (@aom_codec_error (Fake.lib Fake.broken) c)]) after /\
    (forall d, @aom_codec_error_detail (Fake.lib Fake.broken) c = Some d ->
               In (EvPrintf "    %s\n" [PStr d]) after) /\
    real_submits (trace w) = [] /\ flush_submits (trace w) = [] /\
    infile w = mk_FILE Fake.three_frames [] /\
    freads (infile w) = [] /\
    written (outfile w) = [].
Proof.
  split; [vm_compute; discriminate|].
  apply (@init_failure_aborts_before_first_frame (Fake.lib Fake.broken) 5%nat
           (Fake.fs Fake.three_frames None) (Fake.args 2 0) Fake.blank
           Fake.three_frames None).
  - reflexivity.
  - vm_compute. intros [Hx|[Hx|[Hx|Hx]]]; apply Hx; reflexivity.
  - reflexivity.
  - vm_compute. discriminate.
  - reflexivity.
  - reflexivity.
  - reflexivity.
  - vm_compute. discriminate.
Defined.

Lemma real_submissions_carry_their_index_witness :
  let w' := Fake.final_world
              (Fake.run Fake.double 10 (Fake.fs Fake.three_frames None)
                        (Fake.args 2 0)) in
  nth_error (real_submits (trace w')) 2 = Some (2, 1) /\
  2 = int_wrap (Z.of_nat 2) /\
  (Z.of_nat 2 <= INT_MAX ->
   2 = Z.of_nat 2 /\
   forall j pts' flags',
     (j < 2)%nat ->
     nth_error (real_submits (trace w')) j = Some (pts', flags') ->
     pts' = Z.of_nat j /\ pts' < 2) /\
  (0 < max_frames (Fake.args 2 0) <= INT_MAX ->
   Z.of_nat 2 < max_frames (Fake.args 2 0) <= INT_MAX).
Proof.
  split; [vm_compute; reflexivity|].
  apply (@real_submissions_carry_their_index (Fake.lib Fake.double) 10%nat
           (Fake.fs Fake.three_frames None) (Fake.args 2 0) _ 2%nat 2 1).
  - vm_compute. reflexivity.
  - vm_compute. reflexivity.
Defined.

Lemma frame_counters_stay_in_lockstep_witness :
  exists s0 w0,
    @setup (Fake.lib Fake.double) (Fake.fs Fake.three_frames None)
      (Fake.args 2 0) init_world = Ret s0 w0 /\
    (forall s w, @loop_head (Fake.lib Fake.double) (Fake.args 2 0) s0 w0 s w ->
                 frame_count s = frames_encoded s) /\
    (forall s w,
       @encode_loop (Fake.lib Fake.double) 10 (Fake.args 2 0) s0 w0 = Ret s w ->
       frame_count s = frames_encoded s /\
       exists s1 w1,
         @loop_head (Fake.lib Fake.double) (Fake.args 2 0) s0 w0 s1 w1 /\
         @encode_iteration (Fake.lib Fake.double) (Fake.args 2 0) s1 w1
           = Ret (false, s) w) /\
    (forall st w',
       Fake.run Fake.double 10 (Fake.fs Fake.three_frames None) (Fake.args 2 0)
         = Ret st w' ->
       let submitted := Z.of_nat (length (real_submits (trace w'))) in
       (exists t, trace w' = t ++ teardown_events (int_wrap submitted)) /\
       (submitted <= INT_MAX ->
        In (EvPrintf "Processed %d frames.\n" [PInt submitted]) (trace w')) /\
       (0 < max_frames (Fake.args 2 0) <= INT_MAX ->
        submitted <= max_frames (Fake.args 2 0) <= INT_MAX)).
Proof.
  eexists. eexists. split; [cbv; reflexivity|].
  apply (@frame_counters_stay_in_lockstep (Fake.lib Fake.double) 10%nat
           (Fake.fs Fake.three_frames None) (Fake.args 2 0)).
  vm_compute. reflexivity.
Defined.

(** ** Sample runs *)

(** A whole frame: the three planes are filled, four rows are read. *)
Example read_whole_frame :
  @aom_img_read (Fake.lib Fake.double) Fake.blank
    (mk_FILE (Fake.frame_a ++ Fake.frame_b) []) =
  (1,
   mk_image 0x102 2 2 1 1 [[x01; x02; x03; x04]; [x05]; [x06]] [2; 1; 1],
   mk_FILE Fake.frame_b [(2, 2); (2, 2); (1, 1); (1, 1)]%nat).
Proof. vm_compute. reflexivity. Qed.

(** A stream that ends in the second row: the function returns 0 after
    that row's [fread]; the buffer has been overwritten as far as the
    stream went. *)
Example read_short_frame :
  @aom_img_read (Fake.lib Fake.double) Fake.blank
    (mk_FILE [x01; x02; x03] []) =
  (0,
   mk_image 0x102 2 2 1 1 [[x01; x02; x03; x00]; [x00]; [x00]] [2; 1; 1],
   mk_FILE [] [(2, 2); (2, 1)]%nat).
Proof. vm_compute. reflexivity. Qed.

(** The double holding two packets is flushed in three cycles, and both
    payloads reach the output in order. *)
Example flush_two_held_packets :
  exists c' w',
    @flush_loop (Fake.lib Fake.double) 3 Fake.holding_two Fake.open_world
      = Ret c' w' /\
    flush_submits (trace w') = [(-1, 0); (-1, 0); (-1, 0)] /\
    written (outfile w') = [x0a; x0b].
Proof. eexists. eexists. split; [vm_compute; reflexivity|]. split; reflexivity. Qed.

(** Three frames through the double with one packet of lookahead, a
    keyframe forced every second frame, no frame cap. *)
Example three_frames_run :
  let w' := Fake.final_world
              (Fake.run Fake.double 10 (Fake.fs Fake.three_frames None)
                        (Fake.args 2 0)) in
  Fake.run Fake.double 10 (Fake.fs Fake.three_frames None) (Fake.args 2 0)
    = Ret EXIT_SUCCESS w' /\
  real_submits (trace w') = [(0, 1); (1, 0); (2, 1)] /\
  flush_submits (trace w') = [(-1, 0); (-1, 0); (-1, 0)] /\
  written (outfile w') = [x01; x02; x11; x12; x21; x22] /\
  In (EvPrintf "Processed %d frames.\n" [PInt 3]) (trace w').
Proof.
  vm_compute. repeat split.
  repeat (first [left; reflexivity | right]).
Qed.

(** The program as it stands, where its input file does not exist. *)
Example main_without_its_input :
  exists w,
    @main (Fake.lib Fake.double) 0 (Fake.fs Fake.three_frames None)
      "simple_encoder" = Exit EXIT_FAILURE w /\
    trace w =
      [EvImgAlloc 0x102 416 240 1 true; EvIfaceName;
       EvPrintf "Using %s\n" [PStr "test double"]; EvConfigDefault 0 0;
       EvFopen "99_BasketballPass_416x240_50.yuv" "rb" false;
       EvStderr "Failed to open %s for reading."
                [PStr "99_BasketballPass_416x240_50.yuv"];
       EvStderr "\n" [];
       EvStderr usage_fmt [PStr "simple_encoder"]].
Proof. eexists. split; vm_compute; reflexivity. Qed.

(** ** The program with its fixed arguments *)

(** The program as it stands has a frame cap of 50: whatever the input
    and the session, it submits at most 50 real frames, the k-th with time
    stamp k. *)
Lemma main_submits_at_most_fifty `{AomLib} fuel E argv0 w' :
  world_of (main fuel E argv0) = Some w' ->
  exists n, (n <= 50)%nat /\
    map fst (real_submits (trace w')) = map Z.of_nat (seq 0 n).
Proof.
  unfold main. intros Hw.
  assert (Hmf : 0 < max_frames (hard_coded argv0) <= INT_MAX).
  { cbn. unfold INT_MAX. lia. }
  pose proof (main_body_at_most fuel E _ w' Hmf Hw) as Hle.
  destruct (main_body_run fuel E _ init_world w' Hw) as (n & k & R & _).
  cbn [init_world trace real_submits flat_map app] in R.
  rewrite R in *. rewrite scheduled_submits_length in Hle.
  cbn [max_frames hard_coded] in Hle.
  exists n. split; [lia|].
  unfold scheduled_submits. rewrite map_map. cbn [fst].
  apply map_ext_in. intros i Hi. apply in_seq in Hi.
  apply int_wrap_small. unfold INT_MAX. lia.
Qed.

(** ** Runs in order: the life cycle, the output and the diagnostics *)

Section Conformance.
Context `{AomLib}.

Lemma life_run_app q t1 t2 :
  life_run q (t1 ++ t2) =
  match life_run q t1 with
  | Some q' => life_run q' t2
  | None => None
  end.
Proof.
  revert q. induction t1 as [|e t1 IH]; intros q; cbn [life_run app]; auto.
  destruct (life_step q e); auto.
Qed.

Lemma life_run_passive q t :
  Forall (fun e => passive e = true) t -> life_run q t = Some q.
Proof.
  induction 1 as [|e t He _ IH]; cbn [life_run]; auto.
  destruct e; cbn in He; try discriminate; cbn [life_step]; exact IH.
Qed.

(** The error strings of [die_codec], asked where they may be. *)
Lemma life_run_die_codec q c s :
  may_report q = true ->
  life_run q (die_codec_events c s) = Some (with_session q Aborting).
Proof.
  intros Hm. unfold die_codec_events.
  cbn [app life_run life_step]. rewrite Hm.
  cbn [session with_session life_run life_step].
  destruct (aom_codec_error_detail c); reflexivity.
Qed.

Lemma drained_silent t :
  Forall (fun e => silent e = true) t -> drained t = [].
Proof.
  induction 1 as [|e t He _ IH]; cbn [drained flat_map]; auto.
  fold (drained t). rewrite IH.
  destruct e; cbn in He; try discriminate; reflexivity.
Qed.

Lemma silent_die_codec_events c s :
  Forall (fun e => silent e = true) (die_codec_events c s).
Proof.
  unfold die_codec_events. destruct (aom_codec_error_detail c);
    repeat constructor.
Qed.

Lemma silent_usage_report a msg args :
  Forall (fun e => silent e = true) (usage_report a msg args).
Proof. repeat constructor. Qed.

(** No step leads back to a state without session and output. *)
Lemma life_step_fresh q e q' :
  life_step q e = Some q' ->
  session q' = NoSession -> out_open q' = false ->
  session q = NoSession /\ out_open q = false.
Proof.
  destruct q as [i fi fo s]. intros Hs.
  destruct e as [f a|f a| |f w h al ok| |pa mode ok|[|]| |u r|cfg fl res
                 |ci v|[im|] pts d fl res|[pkt|]| | |res];
    cbn [life_step img_held in_open out_open session with_session] in Hs;
    repeat match type of Hs with
           | context [if ?b then _ else _] => destruct b
           | context [match ?x with _ => _ end] => destruct x
           end;
    try discriminate; inversion Hs; subst; cbn; intros; auto;
    try discriminate.
Qed.

Lemma hoare_ret {A} (P : world -> Prop) (a : A) Q X :
  (forall w, P w -> Q a w) -> hoare P (ret a) Q X.
Proof. intros HQ w Hw. apply HQ. exact Hw. Qed.

Lemma hoare_exit {A} (P : world -> Prop) st (Q : A -> world -> Prop) X :
  (forall w, P w -> X st w) -> hoare P (exit_ st) Q X.
Proof. intros HX w Hw. apply HX. exact Hw. Qed.

Lemma hoare_bind {A B} P (c : M A) (k : A -> M B) Q' Q X :
  hoare P c Q' X -> (forall a, hoare (Q' a) (k a) Q X) ->
  hoare P (bind c k) Q X.
Proof.
  intros Hc Hk w Hw. unfold bind. specialize (Hc w Hw).
  destruct (c w) as [a w1|st w1|]; auto. apply (Hk a w1 Hc).
Qed.

Lemma hoare_pre {A} (P P' : world -> Prop) (c : M A) Q X :
  (forall w, P w -> P' w) -> hoare P' c Q X -> hoare P c Q X.
Proof. intros HP Hc w Hw. apply Hc. apply HP. exact Hw. Qed.

Lemma hoare_post {A} P (c : M A) (Q Q' : A -> world -> Prop) X :
  (forall a w, Q' a w -> Q a w) -> hoare P c Q' X -> hoare P c Q X.
Proof.
  intros HQ Hc w Hw. specialize (Hc w Hw).
  destruct (c w); auto.
Qed.

Lemma steady_emit q q' e w :
  steady q w -> life_step q e = Some q' -> drained [e] = [] ->
  steady q' (mk_world (trace w ++ [e]) (infile w) (outfile w)).
Proof.
  intros (Hl & Hj & H0) Hs Hd. unfold steady. cbn [trace outfile].
  split; [rewrite life_run_app, Hl; cbn [life_run]; rewrite Hs; reflexivity|].
  split; [rewrite drained_app, Hd, app_nil_r; exact Hj|].
  intros S1 S2. destruct (life_step_fresh q e q' Hs S1 S2). auto.
Qed.

Lemma hoare_emit q q' e X :
  life_step q e = Some q' -> drained [e] = [] ->
  hoare (steady q) (emit e) (fun _ => steady q') X.
Proof. intros Hs Hd w Hw. cbn. apply steady_emit with q; assumption. Qed.

Lemma steady_alive q w : steady q w -> alive w /\ held_back w.
Proof.
  intros (Hl & Hj & _). split; [exists q; exact Hl|].
  exists []. rewrite app_nil_r. symmetry. exact Hj.
Qed.

(** Diagnostics that the life cycle accepts leave the output as it is. *)
Lemma silent_keeps w t q' :
  Forall (fun e => silent e = true) t ->
  life_run life_start (trace w ++ t) = Some q' ->
  held_back w ->
  alive (mk_world (trace w ++ t) (infile w) (outfile w)) /\
  held_back (mk_world (trace w ++ t) (infile w) (outfile w)).
Proof.
  intros Ht Hq (rest & Hr). split.
  - exists q'. exact Hq.
  - exists rest. cbn [trace outfile].
    rewrite drained_app, (drained_silent _ Ht), app_nil_r. exact Hr.
Qed.

Lemma passive_usage_report a msg args :
  Forall (fun e => passive e = true) (usage_report a msg args).
Proof. repeat constructor. Qed.

Lemma hoare_die {A} a msg args (Q : A -> world -> Prop) :
  hoare (fun w => alive w /\ held_back w) (die (exec_name a) msg args) Q
        (stopped (exec_name a)).
Proof.
  intros w ((q & Hq) & Hb). rewrite die_run.
  destruct (silent_keeps w _ q (silent_usage_report a msg args)) as (Ha' & Hb').
  { rewrite life_run_app, Hq. apply life_run_passive.
    apply passive_usage_report. }
  { exact Hb. }
  split; [reflexivity|]. split; [exact Ha'|]. split; [exact Hb'|].
  left. exists (trace w), msg, args. reflexivity.
Qed.

Lemma die_codec_stops ex c s w q :
  life_run life_start (trace w) = Some q -> may_report q = true ->
  held_back w ->
  stopped ex EXIT_FAILURE
          (mk_world (trace w ++ die_codec_events c s) (infile w) (outfile w)).
Proof.
  intros Hq Hm Hb.
  destruct (silent_keeps w _ (with_session q Aborting)
              (silent_die_codec_events c s)) as (Ha' & Hb').
  { rewrite life_run_app, Hq. apply life_run_die_codec. exact Hm. }
  { exact Hb. }
  split; [reflexivity|]. split; [exact Ha'|]. split; [exact Hb'|].
  right. exists (trace w), c, s. reflexivity.
Qed.

Lemma hoare_die_codec {A} ex c s q (Q : A -> world -> Prop) :
  may_report q = true ->
  hoare (fun w => life_run life_start (trace w) = Some q /\ held_back w)
        (die_codec c s) Q (stopped ex).
Proof.
  intros Hm w (Hq & Hb). rewrite die_codec_eq.
  apply (die_codec_stops ex c s w q Hq Hm Hb).
Qed.

Lemma die_stops a msg args w :
  alive w -> held_back w ->
  stopped (exec_name a) EXIT_FAILURE
          (mk_world (trace w ++ usage_report a msg args) (infile w)
                    (outfile w)).
Proof.
  intros Ha Hb.
  pose proof (@hoare_die unit a msg args (fun _ _ => True) w (conj Ha Hb))
    as D.
  rewrite die_run in D. exact D.
Qed.

Lemma fwrite_spec data out :
  written (snd (fwrite data out)) =
    written out ++ firstn (fst (fwrite data out)) data /\
  (fst (fwrite data out) <= length data)%nat.
Proof.
  unfold fwrite. destruct (room out) as [r|]; cbn [fst snd written].
  - split; [reflexivity|lia].
  - rewrite firstn_all. split; [reflexivity|lia].
Qed.

Lemma steady_draining q s w :
  life_run life_start (trace w) = Some (with_session q s) ->
  written (outfile w) = payloads (drained (trace w)) ->
  s <> NoSession ->
  steady (with_session q s) w.
Proof.
  intros Hl Hj Hs. split; [exact Hl|]. split; [exact Hj|].
  cbn [session with_session]. intros E. contradiction.
Qed.

(** The drain loop, from a state in which a submission has just been
    made. *)
Lemma drain_conforms ex codec pkts : forall g w q,
  life_run life_start (trace w) = Some q ->
  out_open q = true ->
  (session q = DrainingFrame \/ exists got, session q = DrainingFlush got) ->
  written (outfile w) = payloads (drained (trace w)) ->
  match drain_packets codec pkts g w with
  | Ret g' w' =>
      g' = match pkts with [] => g | _ => 1 end /\
      steady (with_session q (drain_after (session q) pkts)) w'
  | Exit st w' => stopped ex st w'
  | OutOfFuel => True
  end.
Proof.
  induction pkts as [|pkt rest IH]; intros g w q Hl Ho Hs Hj.
  - cbn [drain_packets]. unfold bind, emit, ret. cbn [trace infile outfile].
    split; [reflexivity|].
    apply steady_draining.
    + cbn [trace]. rewrite life_run_app, Hl. cbn [life_run life_step].
      destruct Hs as [E|([|] & E)]; rewrite E; reflexivity.
    + cbn [trace outfile]. rewrite drained_app. cbn [drained flat_map].
      rewrite app_nil_r. exact Hj.
    + destruct Hs as [E|([|] & E)]; rewrite E; cbn; discriminate.
  - (* the world and the state after the call that returned [pkt] *)
    set (w1 := mk_world (trace w ++ [EvGetCxData (Some pkt)])
                        (infile w) (outfile w)).
    set (q1 := with_session q match session q with
                              | DrainingFrame => DrainingFrame
                              | _ => DrainingFlush true
                              end).
    assert (Hl1 : life_run life_start (trace w1) = Some q1).
    { subst w1 q1. cbn [trace]. rewrite life_run_app, Hl.
      cbn [life_run life_step]. rewrite Ho.
      destruct Hs as [E|(b & E)]; rewrite E; [|reflexivity].
      destruct q; cbn in *; subst; reflexivity. }
    assert (Hs1 : session q1 = DrainingFrame \/
                  exists got, session q1 = DrainingFlush got).
    { subst q1. cbn [session with_session].
      destruct Hs as [E|(b & E)]; rewrite E; eauto. }
    assert (Hafter : drain_after (session q1) rest
                     = drain_after (session q) (pkt :: rest)).
    { subst q1. cbn [session with_session].
      destruct Hs as [E|(b & E)]; rewrite E; cbn [drain_after orb].
      - reflexivity.
      - rewrite orb_true_r. reflexivity. }
    assert (Hq1 : forall s, with_session q1 s = with_session q s).
    { intros s0. subst q1. reflexivity. }
    assert (Hd1 : drained (trace w1) = drained (trace w) ++ [pkt]).
    { subst w1. cbn [trace]. rewrite drained_app. reflexivity. }
    assert (Hnext : forall w3,
              life_run life_start (trace w3) = Some q1 ->
              written (outfile w3) = payloads (drained (trace w3)) ->
              match drain_packets codec rest 1 w3 with
              | Ret g' w' =>
                  g' = 1 /\
                  steady (with_session q
                            (drain_after (session q) (pkt :: rest))) w'
              | Exit st w' => stopped ex st w'
              | OutOfFuel => True
              end).
    { intros w3 Hl3 Hj3.
      pose proof (IH 1 w3 q1 Hl3 (ltac:(subst q1; exact Ho)) Hs1 Hj3) as R.
      destruct (drain_packets codec rest 1 w3) as [g' w'|st w'|]; auto.
      destruct R as (Hg & Hst). rewrite Hq1, Hafter in Hst.
      split; [|exact Hst]. rewrite Hg. destruct rest; reflexivity. }
    cbn [drain_packets]. unfold bind at 1. unfold emit at 1. fold w1.
    destruct pkt as [buf flags|kind].
    + unfold bind at 1. unfold bind at 1. unfold do_fwrite.
      pose proof (fwrite_spec buf (outfile w1)) as (Hw & Hn).
      destruct (fwrite buf (outfile w1)) as [n out']. cbn [fst snd] in Hw, Hn.
      unfold bind at 1.
      destruct (Nat.eqb n (length buf)) eqn:En.
      * apply Nat.eqb_eq in En. subst n. rewrite firstn_all in Hw.
        unfold ret at 1. unfold bind at 1. unfold emit at 1.
        unfold emit at 1. cbn [trace infile outfile].
        apply Hnext.
        { cbn [trace]. rewrite <- app_assoc, life_run_app, Hl1.
          reflexivity. }
        { cbn [trace outfile]. rewrite <- app_assoc, drained_app, Hd1.
          cbn [drained flat_map app]. rewrite app_nil_r, payloads_app, Hw.
          subst w1. cbn [outfile]. rewrite Hj.
          unfold payloads at 3. cbn [flat_map payload]. rewrite app_nil_r.
          reflexivity. }
      * apply Nat.eqb_neq in En.
        assert (Hm1 : may_report q1 = true).
        { subst q1. unfold may_report. cbn [session with_session out_open].
          destruct Hs as [E|(b & E)]; rewrite E; exact Ho. }
        match goal with |- context [die_codec codec ?m ?w2] =>
          pose proof (@hoare_die_codec unit ex codec m q1 (fun _ _ => True)
                        Hm1 w2) as D
        end.
        match type of D with ?P -> _ => assert (HP : P) end.
        { split.
          - exact Hl1.
          - exists (skipn n buf). cbn [trace outfile]. rewrite Hd1, Hw.
            rewrite payloads_app. subst w1. cbn [outfile]. rewrite Hj.
            unfold payloads at 2. cbn [flat_map payload].
            rewrite app_nil_r, <- app_assoc, firstn_skipn. reflexivity. }
        specialize (D HP). rewrite die_codec_eq in D |- *. exact D.
    + unfold ret at 1. apply Hnext; [exact Hl1|].
      rewrite Hd1, payloads_app. subst w1. cbn [outfile]. rewrite Hj.
      unfold payloads at 3. cbn [flat_map payload]. rewrite app_nil_r.
      reflexivity.
Qed.

(** One submission, from a state in which it may be made. *)
Lemma encode_conforms ex codec img idx flags w q :
  steady q w ->
  out_open q = true ->
  match img with
  | Some _ => session q = Ready /\ img_held q = true /\ in_open q = true
  | None => session q = Ready \/ session q = Flushing
  end ->
  match encode_frame codec img idx flags w with
  | Ret (got_pkts, _) w' =>
      steady (with_session q
                match img with
                | Some _ => Ready
                | None => if got_pkts =? 0 then Flushed else Flushing
                end) w'
  | Exit st w' => stopped ex st w'
  | OutOfFuel => True
  end.
Proof.
  intros (Hl & Hj & _) Ho Hs. rewrite encode_frame_eq. cbv zeta.
  set (res := fst (aom_codec_encode codec img idx 1 flags)).
  set (c1 := snd (aom_codec_encode codec img idx 1 flags)).
  set (w1 := mk_world (trace w ++ [EvEncode img idx 1 flags res])
                      (infile w) (outfile w)).
  set (q2 := with_session q
               (if res =? 0
                then match img with
                     | Some _ => DrainingFrame
                     | None => DrainingFlush false
                     end
                else Aborting)).
  assert (Hl1 : life_run life_start (trace w1) = Some q2).
  { subst w1 q2. cbn [trace]. rewrite life_run_app, Hl.
    cbn [life_run life_step].
    destruct img as [im|].
    - destruct Hs as (-> & -> & ->). cbn [andb]. reflexivity.
    - destruct Hs as [-> | ->]; reflexivity. }
  assert (Hj1 : written (outfile w1) = payloads (drained (trace w1))).
  { subst w1. cbn [trace outfile]. rewrite drained_app.
    cbn [drained flat_map]. rewrite app_nil_r. exact Hj. }
  destruct (res =? 0) eqn:Er.
  - pose proof (drain_conforms ex c1 (cx_data c1) 0 w1 q2 Hl1) as D.
    subst q2. cbn [out_open session with_session] in D.
    specialize (D Ho).
    destruct (drain_packets c1 (cx_data c1) 0 w1) as [g w'|st w'|].
    + destruct img as [im|].
      * destruct D as (_ & D); auto.
      * destruct D as (Hg & D); eauto.
        cbn [drain_after orb] in D. subst g.
        destruct (cx_data c1); exact D.
    + destruct img; apply D; eauto.
    + exact I.
  - rewrite die_codec_eq. apply (die_codec_stops ex _ _ w1 q2 Hl1).
    + reflexivity.
    + exists []. rewrite app_nil_r. symmetry. exact Hj1.
Qed.

Lemma steady_streams q t i o i' :
  steady q (mk_world t i o) -> steady q (mk_world t i' o).
Proof. intros S. exact S. Qed.

Lemma iteration_conforms ex a s w :
  steady encoding w ->
  match encode_iteration a s w with
  | Ret _ w' => steady encoding w'
  | Exit st w' => stopped ex st w'
  | OutOfFuel => True
  end.
Proof.
  intros S. rewrite encode_iteration_eq. cbv zeta.
  set (rd := aom_img_read (raw s) (infile w)).
  set (w0 := mk_world (trace w) (snd rd) (outfile w)).
  assert (S0 : steady encoding w0) by exact S.
  destruct (fst (fst rd) =? 0); [exact S0|].
  pose proof (encode_conforms ex (codec s) (Some (snd (fst rd)))
                (frame_count s)
                (keyframe_flags (frame_count s) (keyframe_interval a))
                w0 encoding S0 eq_refl (conj eq_refl (conj eq_refl eq_refl)))
    as C.
  destruct (encode_frame _ _ _ _ w0) as [[g c'] w1|st w1|]; auto.
  apply (steady_emit encoding encoding _ w1 C); reflexivity.
Qed.

Lemma encode_loop_conforms ex a : forall fuel s w,
  steady encoding w ->
  match encode_loop fuel a s w with
  | Ret _ w' => steady encoding w'
  | Exit st w' => stopped ex st w'
  | OutOfFuel => True
  end.
Proof.
  induction fuel as [|fuel IH]; intros s w S; [exact I|].
  rewrite encode_loop_eq.
  pose proof (iteration_conforms ex a s w S) as C.
  destruct (encode_iteration a s w) as [[again s'] w'|st w'|]; auto.
  destruct again; [apply IH; exact C|exact C].
Qed.

Lemma flush_loop_conforms ex : forall fuel c w q,
  steady q w ->
  out_open q = true ->
  session q = Ready \/ session q = Flushing ->
  match flush_loop fuel c w with
  | Ret _ w' => steady (with_session q Flushed) w'
  | Exit st w' => stopped ex st w'
  | OutOfFuel => True
  end.
Proof.
  induction fuel as [|fuel IH]; intros c w q S Ho Hs; [exact I|].
  rewrite flush_loop_eq.
  pose proof (encode_conforms ex c None (-1) 0 w q S Ho Hs) as C.
  destruct (encode_frame c None (-1) 0 w) as [[g c'] w1|st w1|]; auto.
  destruct (g =? 0); [exact C|].
  apply (IH c' w1 (with_session q Flushing) C); [exact Ho|].
  right. reflexivity.
Qed.

Lemma teardown_conforms ex s w :
  steady (mk_life true true true Flushed) w ->
  match teardown s w with
  | Ret st w' => st = EXIT_SUCCESS /\ steady life_end w'
  | Exit st w' => stopped ex st w'
  | OutOfFuel => True
  end.
Proof.
  intros S.
  set (res := aom_codec_destroy (codec s)).
  set (w1 := mk_world (trace w ++ [EvPrintf "\n" []; EvFclose Infile;
                         EvPrintf "Processed %d frames.\n"
                                  [PInt (frame_count s)];
                         EvImgFree; EvDestroy res])
                      (infile w) (outfile w)).
  assert (S1 : steady (mk_life false false true
                               (if res =? 0 then Destroyed else Aborting)) w1).
  { destruct S as (Hl & Hj & _). split; [|split].
    - subst w1. cbn [trace]. rewrite life_run_app, Hl. reflexivity.
    - subst w1. cbn [trace outfile]. rewrite drained_app.
      cbn [drained flat_map app]. rewrite app_nil_r. exact Hj.
    - cbn. destruct (res =? 0); discriminate. }
  unfold teardown. unfold bind, emit, ret. cbn [trace infile outfile].
  rewrite <- !app_assoc. cbn [app]. fold res. fold w1.
  destruct (res =? 0).
  - cbn [trace infile outfile]. split; [reflexivity|].
    rewrite <- app_assoc. cbn [app].
    destruct S1 as (Hl & Hj & _). split; [|split].
    + cbn [trace]. rewrite life_run_app, Hl. reflexivity.
    + cbn [trace outfile]. rewrite drained_app.
      cbn [drained flat_map app]. rewrite app_nil_r. exact Hj.
    + cbn. discriminate.
  - rewrite die_codec_eq. destruct S1 as (Hl & Hj & _).
    apply (die_codec_stops ex _ _ w1 _ Hl); [reflexivity|].
    exists []. rewrite app_nil_r. symmetry. exact Hj.
Qed.

Lemma hoare_steady_die {A} q a msg args (Q : A -> world -> Prop) :
  hoare (steady q) (die (exec_name a) msg args) Q (stopped (exec_name a)).
Proof.
  apply hoare_pre with (P' := fun w => alive w /\ held_back w);
    [apply steady_alive|apply hoare_die].
Qed.

Lemma hoare_steady_die_codec {A} q ex c s (Q : A -> world -> Prop) :
  may_report q = true ->
  hoare (steady q) (die_codec c s) Q (stopped ex).
Proof.
  intros Hm.
  apply hoare_pre
    with (P' := fun w => life_run life_start (trace w) = Some q /\
                         held_back w);
    [|apply hoare_die_codec; exact Hm].
  intros w S. split; [apply S|apply (steady_alive _ _ S)].
Qed.

Lemma hoare_fopen_rb E path img :
  hoare (steady (mk_life img false false NoSession)) (do_fopen_rb E path)
        (fun opened => steady (mk_life img opened false
                                       (if opened then NoSession
                                        else Aborting)))
        (fun _ _ => False).
Proof.
  intros w (Hl & Hj & H0). unfold do_fopen_rb.
  destruct (fs_read E path) as [data|]; (split; [|split]);
    cbn [trace outfile];
    try (rewrite life_run_app, Hl; reflexivity);
    try (rewrite drained_app; cbn [drained flat_map app];
         rewrite app_nil_r; exact Hj);
    intros; try discriminate; apply H0; reflexivity.
Qed.

Lemma hoare_fopen_wb E path img fi :
  hoare (steady (mk_life img fi false NoSession)) (do_fopen_wb E path)
        (fun opened => steady (mk_life img fi opened
                                       (if opened then NoSession
                                        else Aborting)))
        (fun _ _ => False).
Proof.
  intros w (Hl & Hj & H0). unfold do_fopen_wb.
  assert (Hw : written (outfile w) = []) by (apply H0; reflexivity).
  destruct (fs_write E path) as [r|]; (split; [|split]);
    cbn [trace outfile written];
    try (rewrite life_run_app, Hl; destruct fi; reflexivity);
    try (rewrite drained_app; cbn [drained flat_map app];
         rewrite app_nil_r, <- Hj; auto);
    intros; auto; discriminate.
Qed.

Lemma hoare_false {A} P (c : M A) Q X :
  hoare P c Q (fun _ _ => False) -> hoare P c Q X.
Proof. intros Hc w Hw. specialize (Hc w Hw). destruct (c w); tauto. Qed.

Lemma setup_conforms E a :
  hoare (steady life_start) (setup E a) (fun _ => steady encoding)
        (stopped (exec_name a)).
Proof.
  unfold setup.
  destruct (get_aom_encoder_by_name (codec_arg a)) as [encoder|];
    [|apply hoare_steady_die].
  apply hoare_bind with (Q' := fun _ => steady life_start).
  { destruct (_ || _ || _ || _);
      [apply hoare_steady_die|apply hoare_ret; auto]. }
  intros _.
  destruct (aom_img_alloc AOM_IMG_FMT_I420 (frame_width a) (frame_height a) 1)
    as [raw0|].
  2:{ apply hoare_bind
        with (Q' := fun _ => steady (mk_life false false false Aborting));
        [apply hoare_emit; reflexivity|intros _; apply hoare_steady_die]. }
  apply hoare_bind
    with (Q' := fun _ => steady (mk_life true false false NoSession));
    [apply hoare_emit; reflexivity|intros _].
  apply hoare_bind
    with (Q' := fun _ => steady (mk_life true false false NoSession)).
  { destruct (keyframe_interval a <? 0);
      [apply hoare_steady_die|apply hoare_ret; auto]. }
  intros _.
  apply hoare_bind
    with (Q' := fun _ => steady (mk_life true false false NoSession));
    [apply hoare_emit; reflexivity|intros _].
  apply hoare_bind
    with (Q' := fun _ => steady (mk_life true false false NoSession));
    [apply hoare_emit; reflexivity|intros _].
  destruct (aom_codec_enc_config_default (codec_interface encoder tt) 0)
    as [res cfg0].
  apply hoare_bind
    with (Q' := fun _ => steady (mk_life true false false
                                   (if res =? 0 then NoSession
                                    else Aborting)));
    [apply hoare_emit; [cbn; destruct (res =? 0)|]; reflexivity|intros _].
  apply hoare_bind
    with (Q' := fun _ => steady (mk_life true false false NoSession)).
  { destruct (res =? 0);
      [apply hoare_ret; auto|apply hoare_steady_die_codec; reflexivity]. }
  intros _.
  apply hoare_bind
    with (Q' := fun opened => steady (mk_life true opened false
                                        (if opened then NoSession
                                         else Aborting)));
    [apply hoare_false, hoare_fopen_rb|intros opened].
  apply hoare_bind
    with (Q' := fun _ => steady (mk_life true true false NoSession)).
  { destruct opened; [apply hoare_ret; auto|apply hoare_steady_die]. }
  intros _.
  apply hoare_bind
    with (Q' := fun opened => steady (mk_life true true opened
                                        (if opened then NoSession
                                         else Aborting)));
    [apply hoare_false, hoare_fopen_wb|clear opened; intros opened].
  apply hoare_bind
    with (Q' := fun _ => steady (mk_life true true true NoSession)).
  { destruct opened; [apply hoare_ret; auto|apply hoare_steady_die]. }
  intros _.
  destruct (aom_codec_enc_init _ _ _) as [res1 codec1].
  apply hoare_bind
    with (Q' := fun _ => steady (mk_life true true true
                                   (if res1 =? 0 then Ready else Aborting)));
    [apply hoare_emit; reflexivity|intros _].
  apply hoare_bind with (Q' := fun _ => steady encoding).
  { destruct (res1 =? 0);
      [apply hoare_ret; auto|apply hoare_steady_die_codec; reflexivity]. }
  intros _.
  apply hoare_bind with (Q' := fun _ => steady encoding);
    [apply hoare_emit; reflexivity|intros _].
  apply hoare_bind with (Q' := fun _ => steady encoding);
    [apply hoare_emit; reflexivity|intros _].
  apply hoare_ret. auto.
Qed.

Lemma steady_init : steady life_start init_world.
Proof. repeat split. Qed.

(** The whole of [main] against the life cycle. *)
Lemma main_body_conforms fuel E a :
  match main_body fuel E a init_world with
  | Ret st w => st = EXIT_SUCCESS /\ steady life_end w
  | Exit st w => stopped (exec_name a) st w
  | OutOfFuel => True
  end.
Proof.
  unfold main_body, bind.
  pose proof (setup_conforms E a init_world steady_init) as C0.
  destruct (setup E a init_world) as [s0 w0|st w0|]; auto.
  pose proof (encode_loop_conforms (exec_name a) a fuel s0 w0 C0) as C1.
  destruct (encode_loop fuel a s0 w0) as [s1 w1|st w1|]; auto.
  pose proof (flush_loop_conforms (exec_name a) fuel (codec s1) w1 encoding
                C1 eq_refl (or_introl eq_refl)) as C2.
  destruct (flush_loop fuel (codec s1) w1) as [c2 w2|st w2|]; auto.
  apply teardown_conforms. exact C2.
Qed.

(** *** What the life cycle rules out *)

Lemma life_run_cons q e t q' :
  life_run q (e :: t) = Some q' ->
  exists q1, life_step q e = Some q1 /\ life_run q1 t = Some q'.
Proof.
  cbn [life_run]. destruct (life_step q e) as [q1|]; [|discriminate].
  intros Hr. exists q1. auto.
Qed.

Lemma life_run_split q t1 e t2 q' :
  life_run q (t1 ++ e :: t2) = Some q' ->
  exists q1 q2, life_run q t1 = Some q1 /\ life_step q1 e = Some q2 /\
                life_run q2 t2 = Some q'.
Proof.
  rewrite life_run_app. destruct (life_run q t1) as [q1|]; [|discriminate].
  intros Hr. destruct (life_run_cons _ _ _ _ Hr) as (q2 & Hs & Hr2).
  exists q1, q2. auto.
Qed.

(** Once a call has failed, only diagnostics follow. *)
Lemma aborting_step q e q' :
  life_step q e = Some q' -> session q = Aborting ->
  silent e = true /\ q' = q.
Proof.
  destruct q as [i fi fo s]. cbn [session]. intros Hs ->.
  destruct e as [f a|f a| |f w h al ok| |pa mode ok|[|]| |u r|cfg fl res
                 |ci v|[im|] pts d fl res|[pkt|]| | |res];
    cbn in Hs |- *; try discriminate;
    try (inversion Hs; subst; auto; fail);
    repeat match type of Hs with
           | context [if ?b then _ else _] => destruct b
           end; discriminate.
Qed.

Lemma aborting_is_final q t q' :
  life_run q t = Some q' -> session q = Aborting ->
  Forall (fun e => silent e = true) t /\ q' = q.
Proof.
  revert q. induction t as [|e t IH]; intros q Hr Ha.
  - cbn in Hr. inversion Hr. auto.
  - destruct (life_run_cons _ _ _ _ Hr) as (q1 & Hs & Hr1).
    destruct (aborting_step _ _ _ Hs Ha) as (He & ->).
    destruct (IH q Hr1 Ha) as (Ht & Hq). auto.
Qed.

Lemma failure_aborts q e q' :
  life_step q e = Some q' -> failure e = true -> session q' = Aborting.
Proof.
  destruct q as [i fi fo s]. intros Hs Hf.
  destruct e as [f a|f a| |f w h al ok| |pa mode ok|[|]| |u r|cfg fl res
                 |ci v|[im|] pts d fl res|[pkt|]| | |res];
    cbn [failure] in Hf; try discriminate;
    cbn [life_step img_held in_open out_open session with_session] in Hs;
    try (apply negb_true_iff in Hf; rewrite Hf in Hs);
    repeat match type of Hs with
           | context [if ?b then _ else _] => destruct b
           | context [match ?x with _ => _ end] => destruct x
           end;
    try discriminate; inversion Hs; reflexivity.
Qed.

Lemma no_failure_unless_aborting : forall t q q',
  life_run q t = Some q' -> session q' <> Aborting ->
  Forall (fun e => failure e = false) t.
Proof.
  induction t as [|e t IH]; intros q q' Hr Hn; [constructor|].
  destruct (life_run_cons _ _ _ _ Hr) as (q1 & Hs & Hr1).
  constructor; [|apply (IH q1 q' Hr1 Hn)].
  destruct (failure e) eqn:Ef; [|reflexivity].
  exfalso. apply Hn.
  destruct (aborting_is_final _ _ _ Hr1 (failure_aborts _ _ _ Hs Ef))
    as (_ & ->).
  apply (failure_aborts _ _ _ Hs Ef).
Qed.

(** Once the flush has begun, no frame is submitted. *)
Lemma past_frames_step q e q' :
  life_step q e = Some q' -> past_frames (session q) = true ->
  past_frames (session q') = true /\ real_submits [e] = [].
Proof.
  destruct q as [i fi fo s]. cbn [session]. intros Hs Hp.
  destruct e as [f a|f a| |f w h al ok| |pa mode ok|[|]| |u r|cfg fl res
                 |ci v|[im|] pts d fl res|[pkt|]| | |res];
    destruct s; cbn [past_frames] in Hp; try discriminate;
    cbn [life_step img_held in_open out_open session with_session] in Hs;
    repeat match type of Hs with
           | context [if ?b then _ else _] => destruct b
           | context [match ?x with _ => _ end] => destruct x
           end;
    try discriminate; inversion Hs; split; reflexivity.
Qed.

Lemma past_frames_run : forall t q q',
  life_run q t = Some q' -> past_frames (session q) = true ->
  real_submits t = [].
Proof.
  induction t as [|e t IH]; intros q q' Hr Hp; [reflexivity|].
  destruct (life_run_cons _ _ _ _ Hr) as (q1 & Hs & Hr1).
  destruct (past_frames_step _ _ _ Hs Hp) as (Hp1 & He).
  change (e :: t) with ([e] ++ t).
  rewrite real_submits_app, He, (IH q1 q' Hr1 Hp1). reflexivity.
Qed.

Lemma flush_step_past_frames q img pts d fl res q' :
  life_step q (EvEncode img pts d fl res) = Some q' ->
  img = None -> past_frames (session q') = true.
Proof.
  destruct q as [i fi fo s]. intros Hs ->.
  cbn [life_step session with_session img_held in_open out_open] in Hs.
  destruct s; try discriminate; inversion Hs; cbn;
    destruct (res =? 0); reflexivity.
Qed.

Lemma frames_then_flushes : forall t q q',
  life_run q t = Some q' ->
  exists t1 t2, t = t1 ++ t2 /\ flush_submits t1 = [] /\ real_submits t2 = [].
Proof.
  induction t as [|e t IH]; intros q q' Hr.
  - exists [], []. auto.
  - destruct (life_run_cons _ _ _ _ Hr) as (q1 & Hs & Hr1).
    destruct (flush_submits [e]) as [|x l] eqn:Ef.
    + destruct (IH q1 q' Hr1) as (t1 & t2 & -> & H1 & H2).
      exists (e :: t1), t2. split; [reflexivity|]. split; [|exact H2].
      change (e :: t1) with ([e] ++ t1).
      rewrite flush_submits_app, Ef, H1. reflexivity.
    + exists [], (e :: t). split; [reflexivity|]. split; [reflexivity|].
      destruct e as [f a|f a| |f w h al ok| |pa mode ok|[|]| |u r|cfg fl res
                     |ci v|[im|] pts d fl res|[pkt|]| | |res];
        try discriminate.
      change (EvEncode None pts d fl res :: t)
        with ([EvEncode None pts d fl res] ++ t).
      rewrite real_submits_app. cbn [real_submits flat_map app].
      apply (past_frames_run t q1 q' Hr1).
      apply (flush_step_past_frames _ _ _ _ _ _ _ Hs eq_refl).
Qed.

(** X1 (the order of the calls). In every run of [main], whatever the
    files and the library do, the calls that the trace records come in the
    order [life_step] checks.  The frame buffer is allocated once and each
    file is opened once; [aom_codec_enc_config_default] comes before the
    session exists, and [aom_codec_enc_init] once, when the buffer and
    both files are there.  The controls and the submissions of frames are
    made on an initialised session that has nothing left to drain, the
    NULL submissions there or after a flush cycle that yielded packets.  A
    packet is handed out only in the drain that follows an accepted
    submission, with the output open.  The input is closed and the buffer
    freed only after a flush cycle that yielded nothing, the codec is
    destroyed only after the buffer is freed, and the output is closed
    only after the codec is destroyed.  The error strings of the codec are
    asked for only after a call has failed or during the drain of a
    submission; once a call has failed nothing but diagnostics follows.  A run that returns has freed the buffer, closed both files
    and destroyed the session.

    The trace has no events for [fread] and [fwrite], so this says nothing
    on when the streams are read or written; and the order checked does
    not ask that the context whose error strings are read has been
    initialised: after a failed [aom_codec_enc_config_default] it has
    not. *)
Theorem main_follows_life_cycle fuel E a :
  match main_body fuel E a init_world with
  | Ret _ w => life_run life_start (trace w) = Some life_end
  | Exit _ w => exists q, life_run life_start (trace w) = Some q
  | OutOfFuel => True
  end.
Proof.
  pose proof (main_body_conforms fuel E a) as C.
  destruct (main_body fuel E a init_world) as [st w|st w|]; auto.
  - destruct C as (_ & Hl & _). exact Hl.
  - destruct C as (_ & Ha & _). exact Ha.
Qed.

(** X2 (what is written). When [main] returns, the bytes that its
    [fwrite] calls on the output stream have been accepted for are exactly
    the payloads of the frame packets the session handed out, in the order
    it handed them out, and nothing else; when it exits early, they are a
    prefix of those bytes.  ([written] is what [fwrite] has taken; [main]
    does not look at the result of [fclose], and nothing is said here on
    what reaches the file behind the stream.) *)
Theorem fwrite_takes_the_drained_payloads fuel E a :
  match main_body fuel E a init_world with
  | Ret _ w => written (outfile w) = payloads (drained (trace w))
  | Exit _ w =>
      exists rest, payloads (drained (trace w)) = written (outfile w) ++ rest
  | OutOfFuel => True
  end.
Proof.
  pose proof (main_body_conforms fuel E a) as C.
  destruct (main_body fuel E a init_world) as [st w|st w|]; auto.
  - destruct C as (_ & _ & Hj & _). exact Hj.
  - destruct C as (_ & _ & Hb & _). exact Hb.
Qed.

(** X3 (how a run ends). [main] returns [EXIT_SUCCESS] or nothing; every
    exit it takes has the status [EXIT_FAILURE] and comes right after a
    diagnostic: the message, a newline and the usage line of [die] on
    stderr, or the error strings of the codec that [die_codec] prints. *)
Theorem every_exit_is_a_reported_failure fuel E a :
  match main_body fuel E a init_world with
  | Ret st _ => st = EXIT_SUCCESS
  | Exit st w => st = EXIT_FAILURE /\ reported (exec_name a) (trace w)
  | OutOfFuel => True
  end.
Proof.
  pose proof (main_body_conforms fuel E a) as C.
  destruct (main_body fuel E a init_world) as [st w|st w|]; auto.
  - destruct C as (Hst & _). exact Hst.
  - destruct C as (Hst & _ & _ & Hr). auto.
Qed.

(** X4 (failures are fatal). When a call of a run reports a failure (the
    image allocation or an [fopen] yields nothing; the default
    configuration, the initialisation, a submission or the destruction of
    the codec returns an error), the run exits with [EXIT_FAILURE]; after
    the failed call it only prints diagnostics: it uses, closes or frees
    nothing; and no call before it had failed. *)
Theorem every_failed_call_is_fatal fuel E a w t1 e t2 :
  world_of (main_body fuel E a init_world) = Some w ->
  trace w = t1 ++ e :: t2 ->
  failure e = true ->
  main_body fuel E a init_world = Exit EXIT_FAILURE w /\
  Forall (fun e' => silent e' = true) t2 /\
  Forall (fun e' => failure e' = false) t1.
Proof.
  intros Hw Ht Hf.
  pose proof (main_body_conforms fuel E a) as C.
  assert (Hrun : forall q, life_run life_start (trace w) = Some q ->
                   session q = Aborting /\
                   Forall (fun e' => silent e' = true) t2 /\
                   Forall (fun e' => failure e' = false) t1).
  { intros q Hq. rewrite Ht in Hq.
    destruct (life_run_split _ _ _ _ _ Hq) as (q1 & q2 & H1 & Hs & H2).
    pose proof (failure_aborts _ _ _ Hs Hf) as Ha.
    destruct (aborting_is_final _ _ _ H2 Ha) as (Hsil & ->).
    split; [exact Ha|]. split; [exact Hsil|].
    apply (no_failure_unless_aborting t1 life_start q1 H1).
    intros Hq1. destruct (aborting_step _ _ _ Hs Hq1) as (He & _).
    destruct e; cbn in Hf, He; discriminate. }
  destruct (main_body fuel E a init_world) as [st w0|st w0|];
    cbn [world_of] in Hw; [| |discriminate]; inversion Hw; subst w0.
  - destruct C as (_ & Hl & _). destruct (Hrun _ Hl) as (Ha & _).
    discriminate.
  - destruct C as (-> & (q & Hq) & _). destruct (Hrun _ Hq) as (_ & Hr).
    split; [reflexivity|exact Hr].
Qed.

(** X5 (frames, then flushes). In every run, all submissions of real
    frames come before all NULL submissions: once the flush has begun,
    no frame is submitted. *)
Theorem frames_precede_flushes fuel E a :
  match world_of (main_body fuel E a init_world) with
  | Some w =>
      exists t1 t2, trace w = t1 ++ t2 /\
                    flush_submits t1 = [] /\ real_submits t2 = []
  | None => True
  end.
Proof.
  pose proof (main_body_conforms fuel E a) as C.
  destruct (main_body fuel E a init_world) as [st w|st w|]; cbn [world_of];
    auto.
  - destruct C as (_ & Hl & _).
    apply (frames_then_flushes _ _ _ Hl).
  - destruct C as (_ & (q & Hq) & _).
    apply (frames_then_flushes _ _ _ Hq).
Qed.

End Conformance.

(** ** Termination *)

Section Termination.
Context `{AomLib}.

Lemma finishes_ret {A} (a : A) : finishes (ret a).
Proof. intros w. discriminate. Qed.

Lemma finishes_emit e : finishes (emit e).
Proof. intros w. discriminate. Qed.

Lemma finishes_bind {A B} (c : M A) (k : A -> M B) :
  finishes c -> (forall a, finishes (k a)) -> finishes (bind c k).
Proof.
  intros Hc Hk w. unfold bind. specialize (Hc w).
  destruct (c w) as [a w1|st w1|]; [apply Hk|discriminate|congruence].
Qed.

Lemma finishes_die {A} a msg args : finishes (@die A (exec_name a) msg args).
Proof. intros w. rewrite die_run. discriminate. Qed.

Lemma finishes_die_codec {A} c m : finishes (@die_codec _ A c m).
Proof. intros w. rewrite die_codec_eq. discriminate. Qed.

Lemma finishes_fopen_rb E path : finishes (do_fopen_rb E path).
Proof. intros w. unfold do_fopen_rb. destruct (fs_read E path); discriminate. Qed.

Lemma finishes_fopen_wb E path : finishes (do_fopen_wb E path).
Proof.
  intros w. unfold do_fopen_wb. destruct (fs_write E path); discriminate.
Qed.

Ltac finishes_steps :=
  repeat first
    [ apply finishes_ret | apply finishes_die | apply finishes_die_codec
    | apply finishes_fopen_rb | apply finishes_fopen_wb
    | apply finishes_emit
    | apply finishes_bind; [|intros ?]
    | match goal with
      | |- finishes (if ?b then _ else _) => destruct b
      | |- finishes (match ?x with Some _ => _ | None => _ end) =>
          destruct x
      | |- finishes (let '(_, _) := ?x in _) => destruct x
      end ].

Lemma setup_finishes E a : finishes (setup E a).
Proof. unfold setup. finishes_steps. Qed.

Lemma teardown_finishes s : finishes (teardown s).
Proof. unfold teardown. finishes_steps. Qed.

(** The buffer [setup] hands to the loop is the one [aom_img_alloc]
    gave. *)
Lemma setup_raw E a :
  returns (fun s _ =>
             aom_img_alloc AOM_IMG_FMT_I420 (frame_width a) (frame_height a) 1
             = Some (raw s)) (setup E a).
Proof.
  unfold setup.
  destruct (get_aom_encoder_by_name (codec_arg a)); [|apply returns_die].
  apply returns_bind; intros _. apply returns_bind; intros _.
  destruct (aom_img_alloc _ _ _ _); [|apply returns_die].
  repeat (apply returns_bind; intros _).
  destruct (aom_codec_enc_config_default _ _).
  repeat (apply returns_bind; intros ?).
  destruct (aom_codec_enc_init _ _ _).
  repeat (apply returns_bind; intros ?).
  intros w s w' Hr. inversion Hr; subst. reflexivity.
Qed.

(** Every pass of the main loop that goes round again has taken a whole
    frame off the input. *)
Lemma encode_loop_finishes a :
  geometry_stable ->
  forall n s w,
    (0 < frame_bytes (raw s))%nat ->
    (length (unread (infile w)) < n * frame_bytes (raw s))%nat ->
    encode_loop n a s w <> OutOfFuel.
Proof.
  intros G. induction n as [|n IH]; intros s w Hpos Hlen; [lia|].
  rewrite encode_loop_eq.
  pose proof (encode_iteration_cases a s w) as C. cbv zeta in C.
  pose proof (read_planes_spec 3 0 (raw s) (infile w) G) as R.
  unfold aom_img_read in C.
  destruct (read_planes 3 0 (raw s) (infile w)) as [[r raw1] file1].
  cbn [fst snd] in C.
  destruct R as (Sg & R).
  destruct C as [(Hr0 & Ex)|(Hr1 & w1 & t & Hi & Ht & Hq &
                             [(Ex & _)|(_ & _ & Ex & _)])];
    rewrite Ex; try discriminate.
  destruct (negb _); [|discriminate].
  destruct R as [(_ & Hl & Hu & _)|(Hr & _)]; [|congruence].
  fold (frame_bytes (raw s)) in Hl, Hu.
  apply IH; cbn [raw]; rewrite (frame_bytes_stable _ _ G Sg); [exact Hpos|].
  rewrite Hi, Hu, length_skipn. nia.
Qed.

Lemma flush_loop_finishes held :
  lookahead_bound held ->
  forall c w, flush_loop (S (held c)) c w <> OutOfFuel.
Proof.
  intros Hb c w.
  destruct (flush_loop_spec held Hb (S (held c)) c w)
    as (w' & k & _ & _ & _ & _ & [(c' & t & Ex & _)|Ex]);
    [lia| |]; rewrite Ex; discriminate.
Qed.

(** More fuel changes nothing in a run that had enough. *)
Lemma main_body_fuel E a n m :
  main_body n E a init_world <> OutOfFuel -> (n <= m)%nat ->
  main_body m E a init_world = main_body n E a init_world.
Proof.
  unfold main_body, bind. intros Hr Hm.
  destruct (setup E a init_world) as [s0 w0|st w0|]; try reflexivity.
  destruct (encode_loop n a s0 w0) as [s1 w1|st w1|] eqn:E1;
    [| |exfalso; apply Hr; reflexivity];
    rewrite (encode_loop_fuel a n s0 w0) by (try rewrite E1; try discriminate; lia);
    rewrite E1; [|reflexivity].
  destruct (flush_loop n (codec s1) w1) as [c2 w2|st w2|] eqn:E2;
    [| |exfalso; apply Hr; reflexivity];
    rewrite (flush_loop_fuel n (codec s1) w1)
      by (try rewrite E2; try discriminate; lia);
    rewrite E2; reflexivity.
Qed.

(** X6 (termination). For a library whose plane sizes depend on the
    geometry only, whose frames are not empty and whose session has a
    bounded lookahead, every run of [main] ends, whatever the files hold
    and whichever calls fail: some amount of fuel makes the run return or
    exit, and more fuel gives the same result. *)
Theorem main_terminates held E a :
  geometry_stable -> lookahead_bound held ->
  (forall raw0,
     aom_img_alloc AOM_IMG_FMT_I420 (frame_width a) (frame_height a) 1
     = Some raw0 -> (0 < frame_bytes raw0)%nat) ->
  exists fuel,
    main_body fuel E a init_world <> OutOfFuel /\
    forall fuel', (fuel <= fuel')%nat ->
      main_body fuel' E a init_world = main_body fuel E a init_world.
Proof.
  intros G Hb Hpos.
  enough (Hex : exists fuel, main_body fuel E a init_world <> OutOfFuel).
  { destruct Hex as (fuel & Hf). exists fuel. split; [exact Hf|].
    intros fuel' Hle. apply main_body_fuel; assumption. }
  pose proof (setup_finishes E a init_world) as F0.
  pose proof (setup_raw E a init_world) as Hraw.
  destruct (setup E a init_world) as [s0 w0|st w0|] eqn:E0;
    [|exists 0%nat; unfold main_body, bind; rewrite E0; discriminate
     |congruence].
  specialize (Hraw s0 w0 eq_refl). cbv beta in Hraw.
  set (n1 := S (length (unread (infile w0)))).
  pose proof (encode_loop_finishes a G n1 s0 w0 (Hpos _ Hraw)) as F1.
  assert (Hn1 : (length (unread (infile w0)) < n1 * frame_bytes (raw s0))%nat).
  { pose proof (Hpos _ Hraw). subst n1. nia. }
  specialize (F1 Hn1).
  destruct (encode_loop n1 a s0 w0) as [s1 w1|st w1|] eqn:E1;
    [|exists n1; unfold main_body, bind; rewrite E0, E1; discriminate
     |congruence].
  set (n2 := S (held (codec s1))).
  pose proof (flush_loop_finishes held Hb (codec s1) w1) as F2. fold n2 in F2.
  exists (Nat.max n1 n2). unfold main_body, bind. rewrite E0.
  rewrite (encode_loop_fuel a n1 s0 w0)
    by (try rewrite E1; try discriminate; lia).
  rewrite E1.
  rewrite (flush_loop_fuel n2 (codec s1) w1) by (try exact F2; lia).
  destruct (flush_loop n2 (codec s1) w1) as [c2 w2|st w2|];
    [apply teardown_finishes|discriminate|congruence].
Qed.

(** With [m] whole frames and less than one more in the input, and no
    frame cap in the way, the loop takes the [m] frames and ends at the
    read that comes short. *)
Lemma encode_loop_eof a :
  never_fails -> geometry_stable ->
  forall m s w,
    (0 < frame_bytes (raw s))%nat ->
    (max_frames a <= 0 \/
     (0 <= frames_encoded s /\
      frames_encoded s + Z.of_nat m < max_frames a <= INT_MAX)) ->
    room (outfile w) = None ->
    (m * frame_bytes (raw s) <= length (unread (infile w))
     < S m * frame_bytes (raw s))%nat ->
    exists s' w' done n got rest,
      encode_loop (S m) a s w = Ret s' w' /\
      length (real_submits (trace w')) =
        (length (real_submits (trace w)) + m)%nat /\
      room (outfile w') = None /\
      freads (infile w') =
        freads (infile w) ++ List.concat (repeat (frame_reads (raw s)) m)
        ++ done ++ [(n, got)] /\
      (got < n)%nat /\ Forall complete done /\
      frame_reads (raw s) = done ++ (n, n) :: rest.
Proof.
  intros [Henc Hdes] G.
  induction m as [|m IH]; intros s w Hpos Hcap Hroom Hdata;
    rewrite encode_loop_eq;
    pose proof (encode_iteration_cases a s w) as C; cbv zeta in C.
  - pose proof (read_planes_spec 3 0 (raw s) (infile w) G) as R.
    unfold aom_img_read in C.
    destruct (read_planes 3 0 (raw s) (infile w)) as [[r raw1] file1].
    cbn [fst snd] in C.
    destruct R as (Sg & [(_ & Hl & _)|(Hr & _ & done & n & got & rest &
                                       Hf & Hg & Hd & Hfr)]).
    { unfold frame_bytes in Hdata. lia. }
    destruct C as [(_ & Ex)|(Hr1 & _)]; [|congruence].
    rewrite Ex. exists (mk_loop (codec s) raw1 (frame_count s)
                                (frames_encoded s)),
                       (mk_world (trace w) file1 (outfile w)),
                       done, n, got, rest.
    cbn [trace infile outfile repeat List.concat app].
    split; [reflexivity|]. split; [lia|]. split; [exact Hroom|].
    split; [exact Hf|]. split; [exact Hg|]. split; [exact Hd|exact Hfr].
  - destruct (aom_img_read_whole (raw s) (infile w) G) as (raw1 & Erd & Sg);
      [lia|].
    rewrite Erd in C. cbn [fst snd] in C.
    set (flags := keyframe_flags (frame_count s) (keyframe_interval a)) in *.
    set (enc := aom_codec_encode (codec s) (Some raw1) (frame_count s) 1 flags)
      in *.
    destruct C as [(Hr & _)|(_ & w1 & t & Hi & Ht & Hq &
                             [(_ & [Hres|Hf])|(_ & _ & Ex & Hr1 & _)])].
    + discriminate.
    + exfalso. apply Hres. apply Henc.
    + rewrite Hroom in Hf. discriminate.
    + rewrite Ex. rewrite Hroom in Hr1. cbn [room_after] in Hr1.
      assert (Hrs : real_submits (trace w1) =
                    real_submits (trace w) ++ [(frame_count s, flags)]).
      { rewrite Ht, real_submits_app.
        match goal with |- context [real_submits (?e :: t)] =>
          change (e :: t) with ([e] ++ t) end.
        rewrite real_submits_app, (no_submit_real _ Hq), app_nil_r.
        reflexivity. }
      assert (Hgo : negb ((max_frames a >? 0) &&
                          (int_wrap (frames_encoded s + 1) >=? max_frames a))
                    = true).
      { destruct Hcap as [Hno|(Hfe & Hlt & Hmax)].
        - replace (max_frames a >? 0) with false; [reflexivity|].
          symmetry. rewrite Z.gtb_ltb. apply Z.ltb_ge. exact Hno.
        - rewrite int_wrap_small by (unfold INT_MAX in *; lia).
          replace (frames_encoded s + 1 >=? max_frames a) with false;
            [rewrite andb_false_r; reflexivity|].
          symmetry. rewrite Z.geb_leb. apply Z.leb_gt. lia. }
      rewrite Hgo.
      set (s1 := mk_loop (snd enc) raw1 (int_wrap (frame_count s + 1))
                         (int_wrap (frames_encoded s + 1))).
      pose proof (frame_bytes_stable (raw s) raw1 G Sg) as Hfb.
      pose proof (frame_reads_stable (raw s) raw1 G Sg) as Hfr1.
      destruct (IH s1 w1)
        as (s' & w' & done & n & got & rest & Ex' & Hl' & Hr' & Hf' & Hg' &
            Hd' & Hfr');
        subst s1; cbn [frames_encoded raw] in *.
      { rewrite Hfb. exact Hpos. }
      { destruct Hcap as [Hno|(Hfe & Hlt & Hmax)]; [left; exact Hno|right].
        rewrite int_wrap_small by (unfold INT_MAX in *; lia). lia. }
      { exact Hr1. }
      { rewrite Hfb, Hi. cbn [unread]. rewrite length_skipn. nia. }
      exists s', w', done, n, got, rest.
      split; [exact Ex'|]. split.
      { rewrite Hl', Hrs, length_app. cbn [length]. lia. }
      split; [exact Hr'|]. split.
      { rewrite Hf', Hi, Hfr1. cbn [freads repeat List.concat].
        rewrite <- !app_assoc. reflexivity. }
      split; [exact Hg'|]. split; [exact Hd'|].
      rewrite <- Hfr1. exact Hfr'.
Qed.

(** X7 (running to the end of the input). Without a frame cap, or with
    fewer whole frames in the input than the cap, a session that reports
    no error and has a bounded lookahead, and an output that takes
    everything: the run returns [EXIT_SUCCESS] (given enough fuel for its
    loops).  With K the number of whole frames in the input, it has read
    these K frames row by row and then made one read that came short; it
    has submitted the frames 0 .. K-1 and nothing of what follows them in
    the input; it has then flushed and printed "Processed K frames.". *)
Theorem run_ends_at_end_of_input held E a raw0 data :
  never_fails -> lookahead_bound held -> geometry_stable ->
  codec_arg a = "av1" ->
  ~ invalid_geometry a ->
  aom_img_alloc AOM_IMG_FMT_I420 (frame_width a) (frame_height a) 1
    = Some raw0 ->
  0 <= keyframe_interval a ->
  fst (aom_codec_enc_config_default aom_codec_av1_cx 0) = 0 ->
  fs_read E (infile_arg a) = Some data ->
  fs_write E (outfile_arg a) = Some None ->
  fst (aom_codec_enc_init aom_codec_av1_cx (main_cfg a) 0) = 0 ->
  (0 < frame_bytes raw0)%nat ->
  let K := (length data / frame_bytes raw0)%nat in
  (max_frames a <= 0 \/ Z.of_nat K < max_frames a <= INT_MAX) ->
  exists fuel0, forall fuel, (fuel0 <= fuel)%nat ->
  exists w' t k done n got rest,
    main_body fuel E a init_world = Ret EXIT_SUCCESS w' /\
    freads (infile w') =
      List.concat (repeat (frame_reads raw0) K) ++ done ++ [(n, got)] /\
    (got < n)%nat /\ Forall complete done /\
    frame_reads raw0 = done ++ (n, n) :: rest /\
    real_submits (trace w') = scheduled_submits (keyframe_interval a) K /\
    flush_submits (trace w') = repeat (-1, 0) k /\ (1 <= k)%nat /\
    trace w' = t ++ empty_cycle ++ teardown_events (int_wrap (Z.of_nat K)).
Proof.
  intros Hnf Hb G Hc Hg Ha Hk Hcfg Hin Hout Hinit Hpos K Hmf.
  pose proof (setup_reaches_init E a init_world raw0 data None Hc Hg Ha Hk
                Hcfg Hin Hout) as Es.
  cbv zeta in Es. rewrite Hinit in Es. cbn [Z.eqb] in Es.
  cbn [trace infile outfile init_world app] in Es.
  match type of Es with _ = Ret ?s ?w => set (s0 := s) in *; set (w0 := w) in * end.
  assert (Hq0 : real_submits (trace w0) = [] /\ flush_submits (trace w0) = []).
  { destruct (quiet_submits init_world w0) as (R & F); [|auto].
    apply (setup_quiet E a). rewrite Es. reflexivity. }
  destruct Hq0 as (R0 & F0).
  destruct (encode_loop_eof a Hnf G K s0 w0)
    as (s1 & w1 & done & n & got & rest & E1 & Hl1 & Hr1 & Hf1 & Hgot &
        Hdone & Hfr).
  { exact Hpos. }
  { destruct Hmf as [Hno|Hlt]; [left; exact Hno|right].
    subst s0. cbn [frames_encoded]. lia. }
  { reflexivity. }
  { subst s0 w0. cbn [raw infile unread]. subst K. split.
    - rewrite Nat.mul_comm. apply Nat.Div0.mul_div_le.
    - rewrite Nat.mul_comm. apply Nat.mul_succ_div_gt. lia. }
  destruct (encode_loop_submits a (S K) s0 w0 w1)
    as (n1 & Rn & F1 & Hcnt);
    [reflexivity|reflexivity|rewrite E1; reflexivity|].
  destruct (Hcnt s1 E1) as (Hfc1 & _).
  assert (Hn1 : n1 = K).
  { rewrite Rn, R0 in Hl1. cbn [app length] in Hl1.
    rewrite length_map, length_seq in Hl1. exact Hl1. }
  subst n1.
  exists (Nat.max (S K) (S (held (codec s1)))). intros fuel Hfuel.
  destruct (flush_loop_ok held Hnf Hb fuel (codec s1) w1)
    as (c2 & w2 & k & t & E2 & Hk2 & Hfs2 & Hrs2 & Hi2 & Ht2); [lia|exact Hr1|].
  set (s2 := mk_loop c2 (raw s1) (frame_count s1) (frames_encoded s1)).
  destruct (teardown_cases s2 w2) as [(_ & Et)|(Hd & _)].
  2:{ exfalso. apply Hd. apply Hnf. }
  exists (mk_world (trace w2 ++ teardown_events (frame_count s2))
                   (infile w2) (outfile w2)), t, k, done, n, got, rest.
  split.
  { unfold main_body, bind. rewrite Es.
    rewrite (encode_loop_fuel a (S K) s0 w0)
      by (try rewrite E1; try discriminate; lia).
    rewrite E1, E2. exact Et. }
  cbn [trace infile outfile]. rewrite Hi2, Hf1.
  split; [reflexivity|]. split; [exact Hgot|]. split; [exact Hdone|].
  split; [exact Hfr|].
  rewrite real_submits_app, flush_submits_app.
  cbn [teardown_events real_submits flush_submits flat_map app].
  rewrite !app_nil_r, Hrs2, Hfs2, Rn, F1, R0, F0.
  cbn [app]. split; [reflexivity|]. split; [reflexivity|].
  split; [exact Hk2|].
  rewrite Ht2, <- app_assoc. subst s2. cbn [frame_count].
  rewrite Hfc1. reflexivity.
Qed.

End Termination.

(** ** The encoder table and the files *)

Section Lookup.
Context `{AomLib}.



End Lookup.

Section OpenFailures.
Context `{AomLib}.

Ltac run_setup :=
  repeat first
    [ rewrite die_run
    | rewrite die_codec_eq
    | progress cbn [trace infile outfile]
    | match goal with
      | |- context [match get_aom_encoder_by_name ?x with _ => _ end] =>
          destruct (get_aom_encoder_by_name x)
      | |- context [match aom_img_alloc ?f ?w ?h ?al with _ => _ end] =>
          destruct (aom_img_alloc f w h al)
      | |- context [let '(_, _) := ?x in _] => destruct x
      | |- context [if ?b then _ else _] => destruct b
      end ].

Lemma setup_without_input E a w :
  fs_read E (infile_arg a) = None ->
  exists w' t,
    setup E a w = Exit EXIT_FAILURE w' /\
    infile w' = infile w /\ outfile w' = outfile w /\
    trace w' = trace w ++ t /\
    Forall (fun e => opens_output e = false /\ uses_session e = false) t /\
    (In (EvFopen (infile_arg a) "rb" false) t ->
     exists t0,
       t = t0 ++ EvFopen (infile_arg a) "rb" false
              :: usage_report a "Failed to open %s for reading."
                              [PStr (infile_arg a)]).
Proof.
  intros Hin. unfold setup, bind, emit, ret, do_fopen_rb. rewrite Hin.
  run_setup.
  all: rewrite <- ?app_assoc; cbn [app]; unfold die_codec_events, usage_report;
    try destruct (aom_codec_error_detail _);
    eexists; eexists; (split; [reflexivity|]); (split; [reflexivity|]);
    (split; [reflexivity|]); (split; [reflexivity|]);
    (split; [repeat constructor|]); intros Hi;
    first [ now (eexists [_; _; _; _]; cbn [app]; reflexivity)
          | exfalso; cbn [In app] in Hi;
            repeat (destruct Hi as [Hi|Hi]; [discriminate|]); exact Hi ].
Qed.

Lemma setup_without_output E a w :
  fs_write E (outfile_arg a) = None ->
  exists w' t,
    setup E a w = Exit EXIT_FAILURE w' /\
    outfile w' = outfile w /\
    (infile w' = infile w \/ freads (infile w') = []) /\
    trace w' = trace w ++ t /\
    Forall (fun e => uses_session e = false) t /\
    (In (EvFopen (outfile_arg a) "wb" false) t ->
     exists t0,
       t = t0 ++ EvFopen (outfile_arg a) "wb" false
              :: usage_report a "Failed to open %s for reading."
                              [PStr (outfile_arg a)]).
Proof.
  intros Hout. unfold setup, bind, emit, ret, do_fopen_rb, do_fopen_wb.
  rewrite Hout.
  destruct (fs_read E (infile_arg a)); run_setup.
  all: rewrite <- ?app_assoc; cbn [app]; unfold die_codec_events, usage_report;
    try destruct (aom_codec_error_detail _);
    eexists; eexists; (split; [reflexivity|]); (split; [reflexivity|]);
    (split; [(left; reflexivity) || (right; reflexivity)|]);
    (split; [reflexivity|]);
    (split; [repeat constructor|]); intros Hi;
    first [ now (eexists [_; _; _; _; _]; cbn [app]; reflexivity)
          | exfalso; cbn [In app] in Hi;
            repeat (destruct Hi as [Hi|Hi]; [discriminate|]); exact Hi ].
Qed.

Lemma setup_hands_over E a w data :
  fs_read E (infile_arg a) = Some data ->
  match setup E a w with
  | Ret s w' =>
      infile w' = mk_FILE data [] /\
      aom_img_alloc AOM_IMG_FMT_I420 (frame_width a) (frame_height a) 1
      = Some (raw s)
  | _ => True
  end.
Proof.
  intros Hin. unfold setup, bind, emit, ret, do_fopen_rb, do_fopen_wb.
  rewrite Hin.
  destruct (aom_img_alloc AOM_IMG_FMT_I420 (frame_width a) (frame_height a) 1)
    eqn:Ea;
    destruct (fs_write E (outfile_arg a)); run_setup; try exact I;
    split; reflexivity.
Qed.

(** X9 (no input). When the input file cannot be opened, [main] exits
    with [EXIT_FAILURE] whatever else its arguments are: it does not open
    the output file and creates no encoder session.  If the run gets as
    far as the failed [fopen], its last words are "Failed to open %s for
    reading." with the name of the input file, and the usage line. *)
Theorem unreadable_input_stops_before_output fuel E a :
  fs_read E (infile_arg a) = None ->
  exists w,
    main_body fuel E a init_world = Exit EXIT_FAILURE w /\
    Forall (fun e => opens_output e = false /\ uses_session e = false)
           (trace w) /\
    (In (EvFopen (infile_arg a) "rb" false) (trace w) ->
     exists t0,
       trace w = t0 ++ EvFopen (infile_arg a) "rb" false
                    :: usage_report a "Failed to open %s for reading."
                                    [PStr (infile_arg a)]).
Proof.
  intros Hin.
  destruct (setup_without_input E a init_world Hin)
    as (w & t & Ex & _ & _ & Ht & Hall & Hlast).
  cbn [init_world trace app] in Ht.
  exists w. unfold main_body, bind. rewrite Ex, Ht. auto.
Qed.

(** X10 (no output). When the output file cannot be opened, [main] exits
    with [EXIT_FAILURE] without having created an encoder session, read
    anything from the input or written anything.  If the run gets as far
    as the failed [fopen], its last words are "Failed to open %s for
    reading." (the text of the input's message) with the name of the
    output file, and the usage line. *)
Theorem unwritable_output_stops_before_session fuel E a :
  fs_write E (outfile_arg a) = None ->
  exists w,
    main_body fuel E a init_world = Exit EXIT_FAILURE w /\
    Forall (fun e => uses_session e = false) (trace w) /\
    freads (infile w) = [] /\ written (outfile w) = [] /\
    (In (EvFopen (outfile_arg a) "wb" false) (trace w) ->
     exists t0,
       trace w = t0 ++ EvFopen (outfile_arg a) "wb" false
                    :: usage_report a "Failed to open %s for reading."
                                    [PStr (outfile_arg a)]).
Proof.
  intros Hout.
  destruct (setup_without_output E a init_world Hout)
    as (w & t & Ex & Ho & Hi & Ht & Hall & Hlast).
  cbn [init_world trace app] in Ht.
  exists w. unfold main_body, bind. rewrite Ex, Ht, Ho.
  split; [reflexivity|]. split; [exact Hall|].
  split; [destruct Hi as [-> | ->]; reflexivity|].
  split; [reflexivity|exact Hlast].
Qed.

(** X11 (no frame buffer). When [aom_img_alloc] yields nothing, [main]
    exits with [EXIT_FAILURE] right after that call: its last words are
    "Failed to allocate image." and the usage line; no file has been
    opened and the codec has not been called.  The keyframe interval has
    not been looked at: a negative one goes unreported. *)
Theorem failed_allocation_is_reported fuel E a :
  codec_arg a = "av1" ->
  ~ invalid_geometry a ->
  aom_img_alloc AOM_IMG_FMT_I420 (frame_width a) (frame_height a) 1 = None ->
  exists w,
    main_body fuel E a init_world = Exit EXIT_FAILURE w /\
    trace w =
      EvImgAlloc AOM_IMG_FMT_I420 (frame_width a) (frame_height a) 1 false
      :: usage_report a "Failed to allocate image." [] /\
    infile w = infile init_world /\ outfile w = outfile init_world.
Proof.
  intros Hc Hg Ha. unfold main_body, setup.
  rewrite get_aom_encoder_by_name_av1, Hc.
  cbn [String.eqb Ascii.eqb Bool.eqb andb codec_interface].
  match goal with |- context [if ?b then die _ _ _ else _] =>
    destruct b eqn:Eg end.
  { exfalso. apply Hg. apply geometry_check. exact Eg. }
  rewrite Ha. unfold bind, emit, ret. cbn [trace infile outfile init_world].
  rewrite die_run. cbn [trace infile outfile app].
  eexists. split; [reflexivity|]. cbn [trace infile outfile].
  repeat split.
Qed.


End OpenFailures.

(** ** From the input file to the encoder *)

Section FrameFlow.
Context `{AomLib}.

Lemma submitted_images_app t1 t2 :
  submitted_images (t1 ++ t2) = submitted_images t1 ++ submitted_images t2.
Proof. apply flat_map_app. Qed.

Lemma no_submit_images t : Forall quiet t -> submitted_images t = [].
Proof.
  induction 1 as [|e t He _ IH]; cbn [submitted_images flat_map]; auto.
  fold (submitted_images t). rewrite IH.
  destruct e; cbn in He; try reflexivity; discriminate.
Qed.

Lemma quiet_images w w' :
  adds quiet w w' -> submitted_images (trace w') = submitted_images (trace w).
Proof.
  intros (t & -> & Hq).
  rewrite submitted_images_app, (no_submit_images _ Hq), app_nil_r.
  reflexivity.
Qed.

(** Reading leaves every plane's memory at its size. *)
Lemma read_plane_len img p file img' file' :
  plane_fits img p ->
  read_plane img p file = (true, img', file') ->
  forall q, length (nth q (planes img') []) = length (nth q (planes img) []).
Proof.
  intros (F1 & F2 & F3) Ex q. unfold read_plane in Ex.
  destruct (read_rows _ _ _ _ _ _) as [[ok mem'] f'] eqn:Er.
  inversion Ex; subst ok img' f'. clear Ex. cbn [planes].
  destruct (Nat.eq_dec q p) as [->|Hne].
  - rewrite nth_set_nth_same by exact F1.
    apply read_rows_mem in Er; [|lia|exact F2|].
    + destruct Er as (Hl & _). exact Hl.
    + cbn [Z.to_nat Nat.add]. exact F3.
  - rewrite nth_set_nth_other by congruence. reflexivity.
Qed.

Lemma read_planes_len todo : forall plane img file img' file',
  geometry_stable ->
  (forall q, (plane <= q < plane + todo)%nat -> plane_fits img q) ->
  read_planes todo plane img file = (1, img', file') ->
  forall q, length (nth q (planes img') []) = length (nth q (planes img) []).
Proof.
  induction todo as [|todo IH]; intros plane img file img' file' G Hfit Ex q.
  - cbn in Ex. inversion Ex; subst. reflexivity.
  - cbn [read_planes] in Ex.
    pose proof (read_plane_spec img plane file) as R. cbv zeta in R.
    destruct (read_plane img plane file) as [[[|] img1] file1] eqn:Ep;
      [|discriminate].
    destruct R as (S1 & _).
    destruct (read_plane_mem img plane file img1 file1 G
                (Hfit plane ltac:(lia)) Ep) as (Hl1 & Ho1 & _).
    assert (Hfit1 : forall q, (S plane <= q < S plane + todo)%nat ->
                              plane_fits img1 q).
    { intros q' Hq. apply (plane_fits_stable img img1 q' G S1 Hl1).
      - apply Ho1. lia.
      - apply Hfit. lia. }
    rewrite (IH _ _ _ _ _ G Hfit1 Ex q).
    apply (read_plane_len img plane file img1 file1 (Hfit plane ltac:(lia)) Ep).
Qed.

(** A frame that was read in full, in a buffer laid out as it must be:
    the buffer keeps its layout and holds the frame. *)
Lemma aom_img_read_frame img file img' file' :
  geometry_stable ->
  (forall q, (q < 3)%nat -> plane_fits img q) ->
  aom_img_read img file = (1, img', file') ->
  same_geometry img img' /\
  (forall q, (q < 3)%nat -> plane_fits img' q) /\
  unread file' = skipn (frame_bytes img) (unread file) /\
  forall q y, (q < 3)%nat -> (y < plane_rows img q)%nat ->
    row img' q y =
    firstn (row_bytes img q)
           (skipn (planes_bytes q 0 img + y * row_bytes img q) (unread file)).
Proof.
  intros G Hfit Ex. unfold aom_img_read in Ex.
  assert (Hfit' : forall q, (0 <= q < 0 + 3)%nat -> plane_fits img q).
  { intros q Hq. apply Hfit. lia. }
  pose proof (read_planes_spec 3 0 img file G) as R. rewrite Ex in R.
  destruct R as (S & [(_ & _ & Hu & _)|(Hr & _)]); [|discriminate].
  destruct (read_planes_mem 3 0 img file img' file' G Hfit' Ex)
    as (Hl & _ & Hrows).
  pose proof (read_planes_len 3 0 img file img' file' G Hfit' Ex) as Hlen.
  split; [exact S|]. split; [|split; [exact Hu|]].
  - intros q Hq. destruct (Hfit q Hq) as (F1 & F2 & F3). unfold plane_fits.
    rewrite (row_bytes_stable _ _ _ G S), (plane_rows_stable _ _ _ G S),
      Hl, Hlen.
    destruct S as (_ & _ & _ & _ & _ & ->). auto.
  - intros q y Hq Hy. rewrite (Hrows q y) by lia.
    rewrite Nat.sub_0_r. reflexivity.
Qed.

Lemma encode_frame_images codec img idx flags w w' :
  world_of (encode_frame codec img idx flags w) = Some w' ->
  submitted_images (trace w') =
    submitted_images (trace w) ++
    match img with Some i => [i] | None => [] end.
Proof.
  intros Hw.
  pose proof (encode_frame_cases codec img idx flags w) as C. cbv zeta in C.
  assert (Hone : forall t,
            trace w' = (trace w ++ [EvEncode img idx 1 flags
                          (fst (aom_codec_encode codec img idx 1 flags))]) ++ t ->
            Forall quiet t ->
            submitted_images (trace w') =
              submitted_images (trace w) ++
              match img with Some i => [i] | None => [] end).
  { intros t -> Hq. rewrite !submitted_images_app, (no_submit_images _ Hq).
    rewrite app_nil_r. f_equal. destruct img; reflexivity. }
  destruct C as [(_ & _ & w1 & Ex & _ & _ & _ & Ht)|(_ & w1 & t & Ex & _ & Ht & Hq)];
    rewrite Ex in Hw; cbn [world_of] in Hw; inversion Hw; subst w1.
  - apply (Hone _ Ht). apply drain_events_quiet.
  - apply (Hone _ Ht Hq).
Qed.

Lemma flush_loop_images : forall fuel c w w',
  world_of (flush_loop fuel c w) = Some w' ->
  submitted_images (trace w') = submitted_images (trace w).
Proof.
  induction fuel as [|fuel IH]; intros c w w' Hw; [discriminate|].
  rewrite flush_loop_eq in Hw.
  pose proof (encode_frame_images c None (-1) 0 w) as I1.
  destruct (encode_frame c None (-1) 0 w) as [[g c'] w1|st w1|];
    [| |discriminate].
  - specialize (I1 w1 eq_refl). rewrite app_nil_r in I1.
    destruct (g =? 0).
    + cbn [world_of] in Hw. inversion Hw; subst. exact I1.
    + rewrite (IH _ _ _ Hw). exact I1.
  - cbn [world_of] in Hw. inversion Hw; subst.
    rewrite (I1 w' eq_refl), app_nil_r. reflexivity.
Qed.

Lemma teardown_images s w w' :
  world_of (teardown s w) = Some w' ->
  submitted_images (trace w') = submitted_images (trace w).
Proof.
  intros Hw.
  destruct (teardown_cases s w) as [(_ & Ex)|(_ & w1 & Ex & Ha)];
    rewrite Ex in Hw; cbn [world_of] in Hw; inversion Hw; subst.
  - cbn [trace]. rewrite submitted_images_app. cbn. apply app_nil_r.
  - apply quiet_images. exact Ha.
Qed.

(** The frames the main loop submits are those of the input, in order:
    the loop starts [j] frames into [data]. *)
Lemma encode_loop_images a raw0 data :
  geometry_stable ->
  forall fuel s w w' j,
    world_of (encode_loop fuel a s w) = Some w' ->
    same_geometry raw0 (raw s) ->
    (forall q, (q < 3)%nat -> plane_fits (raw s) q) ->
    unread (infile w) = skipn (j * frame_bytes raw0) data ->
    exists imgs,
      submitted_images (trace w') = submitted_images (trace w) ++ imgs /\
      forall k img, nth_error imgs k = Some img ->
                    holds_frame raw0 data (j + k) img.
Proof.
  intros G.
  induction fuel as [|fuel IH]; intros s w w' j Hw Sg Hfit Hu;
    [discriminate|].
  rewrite encode_loop_eq in Hw.
  pose proof (encode_iteration_eq a s w) as Ei. cbv zeta in Ei.
  destruct (aom_img_read (raw s) (infile w)) as [[r raw1] file1] eqn:Erd.
  cbn [fst snd] in Ei.
  destruct (r =? 0) eqn:Er.
  { rewrite Ei in Hw. cbn [world_of] in Hw. inversion Hw; subst w'.
    exists []. cbn [trace]. rewrite app_nil_r. split; [reflexivity|].
    intros [|k] img Hk; discriminate. }
  assert (Hr : r = 1).
  { pose proof (read_planes_spec 3 0 (raw s) (infile w) G) as R.
    unfold aom_img_read in Erd. rewrite Erd in R.
    destruct R as (_ & [(Hr & _)|(Hr & _)]); [exact Hr|].
    subst r. discriminate. }
  subst r.
  destruct (aom_img_read_frame (raw s) (infile w) raw1 file1 G Hfit Erd)
    as (S1 & Hfit1 & Hu1 & Hrows).
  assert (Hheld : holds_frame raw0 data j raw1).
  { split; [eapply same_geometry_trans; eauto|].
    intros q y Hq Hy.
    rewrite (Hrows q y Hq)
      by (rewrite (plane_rows_stable _ _ _ G Sg); exact Hy).
    rewrite (row_bytes_stable _ _ _ G Sg), (planes_bytes_stable _ _ _ _ G Sg).
    rewrite Hu, skipn_skipn. f_equal. f_equal. lia. }
  set (w0 := mk_world (trace w) file1 (outfile w)) in *.
  pose proof (encode_frame_images (codec s) (Some raw1) (frame_count s)
                (keyframe_flags (frame_count s) (keyframe_interval a)) w0)
    as I1.
  destruct (encode_frame (codec s) (Some raw1) (frame_count s) _ w0)
    as [[g c'] w1|st w1|] eqn:Ef.
  - specialize (I1 w1 eq_refl). cbn [trace w0] in I1.
    rewrite Ei in Hw.
    set (w2 := mk_world (trace w1 ++ [EvPrintf "encoded_frame: %d\n"
                                         [PInt (frames_encoded s)]])
                        (infile w1) (outfile w1)) in *.
    assert (I2 : submitted_images (trace w2) =
                 submitted_images (trace w) ++ [raw1]).
    { subst w2. cbn [trace]. rewrite submitted_images_app, I1.
      cbn. apply app_nil_r. }
    assert (Hin1 : infile w1 = file1).
    { destruct (encode_frame_cases (codec s) (Some raw1) (frame_count s)
                  (keyframe_flags (frame_count s) (keyframe_interval a)) w0)
        as [(_ & _ & wx & Ex & _ & _ & Hi & _)|(_ & wx & t & Ex & _)];
        rewrite Ef in Ex; inversion Ex; subst wx. exact Hi. }
    destruct (negb _).
    + destruct (IH _ w2 w' (S j) Hw) as (imgs & Him & Hall).
      { cbn [raw]. eapply same_geometry_trans; eauto. }
      { cbn [raw]. exact Hfit1. }
      { subst w2. cbn [infile]. rewrite Hin1, Hu1, Hu, skipn_skipn.
        rewrite (frame_bytes_stable raw0 (raw s) G Sg). reflexivity. }
      exists (raw1 :: imgs). split.
      { rewrite Him, I2, <- app_assoc. reflexivity. }
      intros [|k] img Hk.
      * cbn in Hk. inversion Hk; subst img. rewrite Nat.add_0_r. exact Hheld.
      * cbn [nth_error] in Hk. replace (j + S k)%nat with (S j + k)%nat by lia.
        apply Hall. exact Hk.
    + cbn [world_of] in Hw. inversion Hw; subst w'.
      exists [raw1]. split; [exact I2|].
      intros [|[|k]] img Hk; try discriminate.
      cbn in Hk. inversion Hk; subst img. rewrite Nat.add_0_r. exact Hheld.
  - specialize (I1 w1 eq_refl). cbn [trace w0] in I1.
    rewrite Ei in Hw. cbn [world_of] in Hw. inversion Hw; subst w'.
    exists [raw1]. split; [exact I1|].
    intros [|[|k]] img Hk; try discriminate.
    cbn in Hk. inversion Hk; subst img. rewrite Nat.add_0_r. exact Hheld.
  - rewrite Ei in Hw. discriminate.
Qed.

(** X13 (the frames the encoder sees). In every run, however it ends,
    the k-th image submitted to the encoder (counting from 0) holds the
    k-th frame of the input file: every row of each of its planes holds
    the bytes the file has at that row's place in that frame.  The one
    buffer that is read into again and again hands each frame on
    unaltered, none skipped and none twice.  This is for a buffer laid
    out as [aom_img_alloc] lays it out and a library whose plane sizes
    depend on the geometry only. *)
Theorem frames_reach_the_encoder_unaltered fuel E a raw0 data w k img :
  geometry_stable ->
  aom_img_alloc AOM_IMG_FMT_I420 (frame_width a) (frame_height a) 1
    = Some raw0 ->
  (forall q, (q < 3)%nat -> plane_fits raw0 q) ->
  fs_read E (infile_arg a) = Some data ->
  world_of (main_body fuel E a init_world) = Some w ->
  nth_error (submitted_images (trace w)) k = Some img ->
  holds_frame raw0 data k img.
Proof.
  intros G Ha Hfit Hin Hw Hk.
  unfold main_body, bind in Hw.
  pose proof (setup_hands_over E a init_world data Hin) as H0.
  pose proof (setup_quiet E a init_world) as Q0.
  destruct (setup E a init_world) as [s0 w0|st w0|]; [| |discriminate].
  2:{ cbn [world_of] in Hw. inversion Hw; subst w0.
      rewrite (quiet_images init_world w (Q0 w eq_refl)) in Hk.
      destruct k; discriminate. }
  destruct H0 as (Hi0 & Ha0).
  assert (Hraw : raw0 = raw s0) by congruence.
  pose proof (quiet_images init_world w0 (Q0 w0 eq_refl)) as I0.
  cbn [init_world trace submitted_images flat_map] in I0.
  assert (Hloop : forall w1, world_of (encode_loop fuel a s0 w0) = Some w1 ->
            forall k img, nth_error (submitted_images (trace w1)) k = Some img ->
                          holds_frame raw0 data k img).
  { intros w1 Hw1 k' img' Hk'.
    destruct (encode_loop_images a raw0 data G fuel s0 w0 w1 0%nat Hw1)
      as (imgs & Him & Hall).
    - rewrite <- Hraw. apply same_geometry_refl.
    - rewrite <- Hraw. exact Hfit.
    - rewrite Hi0. reflexivity.
    - rewrite Him, I0 in Hk'. apply (Hall k' img' Hk'). }
  destruct (encode_loop fuel a s0 w0) as [s1 w1|st w1|] eqn:E1;
    [| |discriminate].
  2:{ cbn [world_of] in Hw. inversion Hw; subst w1.
      apply (Hloop w eq_refl k img Hk). }
  pose proof (flush_loop_images fuel (codec s1) w1) as I2.
  destruct (flush_loop fuel (codec s1) w1) as [c2 w2|st w2|];
    [| |discriminate].
  2:{ cbn [world_of] in Hw. inversion Hw; subst w2.
      rewrite (I2 w eq_refl) in Hk. apply (Hloop w1 eq_refl k img Hk). }
  rewrite (teardown_images _ w2 w Hw), (I2 w2 eq_refl) in Hk.
  apply (Hloop w1 eq_refl k img Hk).
Qed.

End FrameFlow.

(** ** The properties above at work on the test doubles *)

Lemma every_failed_call_is_fatal_witness :
  let E := Fake.fs Fake.three_frames None in
  let a := Fake.args 2 0 in
  let w := Fake.final_world (Faulty.run 0 1 0 5 E a) in
  let e := EvEncode None (-1) 1 0 1 in
  world_of (Faulty.run 0 1 0 5 E a) = Some w /\
  trace w = firstn 24 (trace w) ++ e :: skipn 25 (trace w) /\
  failure e = true /\
  Faulty.run 0 1 0 5 E a = Exit EXIT_FAILURE w /\
  Forall (fun e' => silent e' = true) (skipn 25 (trace w)) /\
  Forall (fun e' => failure e' = false) (firstn 24 (trace w)).
Proof.
  cbv zeta.
  split; [vm_compute; reflexivity|]. split; [vm_compute; reflexivity|].
  split; [reflexivity|].
  apply (@every_failed_call_is_fatal (Faulty.lib Fake.double 0 1 0) 5%nat
           (Fake.fs Fake.three_frames None) (Fake.args 2 0)
           (Fake.final_world
              (Faulty.run 0 1 0 5 (Fake.fs Fake.three_frames None)
                          (Fake.args 2 0)))
           (firstn 24 (trace (Fake.final_world
              (Faulty.run 0 1 0 5 (Fake.fs Fake.three_frames None)
                          (Fake.args 2 0)))))
           (EvEncode None (-1) 1 0 1)
           (skipn 25 (trace (Fake.final_world
              (Faulty.run 0 1 0 5 (Fake.fs Fake.three_frames None)
                          (Fake.args 2 0)))))).
  - vm_compute. reflexivity.
  - vm_compute. reflexivity.
  - reflexivity.
Defined.

Lemma main_terminates_witness :
  exists fuel,
    Fake.run Fake.double fuel (Fake.fs Fake.three_frames None) (Fake.args 2 0)
      <> OutOfFuel /\
    forall fuel', (fuel <= fuel')%nat ->
      Fake.run Fake.double fuel' (Fake.fs Fake.three_frames None)
               (Fake.args 2 0) =
      Fake.run Fake.double fuel (Fake.fs Fake.three_frames None)
               (Fake.args 2 0).
Proof.
  apply (@main_terminates (Fake.lib Fake.double) Fake.pending
           (Fake.fs Fake.three_frames None) (Fake.args 2 0)).
  - apply fake_geometry_stable.
  - apply fake_lookahead_bound.
  - intros raw0 Hr. inversion Hr. vm_compute. lia.
Defined.

Lemma run_ends_at_end_of_input_witness :
  let data := Fake.three_frames ++ [x31; x32] in
  (0 < @frame_bytes (Fake.lib Fake.double) Fake.blank)%nat /\
  (length data / @frame_bytes (Fake.lib Fake.double) Fake.blank = 3)%nat /\
  max_frames (Fake.args 2 0) <= 0 /\
  exists fuel0, forall fuel, (fuel0 <= fuel)%nat ->
  exists w' t k done n got rest,
    Fake.run Fake.double fuel (Fake.fs data None) (Fake.args 2 0)
      = Ret EXIT_SUCCESS w' /\
    freads (infile w') =
      List.concat (repeat (@frame_reads (Fake.lib Fake.double) Fake.blank) 3)
      ++ done ++ [(n, got)] /\
    (got < n)%nat /\ Forall complete done /\
    @frame_reads (Fake.lib Fake.double) Fake.blank = done ++ (n, n) :: rest /\
    real_submits (trace w') =
      @scheduled_submits (Fake.lib Fake.double)
        (keyframe_interval (Fake.args 2 0)) 3 /\
    flush_submits (trace w') = repeat (-1, 0) k /\ (1 <= k)%nat /\
    trace w' = t ++ empty_cycle ++ teardown_events (int_wrap (Z.of_nat 3)).
Proof.
  cbv zeta.
  split; [vm_compute; lia|]. split; [reflexivity|].
  split; [vm_compute; discriminate|].
  apply (@run_ends_at_end_of_input (Fake.lib Fake.double) Fake.pending
           (Fake.fs (Fake.three_frames ++ [x31; x32]) None) (Fake.args 2 0)
           Fake.blank (Fake.three_frames ++ [x31; x32])).
  - apply fake_never_fails.
  - apply fake_lookahead_bound.
  - apply fake_geometry_stable.
  - reflexivity.
  - vm_compute. intros [Hx|[Hx|[Hx|Hx]]]; apply Hx; reflexivity.
  - reflexivity.
  - vm_compute. discriminate.
  - reflexivity.
  - reflexivity.
  - reflexivity.
  - reflexivity.
  - vm_compute. lia.
  - left. vm_compute. discriminate.
Defined.

Lemma unreadable_input_stops_before_output_witness :
  let a := mk_args "simple_encoder" "av1" 2 2 "missing.yuv" "out.obu" 2 0 0 in
  let E := Fake.fs Fake.three_frames None in
  fs_read E (infile_arg a) = None /\
  exists w,
    Fake.run Fake.double 5 E a = Exit EXIT_FAILURE w /\
    Forall (fun e => opens_output e = false /\ uses_session e = false)
           (trace w) /\
    (In (EvFopen (infile_arg a) "rb" false) (trace w) ->
     exists t0,
       trace w = t0 ++ EvFopen (infile_arg a) "rb" false
                    :: usage_report a "Failed to open %s for reading."
                                    [PStr (infile_arg a)]).
Proof.
  cbv zeta. split; [reflexivity|].
  apply (@unreadable_input_stops_before_output (Fake.lib Fake.double) 5%nat
           (Fake.fs Fake.three_frames None)
           (mk_args "simple_encoder" "av1" 2 2 "missing.yuv" "out.obu" 2 0 0)).
  reflexivity.
Defined.

Lemma unwritable_output_stops_before_session_witness :
  let a := mk_args "simple_encoder" "av1" 2 2 "in.yuv" "nowhere/out.obu"
                   2 0 0 in
  let E := Fake.fs Fake.three_frames None in
  fs_write E (outfile_arg a) = None /\
  exists w,
    Fake.run Fake.double 5 E a = Exit EXIT_FAILURE w /\
    Forall (fun e => uses_session e = false) (trace w) /\
    freads (infile w) = [] /\ written (outfile w) = [] /\
    (In (EvFopen (outfile_arg a) "wb" false) (trace w) ->
     exists t0,
       trace w = t0 ++ EvFopen (outfile_arg a) "wb" false
                    :: usage_report a "Failed to open %s for reading."
                                    [PStr (outfile_arg a)]).
Proof.
  cbv zeta. split; [reflexivity|].
  apply (@unwritable_output_stops_before_session (Fake.lib Fake.double) 5%nat
           (Fake.fs Fake.three_frames None)
           (mk_args "simple_encoder" "av1" 2 2 "in.yuv" "nowhere/out.obu"
                    2 0 0)).
  reflexivity.
Defined.

Lemma frames_reach_the_encoder_unaltered_witness :
  let E := Fake.fs Fake.three_frames None in
  let a := Fake.args 2 0 in
  let w := Fake.final_world (Fake.run Fake.double 5 E a) in
  let img := nth 1 (submitted_images (trace w)) Fake.blank in
  world_of (Fake.run Fake.double 5 E a) = Some w /\
  nth_error (submitted_images (trace w)) 1 = Some img /\
  @holds_frame (Fake.lib Fake.double) Fake.blank Fake.three_frames 1 img.
Proof.
  cbv zeta.
  split; [vm_compute; reflexivity|]. split; [vm_compute; reflexivity|].
  apply (@frames_reach_the_encoder_unaltered (Fake.lib Fake.double) 5%nat
           (Fake.fs Fake.three_frames None) (Fake.args 2 0) Fake.blank
           Fake.three_frames
           (Fake.final_world
              (Fake.run Fake.double 5 (Fake.fs Fake.three_frames None)
                        (Fake.args 2 0)))).
  - apply fake_geometry_stable.
  - reflexivity.
  - apply fake_blank_fits.
  - reflexivity.
  - vm_compute. reflexivity.
  - vm_compute. reflexivity.
Defined.

Lemma failed_allocation_is_reported_witness :
  let p := Fake.mk_params 1 0 true false in
  let a := Fake.args (-1) 0 in
  @aom_img_alloc (Fake.lib p) (@AOM_IMG_FMT_I420 (Fake.lib p))
                 (frame_width a) (frame_height a) 1 = None /\
  exists w,
    Fake.run p 5 (Fake.fs Fake.three_frames None) a = Exit EXIT_FAILURE w /\
    trace w =
      EvImgAlloc (@AOM_IMG_FMT_I420 (Fake.lib p)) (frame_width a)
                 (frame_height a) 1 false
      :: usage_report a "Failed to allocate image." [] /\
    infile w = infile init_world /\ outfile w = outfile init_world.
Proof.
  cbv zeta. split; [reflexivity|].
  apply (@failed_allocation_is_reported
           (Fake.lib (Fake.mk_params 1 0 true false)) 5%nat
           (Fake.fs Fake.three_frames None) (Fake.args (-1) 0)).
  - reflexivity.
  - vm_compute. intros [Hx|[Hx|[Hx|Hx]]]; apply Hx; reflexivity.
  - reflexivity.
Defined.

